(** * GRS_PA02: two-copy, one-copy and zero-copy TCP senders

    A shallow embedding of the three benchmark clients
    (MT25062_Part_A1_Client.c, MT25062_Part_A2_Client.c,
    MT25062_Part_A3_Client.c) and of the receiving server
    (MT25062_Part_A3_Server.c).  C integers are [Z] with their wrap-around
    written out, [double] is the kernel's binary64 [float], buffers are
    lists of bytes, and everything the operating system decides (replies
    of [send]/[sendmsg], the error queue, the clock, [malloc]) is an
    explicit input of the functions below.

    A send loop [while (get_time_sec() - start_time < duration)] is driven
    by a script: the list of the iterations for which the test held, each
    with the clock readings and kernel answers it meets; the end of the
    script is the test failing.  A worker is a function from its arguments
    and environment to the events it causes, in program order, and the way
    its thread function ends. *)

From Stdlib Require Import ZArith List Bool Lia Floats Sorted.
Import ListNotations.
Open Scope Z_scope.

(* ================================================================== *)
(** ** Machine integers and bytes *)

(** Two's-complement reduction of [x] to [w] bits. *)
Definition wrap (w x : Z) : Z :=
  (x + 2 ^ (w - 1)) mod 2 ^ w - 2 ^ (w - 1).

Definition wrap32 : Z -> Z := wrap 32.      (* int *)
Definition wrap64 : Z -> Z := wrap 64.      (* long long, ssize_t *)

Definition INT_MAX : Z := 2 ^ 31 - 1.
Definition LLONG_MAX : Z := 2 ^ 63 - 1.
Definition LLONG_MIN : Z := - 2 ^ 63.

Definition NUM_FIELDS : Z := 8.
Definition EXIT_FAILURE : Z := 1.

(** A byte is a [Z] in [0, 256); [to_uchar] is the conversion to
    [unsigned char] that [memset] applies to its value argument. *)
Definition byte := Z.
Definition to_uchar (c : Z) : byte := c mod 256.
Definition char_A : Z := 65.                 (* 'A' *)

(** [memset(dst, c, n)] on a fresh block: [n] copies of [(unsigned char)c]. *)
Definition memset (c n : Z) : list byte := repeat (to_uchar c) (Z.to_nat n).

(** [memcpy(dst + offset, src, n)]: the block [dst] with [n] bytes of [src]
    written at [offset]. *)
Definition memcpy (dst : list byte) (offset : Z) (src : list byte) (n : Z)
  : list byte :=
  firstn (Z.to_nat offset) dst ++ firstn (Z.to_nat n) src
    ++ skipn (Z.to_nat offset + Z.to_nat n) dst.

(** [double] conversion of a [long long]. *)
Definition double_of_ll (z : Z) : float :=
  if z =? LLONG_MIN then (- 0x1p63)%float
  else if z <? 0 then (- of_uint63 (Uint63.of_Z (- z)))%float
  else of_uint63 (Uint63.of_Z z).

(* ================================================================== *)
(** ** What the operating system answers *)

Inductive errno_t : Set :=
| EINTR | EPIPE | ECONNRESET | ENOBUFS | EAGAIN
| EOTHER.                                    (* every other errno value *)

Definition errno_eqb (a b : errno_t) : bool :=
  match a, b with
  | EINTR, EINTR | EPIPE, EPIPE | ECONNRESET, ECONNRESET
  | ENOBUFS, ENOBUFS | EAGAIN, EAGAIN | EOTHER, EOTHER => true
  | _, _ => false
  end.

(** One answer of the kernel to a [send]/[sendmsg] call on the stream
    socket: it has room for [room] bytes, or the call fails with an errno. *)
Inductive reply : Set :=
| Accept (room : Z)
| Refuse (e : errno_t).

(** The result of one call: the returned [ssize_t], [errno] if it was set,
    and the bytes that went into the stream. *)
Record sys_result : Set := mkSys {
  sys_ret   : Z;
  sys_errno : option errno_t;
  sys_bytes : list byte
}.

(** [send(sock, buf + p, remaining, flags)]. *)
Definition send (r : reply) (buf : list byte) (p remaining : Z) : sys_result :=
  match r with
  | Accept room =>
      let sent := Z.max 0 (Z.min room remaining) in
      mkSys sent None (firstn (Z.to_nat sent) (skipn (Z.to_nat p) buf))
  | Refuse e => mkSys (-1) (Some e) []
  end.

(* ================================================================== *)
(** ** Message store (identical in the three clients) *)

Record message_t : Set := mkMessage {
  fields     : list (list byte);
  field_size : Z
}.

Inductive diagnostic : Set :=
| PerrorMallocMessage            (* perror("malloc message_t") *)
| ErrMsgSize                     (* "Error: msg_size must be >= 8 bytes" *)
| PerrorMallocField              (* perror("malloc field") *)
| PerrorMallocSendBuf            (* perror("malloc send_buf") *)
| ErrConnectionFailed            (* "[Client Tn] Connection failed" *)
| ErrConfig                      (* "[Client Tn] Failed to send config" *)
| ErrZerocopyFallback            (* perror + "Zero-copy not supported" *)
| PerrorSend.                    (* perror("send") / perror("sendmsg") *)

(** What [malloc] answers to a worker. *)
Record heap_env : Type := mkHeap {
  malloc_message_ok : bool;
  malloc_field_ok   : Z -> bool;             (* by field index *)
  malloc_send_buf   : Z -> option (list byte) (* the block as found, or NULL *)
}.

(** The loop [for (i = 0; i < NUM_FIELDS; i++)] of alloc_message, from
    index [i] with [todo] rounds to go; [None] is the [exit] after a failed
    field [malloc]. *)
Fixpoint alloc_fields (h : heap_env) (fsz : Z) (i : Z) (todo : nat)
  : option (list (list byte)) :=
  match todo with
  | O => Some []
  | S todo' =>
      if malloc_field_ok h i
      then match alloc_fields h fsz (i + 1) todo' with
           | Some fs => Some (memset (char_A + i) fsz :: fs)
           | None => None
           end
      else None
  end.

(** [alloc_message]: the message, or the diagnostic printed before
    [exit(EXIT_FAILURE)]. *)
Definition alloc_message (h : heap_env) (msg_size : Z)
  : message_t + diagnostic :=
  if malloc_message_ok h then
    let fsz := Z.quot msg_size NUM_FIELDS in
    if fsz <=? 0 then inr ErrMsgSize
    else match alloc_fields h fsz 0 (Z.to_nat NUM_FIELDS) with
         | Some fs => inl (mkMessage fs fsz)
         | None => inr PerrorMallocField
         end
  else inr PerrorMallocMessage.

(* ================================================================== *)
(** ** send_all (two-copy client) *)

Inductive send_all_result : Set :=
| SaReturn (ret : Z) (err : option errno_t) (wire : list byte)
| SaBlocked (wire : list byte).   (* the kernel's answers ran out inside the loop *)

(** The [while (remaining > 0)] loop of send_all; [wire] collects the bytes
    handed to the stream so far. *)
Fixpoint send_all_loop (rs : list reply) (buf : list byte)
    (p remaining len : Z) (wire : list byte) : send_all_result :=
  if remaining >? 0 then
    match rs with
    | [] => SaBlocked wire
    | r :: rs' =>
        let s := send r buf p remaining in
        if sys_ret s <? 0 then
          match sys_errno s with
          | Some EINTR => send_all_loop rs' buf p remaining len wire
          | e => SaReturn (-1) e wire
          end
        else
          send_all_loop rs' buf (p + sys_ret s) (remaining - sys_ret s) len
                        (wire ++ sys_bytes s)
    end
  else SaReturn len None wire.

Definition send_all (rs : list reply) (buf : list byte) (len : Z)
  : send_all_result :=
  send_all_loop rs buf 0 len len [].

(* ================================================================== *)
(** ** Workers: arguments, observable events, results *)

(** [thread_args_t] without the server address (the connection's fate is
    part of the environment). *)
Record thread_args_t : Set := mkArgs {
  thread_id         : Z;
  msg_size          : Z;
  duration          : Z;
  bytes_transferred : Z;
  elapsed_time      : float;
  avg_latency_us    : float
}.

(** What a worker does to the outside world, in program order. *)
Inductive event : Set :=
| EvConnect (ok : bool)                 (* connect_to_server called *)
| EvSetsockopt (ok : bool)              (* setsockopt(SO_ZEROCOPY) *)
| EvConfig (size dur : Z) (ret : Z)     (* send(sock, &config, 8, 0) *)
| EvDiag (d : diagnostic)               (* a line on stderr *)
| EvPayload (bytes : list byte)         (* payload bytes put on the stream *)
| EvDrain (records confirmed : nat)     (* drain_completions read that many
                                           records, and found that many
                                           zero-copy completions in them *)
| EvReport (bytes msgs : Z) (elapsed avg_lat : float)
                                        (* "[Client Tn] Sent ... bytes in ... sec
                                            (... msgs, avg_lat=... us)" *)
| EvExit (status : Z)                   (* exit(status) *)
| EvClose.                              (* close(sock) *)

(** How a thread function ends. *)
Inductive thread_end : Set :=
| ThreadReturns (targs : thread_args_t)  (* return NULL, with targs as left *)
| ProcessExits (status : Z)              (* exit() was called *)
| ThreadBlocks.                          (* stuck inside a system call loop *)

Record worker_run : Set := mkRun {
  run_events : list event;
  run_end    : thread_end
}.

(** The three accumulators of every send loop. *)
Record counters : Set := mkCounters {
  total_bytes   : Z;        (* long long *)
  msg_count     : Z;        (* long long *)
  total_latency : float
}.

Definition counters0 : counters := mkCounters 0 0 0%float.

(** The three statements after a successful send. *)
Definition account (c : counters) (sent : Z) (msg_start msg_end : float)
  : counters :=
  mkCounters (wrap64 (total_bytes c + sent))
             (wrap64 (msg_count c + 1))
             (total_latency c + (msg_end - msg_start))%float.

(** How a send loop stops. *)
Inductive loop_exit : Set :=
| TimeUp                               (* the duration test failed *)
| Broke (e : option errno_t)           (* break after a failed send *)
| Stuck.                               (* a call inside never came back *)

(** [errno == EPIPE || errno == ECONNRESET]. *)
Definition is_reset (e : option errno_t) : bool :=
  match e with
  | Some EPIPE | Some ECONNRESET => true
  | _ => false
  end.

(** Step 6/7: record metrics into [targs]. *)
Definition record_metrics (targs : thread_args_t) (c : counters)
    (elapsed : float) : thread_args_t :=
  mkArgs (thread_id targs) (msg_size targs) (duration targs)
         (total_bytes c) elapsed
         (if msg_count c >? 0
          then (total_latency c / double_of_ll (msg_count c))%float
          else 0%float).

(** The worker's closing [printf], which shows the locals of the loop next
    to the metrics just recorded. *)
Definition report_event (a : thread_args_t) (c : counters) : event :=
  EvReport (total_bytes c) (msg_count c) (elapsed_time a) (avg_latency_us a).

(** Step 6/7 and the cleanup: metrics, the report line, [close]. *)
Definition finish (targs : thread_args_t) (c : counters) (elapsed : float)
    (evs : list event) : worker_run :=
  let a := record_metrics targs c elapsed in
  mkRun (evs ++ [report_event a c; EvClose]) (ThreadReturns a).

Definition sizeof_config : Z := 8.

(* ================================================================== *)
(** ** A1: two-copy client *)

Module A1.

(** One pass of the [while] body: the two clock readings around send_all
    and the kernel's answers to the [send] calls made inside it. *)
Record iteration : Set := mkIter {
  msg_start : float;
  msg_end   : float;
  replies   : list reply
}.

(** The environment of one worker.  [script] lists the iterations for which
    the test [get_time_sec() - start_time < duration] held; when it is
    used up the test fails. *)
Record env : Type := mkEnv {
  connect_ok : bool;
  config_ret : Z;
  heap       : heap_env;
  start_time : float;
  script     : list iteration;
  end_time   : float
}.

(** COPY 1: the serialization [for] loop, [offset] running along. *)
Fixpoint serialize_from (fs : list (list byte)) (fsz : Z)
    (send_buf : list byte) (offset : Z) : list byte * Z :=
  match fs with
  | [] => (send_buf, offset)
  | f :: fs' =>
      serialize_from fs' fsz (memcpy send_buf offset f fsz) (wrap32 (offset + fsz))
  end.

Definition serialize (msg : message_t) (send_buf : list byte) : list byte :=
  fst (serialize_from (fields msg) (field_size msg) send_buf 0).

Record loop_result : Set := mkLoop {
  lr_counters : counters;
  lr_events   : list event;
  lr_exit     : loop_exit
}.

(** The call [send_all(sock, send_buf, targs->msg_size, 0)] of one pass,
    on the freshly serialized buffer. *)
Definition send_all_result_of (it : iteration) (msg : message_t) (size : Z)
    (send_buf : list byte) : send_all_result :=
  send_all (replies it) (serialize msg send_buf) size.

(** Step 5: the send loop. *)
Fixpoint send_loop (sc : list iteration) (msg : message_t) (size : Z)
    (send_buf : list byte) (c : counters) (evs : list event) : loop_result :=
  match sc with
  | [] => mkLoop c evs TimeUp
  | it :: sc' =>
      let send_buf' := serialize msg send_buf in
      match send_all_result_of it msg size send_buf with
      | SaBlocked w => mkLoop c (evs ++ [EvPayload w]) Stuck
      | SaReturn sent e w =>
          if sent <? 0 then
            if is_reset e
            then mkLoop c (evs ++ [EvPayload w]) (Broke e)
            else mkLoop c (evs ++ [EvPayload w; EvDiag PerrorSend]) (Broke e)
          else
            send_loop sc' msg size send_buf'
                      (account c sent (msg_start it) (msg_end it))
                      (evs ++ [EvPayload w])
      end
  end.

Definition client_thread (targs : thread_args_t) (E : env) : worker_run :=
  if connect_ok E then
    let ev1 := [EvConnect true] in
    let ev2 := ev1 ++ [EvConfig (msg_size targs) (duration targs) (config_ret E)] in
    if config_ret E =? sizeof_config then
      match alloc_message (heap E) (msg_size targs) with
      | inr d => mkRun (ev2 ++ [EvDiag d; EvExit EXIT_FAILURE])
                       (ProcessExits EXIT_FAILURE)
      | inl msg =>
          match malloc_send_buf (heap E) (msg_size targs) with
          | None => mkRun (ev2 ++ [EvDiag PerrorMallocSendBuf; EvClose])
                          (ThreadReturns targs)
          | Some send_buf =>
              let r := send_loop (script E) msg (msg_size targs) send_buf
                                 counters0 ev2 in
              match lr_exit r with
              | Stuck => mkRun (lr_events r) ThreadBlocks
              | _ =>
                  finish targs (lr_counters r)
                         (end_time E - start_time E)%float (lr_events r)
              end
          end
      end
    else mkRun (ev2 ++ [EvDiag ErrConfig; EvClose]) (ThreadReturns targs)
  else mkRun [EvConnect false; EvDiag ErrConnectionFailed] (ThreadReturns targs).

End A1.

(* ================================================================== *)
(** ** Scatter-gather sends (one-copy and zero-copy clients) *)

Record iovec : Set := mkIovec {
  iov_base : list byte;
  iov_len  : Z
}.

(** Step 4/5: the [for] loop filling [iov[i]] from [msg->fields[i]]. *)
Definition build_iov (msg : message_t) : list iovec :=
  map (fun f => mkIovec f (field_size msg)) (fields msg).

(** The bytes the descriptor list denotes, in order. *)
Definition gather (iov : list iovec) : list byte :=
  concat (map (fun v => firstn (Z.to_nat (iov_len v)) (iov_base v)) iov).

Definition iov_total (iov : list iovec) : Z :=
  fold_right (fun v acc => iov_len v + acc) 0 iov.

(** [sendmsg(sock, &mhdr, flags)] on a stream socket. *)
Definition sendmsg (r : reply) (iov : list iovec) : sys_result :=
  match r with
  | Accept room =>
      let sent := Z.max 0 (Z.min room (iov_total iov)) in
      mkSys sent None (firstn (Z.to_nat sent) (gather iov))
  | Refuse e => mkSys (-1) (Some e) []
  end.

(** One pass of the [while] body of the one-copy and zero-copy loops. *)
Record sg_iteration : Set := mkSg {
  sg_start   : float;
  sg_end     : float;
  sg_reply   : reply
}.

(* ================================================================== *)
(** ** A2: one-copy client *)

Module A2.

Record env : Type := mkEnv {
  connect_ok : bool;
  config_ret : Z;
  heap       : heap_env;
  start_time : float;
  script     : list sg_iteration;
  end_time   : float
}.

Record loop_result : Set := mkLoop {
  lr_counters : counters;
  lr_events   : list event;
  lr_exit     : loop_exit
}.

(** Step 5: the send loop. *)
Fixpoint send_loop (sc : list sg_iteration) (iov : list iovec)
    (c : counters) (evs : list event) : loop_result :=
  match sc with
  | [] => mkLoop c evs TimeUp
  | it :: sc' =>
      let s := sendmsg (sg_reply it) iov in
      if sys_ret s <? 0 then
        if is_reset (sys_errno s) then mkLoop c evs (Broke (sys_errno s))
        else match sys_errno s with
             | Some EINTR => send_loop sc' iov c evs
             | e => mkLoop c (evs ++ [EvDiag PerrorSend]) (Broke e)
             end
      else
        send_loop sc' iov
                  (account c (sys_ret s) (sg_start it) (sg_end it))
                  (evs ++ [EvPayload (sys_bytes s)])
  end.

Definition client_thread (targs : thread_args_t) (E : env) : worker_run :=
  if connect_ok E then
    let ev1 := [EvConnect true] in
    let ev2 := ev1 ++ [EvConfig (msg_size targs) (duration targs) (config_ret E)] in
    if config_ret E =? sizeof_config then
      match alloc_message (heap E) (msg_size targs) with
      | inr d => mkRun (ev2 ++ [EvDiag d; EvExit EXIT_FAILURE])
                       (ProcessExits EXIT_FAILURE)
      | inl msg =>
          let r := send_loop (script E) (build_iov msg) counters0 ev2 in
          finish targs (lr_counters r) (end_time E - start_time E)%float
                 (lr_events r)
      end
    else mkRun (ev2 ++ [EvDiag ErrConfig; EvClose]) (ThreadReturns targs)
  else mkRun [EvConnect false; EvDiag ErrConnectionFailed] (ThreadReturns targs).

End A2.

(* ================================================================== *)
(** ** A3: zero-copy client *)

Module A3.

Definition SOL_IP : Z := 0.
Definition IP_RECVERR : Z := 11.
Definition SO_EE_ORIGIN_ZEROCOPY : Z := 5.
Definition DRAIN_EVERY : Z := 64.

(** One control message of an error-queue record: the header fields and the
    origin of the [sock_extended_err] it carries. *)
Record cmsghdr : Set := mkCmsg {
  cmsg_level : Z;
  cmsg_type  : Z;
  ee_origin  : Z
}.

(** One record of the socket's error queue, as one [recvmsg] returns it. *)
Definition errmsg : Set := list cmsghdr.

(** The inner [while (cm)] walk; the result counts how often the branch
    "Zero-copy completion confirmed" is reached (its body is empty). *)
Fixpoint walk_cmsgs (cms : list cmsghdr) : nat :=
  match cms with
  | [] => O
  | cm :: rest =>
      if (cmsg_level cm =? SOL_IP) && (cmsg_type cm =? IP_RECVERR)
      then if ee_origin cm =? SO_EE_ORIGIN_ZEROCOPY
           then S (walk_cmsgs rest)
           else walk_cmsgs rest
      else walk_cmsgs rest
  end.

(** drain_completions: [recvmsg(MSG_ERRQUEUE | MSG_DONTWAIT)] until it
    fails, which it does when the queue is empty.  Returns the queue as
    left, the number of records read and the completions seen. *)
Fixpoint drain_completions (q : list errmsg) (records confirmed : nat)
  : list errmsg * nat * nat :=
  match q with
  | [] => ([], records, confirmed)
  | m :: q' => drain_completions q' (S records) (confirmed + walk_cmsgs m)
  end.

(** An iteration of the zero-copy loop: the scatter-gather call and the
    completion records that the kernel queued since the previous pass. *)
Record iteration : Set := mkIter {
  it_call     : sg_iteration;
  it_arrivals : list errmsg
}.

Record env : Type := mkEnv {
  connect_ok     : bool;
  setsockopt_ok  : bool;
  config_ret     : Z;
  heap           : heap_env;
  start_time     : float;
  script         : list iteration;
  final_arrivals : list errmsg;
  end_time       : float
}.

(** The locals of the loop and the socket's error queue. *)
Record state : Set := mkState {
  st_counters  : counters;
  drain_counter : Z;                 (* int *)
  errqueue     : list errmsg;
  st_events    : list event
}.

Definition state0 (evs : list event) : state := mkState counters0 0 [] evs.

(** A call of drain_completions from the worker: only the socket's queue
    and the event log change. *)
Definition drain (st : state) : state :=
  let '(q, n, k) := drain_completions (errqueue st) O O in
  mkState (st_counters st) (drain_counter st) q
          (st_events st ++ [EvDrain n k]).

Definition enqueue (st : state) (ms : list errmsg) : state :=
  mkState (st_counters st) (drain_counter st) (errqueue st ++ ms)
          (st_events st).

Definition log (st : state) (evs : list event) : state :=
  mkState (st_counters st) (drain_counter st) (errqueue st)
          (st_events st ++ evs).

(** The statements after a successful send: accounting, then the periodic
    drain [if (++drain_counter >= 64)]. *)
Definition after_send (st : state) (s : sys_result) (it : sg_iteration)
  : state :=
  let c := account (st_counters st) (sys_ret s) (sg_start it) (sg_end it) in
  let dc := wrap32 (drain_counter st + 1) in
  let st1 := mkState c dc (errqueue st)
                     (st_events st ++ [EvPayload (sys_bytes s)]) in
  if dc >=? DRAIN_EVERY then
    let st2 := drain st1 in
    mkState (st_counters st2) 0 (errqueue st2) (st_events st2)
  else st1.

(** Step 6: the send loop. *)
Fixpoint send_loop (sc : list iteration) (iov : list iovec) (st : state)
  : state * loop_exit :=
  match sc with
  | [] => (st, TimeUp)
  | it :: sc' =>
      let st := enqueue st (it_arrivals it) in
      let s := sendmsg (sg_reply (it_call it)) iov in
      if sys_ret s <? 0 then
        match sys_errno s with
        | Some ENOBUFS => send_loop sc' iov (drain st)
        | Some EPIPE | Some ECONNRESET => (st, Broke (sys_errno s))
        | Some EINTR => send_loop sc' iov st
        | e => (log st [EvDiag PerrorSend], Broke e)
        end
      else send_loop sc' iov (after_send st s (it_call it))
  end.

(** The loop followed by the final drain: the state the worker reaches
    before it records its metrics. *)
Definition worker_loop (E : env) (msg : message_t) (evs : list event) : state :=
  let '(st, _) := send_loop (script E) (build_iov msg) (state0 evs) in
  drain (enqueue st (final_arrivals E)).

Definition client_thread (targs : thread_args_t) (E : env) : worker_run :=
  if connect_ok E then
    let ev1 := if setsockopt_ok E
               then [EvConnect true; EvSetsockopt true]
               else [EvConnect true; EvSetsockopt false;
                     EvDiag ErrZerocopyFallback] in
    let ev2 := ev1 ++ [EvConfig (msg_size targs) (duration targs) (config_ret E)] in
    if config_ret E =? sizeof_config then
      match alloc_message (heap E) (msg_size targs) with
      | inr d => mkRun (ev2 ++ [EvDiag d; EvExit EXIT_FAILURE])
                       (ProcessExits EXIT_FAILURE)
      | inl msg =>
          let st' := worker_loop E msg ev2 in
          finish targs (st_counters st') (end_time E - start_time E)%float
                 (st_events st')
      end
    else mkRun (ev2 ++ [EvDiag ErrConfig; EvClose]) (ThreadReturns targs)
  else mkRun [EvConnect false; EvDiag ErrConnectionFailed] (ThreadReturns targs).

End A3.

(* ================================================================== *)
(** ** main: spawning, joining, aggregating (identical in the three clients) *)

Inductive impl_name : Set := two_copy | one_copy | zero_copy.

(** The fields of the RESULT line. *)
Record report : Set := mkReport {
  rp_impl        : impl_name;
  rp_msg_size    : Z;
  rp_threads     : Z;
  throughput_gbps : float;
  rp_avg_lat     : float;
  rp_total_bytes : Z;
  rp_elapsed     : float
}.

Definition print_results (impl : impl_name) (size threads : Z)
    (total : Z) (elapsed avg_lat : float) : report :=
  let throughput := ((double_of_ll total * 8) / (elapsed * 1e9))%float in
  mkReport impl size threads throughput avg_lat total elapsed.

(** The three accumulators of the aggregation loop. *)
Record totals : Set := mkTotals {
  ag_total_bytes   : Z;
  ag_max_elapsed   : float;
  ag_total_latency : float
}.

Definition totals0 : totals := mkTotals 0 0%float 0%float.

(** The body of [for (i = 0; i < threads; i++)] over [targs[i]]. *)
Definition aggregate_step (t : totals) (a : thread_args_t) : totals :=
  mkTotals (wrap64 (ag_total_bytes t + bytes_transferred a))
           (if (ag_max_elapsed t <? elapsed_time a)%float
            then elapsed_time a else ag_max_elapsed t)
           (ag_total_latency t + avg_latency_us a)%float.

Definition aggregate (targs : list thread_args_t) : totals :=
  fold_left aggregate_step targs totals0.

(** The tail of main, after the joins. *)
Definition summarize (impl : impl_name) (size threads : Z)
    (targs : list thread_args_t) : report :=
  let t := aggregate targs in
  let avg_latency := (ag_total_latency t / double_of_ll threads)%float in
  print_results impl size threads (ag_total_bytes t) (ag_max_elapsed t)
                avg_latency.

Inductive program_end : Set :=
| MainReturns (status : Z) (out : option report)
| MainExits (status : Z)               (* a worker called exit() *)
| MainBlocks.                          (* a join never returns *)

(** What [pthread_create] answers for one worker of the spawn loop: the
    thread is created and runs in its environment, or the call fails. *)
Inductive spawn (env : Type) : Type :=
| Spawned (E : env)
| SpawnFails.

Arguments Spawned {env} E.
Arguments SpawnFails {env}.

(** The spawn loop as far as thread creation goes: the environments of the
    workers when every [pthread_create] succeeded, [None] when one
    failed. *)
Fixpoint spawned {env : Type} (sp : list (spawn env)) : option (list env) :=
  match sp with
  | [] => Some []
  | Spawned E :: rest =>
      match spawned rest with
      | Some envs => Some (E :: envs)
      | None => None
      end
  | SpawnFails :: _ => None
  end.

Section Main.

Variable env : Type.
Variable client_thread : thread_args_t -> env -> worker_run.
Variable impl : impl_name.

(** The spawn loop's initialisation of [targs[i]]. *)
Definition init_args (i size dur : Z) : thread_args_t :=
  mkArgs i size dur 0 0%float 0%float.

(** Every worker run from its own environment, [i] counting up. *)
Fixpoint run_workers (i size dur : Z) (envs : list env) : list worker_run :=
  match envs with
  | [] => []
  | E :: rest =>
      client_thread (init_args i size dur) E :: run_workers (i + 1) size dur rest
  end.

Definition exited (r : worker_run) : bool :=
  match run_end r with ProcessExits _ => true | _ => false end.

Definition blocked (r : worker_run) : bool :=
  match run_end r with ThreadBlocks => true | _ => false end.

(** [targs[i]] as the joined worker left it. *)
Fixpoint joined (rs : list worker_run) : list thread_args_t :=
  match rs with
  | [] => []
  | r :: rest =>
      match run_end r with
      | ThreadReturns a => a :: joined rest
      | _ => joined rest
      end
  end.

(** main with [threads] workers, one answer of [pthread_create] each;
    [malloc_ok] is the fate of the two array allocations.  A failed
    [pthread_create] is [perror("pthread_create"); return EXIT_FAILURE]:
    main returns out of the spawn loop, without joining or reporting, and
    the workers created before end with the process. *)
Definition main (size dur : Z) (malloc_ok : bool) (sp : list (spawn env))
  : program_end :=
  let threads := Z.of_nat (length sp) in
  if malloc_ok then
    match spawned sp with
    | None => MainReturns EXIT_FAILURE None
    | Some envs =>
        let rs := run_workers 0 size dur envs in
        if existsb exited rs then MainExits EXIT_FAILURE
        else if existsb blocked rs then MainBlocks
        else MainReturns 0 (Some (summarize impl size threads (joined rs)))
    end
  else MainReturns EXIT_FAILURE None.

End Main.

Definition main_two_copy := main A1.env A1.client_thread two_copy.
Definition main_one_copy := main A2.env A2.client_thread one_copy.
Definition main_zero_copy := main A3.env A3.client_thread zero_copy.

(* ================================================================== *)
(** * Vocabulary of the properties, and the scenarios they are tried on *)

(** What the kernel is ready to take over a run of answers, and whether an
    answer is an error other than EINTR. *)
Fixpoint capacity (rs : list reply) : Z :=
  match rs with
  | [] => 0
  | Accept room :: rs' => Z.max 0 room + capacity rs'
  | Refuse _ :: rs' => capacity rs'
  end.

Definition fatal (r : reply) : bool :=
  match r with
  | Refuse e => negb (errno_eqb e EINTR)
  | Accept _ => false
  end.

(** The room the kernel offers before its first error other than EINTR,
    and that error if there is one. *)
Fixpoint until_fatal (rs : list reply) : Z * option errno_t :=
  match rs with
  | [] => (0, None)
  | Accept room :: rs' =>
      let '(c, e) := until_fatal rs' in (Z.max 0 room + c, e)
  | Refuse EINTR :: rs' => until_fatal rs'
  | Refuse e :: _ => (0, Some e)
  end.

(** send_all as it is specified, by the kernel's answers alone: with room
    for [len] bytes before any error other than EINTR it returns [len]
    with the first [len] bytes of the buffer on the stream; otherwise it
    returns -1 with that error after the bytes there was room for, or is
    still waiting when no such error comes. *)
Definition send_all_outcome (rs : list reply) (buf : list byte) (len : Z)
  : send_all_result :=
  let '(room, err) := until_fatal rs in
  if len <=? room then SaReturn len None (firstn (Z.to_nat len) buf)
  else match err with
       | Some e => SaReturn (-1) (Some e) (firstn (Z.to_nat room) buf)
       | None => SaBlocked (firstn (Z.to_nat room) buf)
       end.

(** What a finished call of send_all may look like for a buffer [buf] and a
    length [len]. *)
Definition send_all_post (buf : list byte) (len : Z) (rs : list reply)
    (res : send_all_result) : Prop :=
  match res with
  | SaReturn r e w =>
      (r = len /\ e = None /\ w = firstn (Z.to_nat len) buf)
      \/ (r = -1 /\ (exists e', e = Some e' /\ e' <> EINTR)
          /\ existsb fatal rs = true
          /\ exists k, 0 <= k < len /\ w = firstn (Z.to_nat k) buf)
  | SaBlocked w =>
      existsb fatal rs = false /\ capacity rs < len
      /\ exists k, 0 <= k < len /\ w = firstn (Z.to_nat k) buf
  end.

(** The eight fields of a message whose field size is [fsz]. *)
Definition pattern_fields (fsz : Z) : list (list byte) :=
  map (fun i => memset (char_A + i) fsz) [0; 1; 2; 3; 4; 5; 6; 7].

(** A message of 16 bytes, two per field. *)
Definition msg16 : message_t := mkMessage (pattern_fields 2) 2.

(** A run of the two-copy loop on 16-byte messages: one message goes out in
    two pieces around an EINTR, the next one breaks on EPIPE after 5
    bytes. *)
Definition script_whole_then_reset : list A1.iteration :=
  [ A1.mkIter 10 12 [Accept 7; Refuse EINTR; Accept 100];
    A1.mkIter 20 23 [Accept 5; Refuse EPIPE];
    A1.mkIter 30 31 [Accept 16] ].

(** A buffer of eight bytes to send. *)
Definition eight_bytes : list byte := [1; 2; 3; 4; 5; 6; 7; 8].

(** The byte count a [sendmsg] answer yields is a whole number of fields. *)
Definition accepts_whole_fields (fsz total : Z) (it : sg_iteration) : Prop :=
  match sg_reply it with
  | Accept room => Z.max 0 (Z.min room total) mod fsz = 0
  | Refuse _ => True
  end.

(** An allocator that never fails and hands out zeroed blocks. *)
Definition heap_ok : heap_env :=
  mkHeap true (fun _ => true) (fun n => Some (repeat 0 (Z.to_nat n))).

(** Workers of the 80000-byte scenario: a two-copy worker whose first
    message needs two calls, a one-copy worker interrupted once. *)
Definition scenario_two_copy : A1.env :=
  A1.mkEnv true 8 heap_ok 0
           [A1.mkIter 1 2 [Accept 30000; Accept 80000];
            A1.mkIter 3 4 [Accept 80000]] 5.

Definition scenario_one_copy : A2.env :=
  A2.mkEnv true 8 heap_ok 0
           [mkSg 1 2 (Accept 80000); mkSg 3 4 (Refuse EINTR);
            mkSg 5 6 (Accept 20000)] 7.

(** A one-copy worker whose single [sendmsg] is cut short at 12345 bytes. *)
Definition scenario_short_send : A2.env :=
  A2.mkEnv true 8 heap_ok 0 [mkSg 1 2 (Accept 12345)] 3.

(** What C5 asks of a worker: the reported byte count is a whole number
    of fields. *)
Definition reports_whole_fields (r : worker_run) (size : Z) : Prop :=
  match run_end r with
  | ThreadReturns a => bytes_transferred a mod Z.quot size NUM_FIELDS = 0
  | _ => True
  end.

(** The worker got as far as alloc_message: connected, configuration sent
    in one piece. *)
Definition gets_through (connect_ok : bool) (config_ret : Z) : bool :=
  connect_ok && (config_ret =? sizeof_config).

(** The diagnostic of alloc_message for a size below 8. *)
Definition small_size_diag (h : heap_env) : diagnostic :=
  if malloc_message_ok h then ErrMsgSize else PerrorMallocMessage.

(** How a worker treats a payload size below 8.  Its first act is the
    connection attempt and it never sends payload.  If it gets through
    connection and handshake it prints the diagnostic and exits the
    process, the configuration already sent; otherwise it returns with
    [targs] untouched and exits nothing. *)
Definition rejects_after_handshake (through : bool) (h : heap_env)
    (targs : thread_args_t) (r : worker_run) : Prop :=
  (exists ok rest, run_events r = EvConnect ok :: rest)
  /\ (forall b, ~ In (EvPayload b) (run_events r))
  /\ if through
     then run_end r = ProcessExits EXIT_FAILURE
          /\ exists pre,
               run_events r
               = pre ++ [EvConfig (msg_size targs) (duration targs) sizeof_config;
                         EvDiag (small_size_diag h); EvExit EXIT_FAILURE]
               /\ In (EvConnect true) pre
     else run_end r = ThreadReturns targs
          /\ forall s, ~ In (EvExit s) (run_events r).

(** The [targs] array as the spawn loop fills it, from index [i] on. *)
Fixpoint fresh_args (i size dur : Z) (n : nat) : list thread_args_t :=
  match n with
  | O => []
  | S n' => init_args i size dur :: fresh_args (i + 1) size dur n'
  end.

(** What C3 asks of a worker: it ends in [exit] and never tried to
    connect. *)
Definition aborts_before_connecting (r : worker_run) : Prop :=
  (exists s, run_end r = ProcessExits s)
  /\ forall ok, ~ In (EvConnect ok) (run_events r).

(** Workers given a 7-byte payload, the server answering. *)
Definition env7_two_copy : A1.env := A1.mkEnv true 8 heap_ok 0 [] 0.
Definition env7_one_copy : A2.env := A2.mkEnv true 8 heap_ok 0 [] 0.
Definition env7_zero_copy : A3.env := A3.mkEnv true true 8 heap_ok 0 [] [] 0.
(** The same worker with the server down. *)
Definition env7_refused : A1.env := A1.mkEnv false 0 heap_ok 0 [] 0.

(** The zero-copy completions in a run of error-queue records: how often
    reading them reaches the branch "Zero-copy completion confirmed". *)
Fixpoint confirmations (q : list A3.errmsg) : nat :=
  match q with
  | [] => O
  | m :: q' => (A3.walk_cmsgs m + confirmations q')%nat
  end.

(** An iteration whose send fails with ENOBUFS. *)
Definition exhausted (it : A3.iteration) : Prop :=
  sg_reply (A3.it_call it) = Refuse ENOBUFS.

(** The state after a run of ENOBUFS failures: one drain per failure. *)
Definition after_exhaustion (st : A3.state) (fails : list A3.iteration)
  : A3.state :=
  fold_left (fun s it => A3.drain (A3.enqueue s (A3.it_arrivals it))) fails st.

(** The error-queue record of one zero-copy completion. *)
Definition zc_record : A3.errmsg :=
  [A3.mkCmsg A3.SOL_IP A3.IP_RECVERR A3.SO_EE_ORIGIN_ZEROCOPY].

(** Iterations of a zero-copy run on 16-byte messages: an ENOBUFS failure
    with two completion records waiting, and a send that goes through. *)
Definition it_enobufs : A3.iteration :=
  A3.mkIter (mkSg 10 11 (Refuse ENOBUFS)) [zc_record; zc_record].

Definition it_sent : A3.iteration :=
  A3.mkIter (mkSg 20 23 (Accept 16)) [].

(** A zero-copy worker that sends one 16-byte message; its completion
    record is waiting when the final drain runs. *)
Definition env_one_send : A3.env :=
  A3.mkEnv true true 8 heap_ok 0 [it_sent] [zc_record] 30.


(** A server that accepts everything, an allocator whose fresh blocks are
    filled with the byte [g], and one iteration before time is up. *)
Definition heap_filled (g : byte) : heap_env :=
  mkHeap true (fun _ => true) (fun n => Some (repeat g (Z.to_nat n))).

Definition env9_two_copy (g : byte) : A1.env :=
  A1.mkEnv true 8 (heap_filled g) 0 [A1.mkIter 1 2 [Accept 9]] 3.

Definition env9_one_copy (g : byte) : A2.env :=
  A2.mkEnv true 8 (heap_filled g) 0 [mkSg 1 2 (Accept 9)] 3.

Definition env9_zero_copy (g : byte) : A3.env :=
  A3.mkEnv true true 8 (heap_filled g) 0 [A3.mkIter (mkSg 1 2 (Accept 9)) []]
           [] 3.

(** [x] is a number at or above zero (so, not a NaN). *)
Definition nonneg (x : float) : Prop := (0 <=? x)%float = true.

(** The three reductions the loop of main computes in one pass, each
    written on its own. *)
Definition sum_bytes (targs : list thread_args_t) : Z :=
  fold_right (fun a acc => bytes_transferred a + acc) 0 targs.

Definition sum_doubles (xs : list float) : float :=
  fold_left PrimFloat.add xs 0%float.

(** Four workers of a two-second run, 250000000 bytes each. *)
Definition four_workers : list thread_args_t :=
  [ mkArgs 0 80000 2 250000000 7.5 10;
    mkArgs 1 80000 2 250000000 8 20;
    mkArgs 2 80000 2 250000000 7.25 30;
    mkArgs 3 80000 2 250000000 6 40 ].

(** The worker's report line, if it printed one, shows zero messages. *)
Definition no_message_reported (r : worker_run) : Prop :=
  forall b m e l, In (EvReport b m e l) (run_events r) -> m = 0.

(** Workers whose connection breaks on the first send. *)
Definition env_reset_two_copy : A1.env :=
  A1.mkEnv true 8 heap_ok 100
           [A1.mkIter 1 5 [Accept 3; Refuse ECONNRESET]; A1.mkIter 6 7 [Accept 16]]
           101.

Definition env_reset_one_copy : A2.env :=
  A2.mkEnv true 8 heap_ok 100
           [mkSg 1 5 (Refuse EINTR); mkSg 6 9 (Refuse EPIPE)] 101.

Definition env_reset_zero_copy : A3.env :=
  A3.mkEnv true false 8 heap_ok 100
           [A3.mkIter (mkSg 1 5 (Refuse ENOBUFS)) [];
            A3.mkIter (mkSg 6 9 (Refuse ECONNRESET)) []]
           [] 101.

(* ================================================================== *)
(** * More vocabulary: the rest of the clients *)

(** Every field [malloc] of alloc_message succeeds. *)
Definition all_fields_ok (h : heap_env) : bool :=
  forallb (malloc_field_ok h) [0; 1; 2; 3; 4; 5; 6; 7].

(** The number of payload bytes a worker put on the stream. *)
Fixpoint payload_bytes (evs : list event) : Z :=
  match evs with
  | [] => 0
  | EvPayload b :: rest => Z.of_nat (length b) + payload_bytes rest
  | _ :: rest => payload_bytes rest
  end.

(** The payloads of a worker, send by send. *)
Fixpoint payloads (evs : list event) : list (list byte) :=
  match evs with
  | [] => []
  | EvPayload b :: rest => b :: payloads rest
  | _ :: rest => payloads rest
  end.

(** The calls of drain_completions a worker made. *)
Fixpoint drains (evs : list event) : Z :=
  match evs with
  | [] => 0
  | EvDrain _ _ :: rest => 1 + drains rest
  | _ :: rest => drains rest
  end.

(** The call was interrupted: [sendmsg] failed with EINTR. *)
Definition interrupted (it : sg_iteration) : bool :=
  match sg_reply it with
  | Refuse EINTR => true
  | _ => false
  end.

(** A one-copy environment with the interrupted iterations taken out. *)
Definition without_interrupts (E : A2.env) : A2.env :=
  A2.mkEnv (A2.connect_ok E) (A2.config_ret E) (A2.heap E) (A2.start_time E)
           (filter (fun it => negb (interrupted it)) (A2.script E))
           (A2.end_time E).

(** An answer that ends the zero-copy loop: an error other than EINTR and
    ENOBUFS. *)
Definition fatal_zc (r : reply) : bool :=
  match r with
  | Refuse EINTR | Refuse ENOBUFS | Accept _ => false
  | Refuse _ => true
  end.

(** The one-copy environment that meets the same answers as a zero-copy
    one. *)
Definition as_one_copy (E : A3.env) : A2.env :=
  A2.mkEnv (A3.connect_ok E) (A3.config_ret E) (A3.heap E) (A3.start_time E)
           (map A3.it_call (A3.script E)) (A3.end_time E).

(** A zero-copy environment with the fate of [setsockopt] replaced. *)
Definition with_setsockopt (b : bool) (E : A3.env) : A3.env :=
  A3.mkEnv (A3.connect_ok E) b (A3.config_ret E) (A3.heap E)
           (A3.start_time E) (A3.script E) (A3.final_arrivals E)
           (A3.end_time E).

(** How many sends of a zero-copy script the kernel takes, and how many it
    refuses with ENOBUFS. *)
Fixpoint accepted (sc : list A3.iteration) : Z :=
  match sc with
  | [] => 0
  | it :: rest =>
      match sg_reply (A3.it_call it) with
      | Accept _ => 1 + accepted rest
      | Refuse _ => accepted rest
      end
  end.

Fixpoint refused_enobufs (sc : list A3.iteration) : Z :=
  match sc with
  | [] => 0
  | it :: rest =>
      match sg_reply (A3.it_call it) with
      | Refuse ENOBUFS => 1 + refused_enobufs rest
      | _ => refused_enobufs rest
      end
  end.

(** A zero-copy worker that sends 130 messages and meets ENOBUFS once. *)
Definition env_130_messages : A3.env :=
  A3.mkEnv true true 8 heap_ok 0
           (repeat it_sent 100 ++ it_enobufs :: repeat it_sent 30) [] 30.

(* ================================================================== *)
(** * connect_to_server (identical in the three clients) *)

(** What the three calls of connect_to_server return. *)
Record net_env : Set := mkNet {
  socket_ret    : Z;
  inet_pton_ret : Z;
  connect_ret   : Z
}.

Inductive net_call : Set := CallSocket | CallInetPton | CallConnect.

Inductive net_event : Set :=
| NetPerror (c : net_call)             (* perror("socket") and the like *)
| NetClose (fd : Z).                   (* close(sock) *)

(** connect_to_server: the descriptor returned, or -1, and what it printed
    and closed on the way. *)
Definition connect_to_server (n : net_env) : Z * list net_event :=
  let sock := socket_ret n in
  if sock <? 0 then (-1, [NetPerror CallSocket])
  else if inet_pton_ret n <=? 0
       then (-1, [NetPerror CallInetPton; NetClose sock])
       else if connect_ret n <? 0
            then (-1, [NetPerror CallConnect; NetClose sock])
            else (sock, []).

(** The descriptors a run of connect_to_server closed. *)
Fixpoint net_closed (evs : list net_event) : list Z :=
  match evs with
  | [] => []
  | NetClose fd :: rest => fd :: net_closed rest
  | _ :: rest => net_closed rest
  end.

(** How often a worker closed its socket. *)
Fixpoint closes (evs : list event) : Z :=
  match evs with
  | [] => 0
  | EvClose :: rest => 1 + closes rest
  | _ :: rest => closes rest
  end.

(* ================================================================== *)
(** * The receiving side (MT25062_Part_A3_Server.c) *)

Module Server.

Definition SERVER_PORT : Z := 8080.

(** [(size_t)n] for an [int] [n]. *)
Definition to_size_t (n : Z) : Z := n mod 2 ^ 64.

Inductive sv_call : Set :=
| SvSocket | SvSetsockopt | SvBind | SvListen | SvAccept
| SvMallocArgs | SvPthreadCreate | SvMallocRecvBuf.

Inductive sv_event : Set :=
| SvPerror (c : sv_call)                 (* perror(...) *)
| SvListening (port : Z)                 (* "[Server] Listening on port" *)
| SvAccepted (id fd : Z)                 (* "[Server] Accepted client id" *)
| SvSpawn (fd id : Z)                    (* handler thread created, detached *)
| SvCloseClient (fd : Z)                 (* close(client_fd) *)
| SvFreeArgs                             (* free(targs) *)
| SvFreeBuf                              (* free(recv_buf) *)
| SvConfigFailed (id : Z)                (* "Failed to receive config" *)
| SvConnected (id size dur : Z)          (* "Client connected: ..." *)
| SvReceived (id total : Z)              (* "Received ... bytes" *)
| SvShutdown                             (* "[Server] Shutting down." *)
| SvCloseServer (fd : Z).                (* close(server_fd) *)

(** *** create_server_socket *)

Record setup_env : Set := mkSetup {
  sv_socket_ret     : Z;
  sv_setsockopt_ret : Z;
  sv_bind_ret       : Z;
  sv_listen_ret     : Z
}.

(** The listening descriptor, or the call whose failure made the process
    exit. *)
Definition create_server_socket (port : Z) (S : setup_env)
  : (Z + sv_call) * list sv_event :=
  if sv_socket_ret S <? 0 then (inr SvSocket, [SvPerror SvSocket])
  else if sv_setsockopt_ret S <? 0
       then (inr SvSetsockopt, [SvPerror SvSetsockopt])
       else if sv_bind_ret S <? 0 then (inr SvBind, [SvPerror SvBind])
            else if sv_listen_ret S <? 0
                 then (inr SvListen, [SvPerror SvListen])
                 else (inl (sv_socket_ret S), [SvListening port]).

(** *** handle_client *)

(** One answer to [recv(client_fd, recv_buf, msg_size, 0)]: the call fails,
    or finds [ready] bytes of the stream waiting. *)
Record recv_step : Set := mkRecv {
  rv_failed : bool;
  rv_ready  : Z
}.

(** [recv] on the stream [remaining] that the peer sends and then closes:
    a blocking call returns at least one byte while any is left, at most
    [len], and 0 once the stream is used up. *)
Definition recv (remaining : list byte) (step : recv_step) (len : Z)
  : Z * list byte :=
  if rv_failed step then (-1, remaining)
  else
    let n := Z.min (Z.max 1 (rv_ready step))
                   (Z.min len (Z.of_nat (length remaining))) in
    (n, skipn (Z.to_nat n) remaining).

Inductive stop : Set :=
| Shutdown                               (* g_running became 0 *)
| Ended (bytes : Z).                     (* break on recv's result <= 0 *)

(** The loop [while (g_running)]; the script lists the passes for which
    [g_running] was still set. *)
Fixpoint recv_loop (sc : list recv_step) (len : Z) (remaining : list byte)
    (total_bytes : Z) : Z * list byte * stop :=
  match sc with
  | [] => (total_bytes, remaining, Shutdown)
  | step :: sc' =>
      let '(bytes, remaining') := recv remaining step len in
      if bytes <=? 0 then (total_bytes, remaining', Ended bytes)
      else recv_loop sc' len remaining' (wrap64 (total_bytes + bytes))
  end.

(** The environment of a handler: the result of the MSG_WAITALL read of
    the configuration and its content, the fate of [malloc], the payload
    stream the peer sends, and the answers to the [recv] calls. *)
Record handler_env : Set := mkHandler {
  cfg_bytes     : Z;
  cfg_msg_size  : Z;
  cfg_duration  : Z;
  malloc_buf_ok : bool;
  stream        : list byte;
  script        : list recv_step
}.

Definition handle_client (E : handler_env) (client_fd thread_id : Z)
  : list sv_event :=
  if cfg_bytes E =? sizeof_config then
    let connected :=
      SvConnected thread_id (cfg_msg_size E) (cfg_duration E) in
    if malloc_buf_ok E then
      let '(total, _, _) :=
        recv_loop (script E) (to_size_t (cfg_msg_size E)) (stream E) 0 in
      [connected; SvReceived thread_id total; SvFreeBuf;
       SvCloseClient client_fd; SvFreeArgs]
    else [connected; SvPerror SvMallocRecvBuf; SvCloseClient client_fd;
          SvFreeArgs]
  else [SvConfigFailed thread_id; SvCloseClient client_fd; SvFreeArgs].

(** *** main *)

(** One pass of the accept loop: [accept] fails, or returns a descriptor,
    after which [malloc] and [pthread_create] succeed or not. *)
Inductive accept_step : Set :=
| AcceptFails (e : errno_t)
| Accepted (fd : Z) (malloc_ok create_ok : bool).

(** The loop [while (g_running)] of main, [thread_id] running along. *)
Fixpoint accept_loop (sc : list accept_step) (thread_id : Z)
  : list sv_event * Z :=
  match sc with
  | [] => ([], thread_id)
  | AcceptFails e :: sc' =>
      let '(evs, id) := accept_loop sc' thread_id in
      match e with
      | EINTR => (evs, id)
      | _ => (SvPerror SvAccept :: evs, id)
      end
  | Accepted fd malloc_ok create_ok :: sc' =>
      if malloc_ok then
        let '(evs, id) := accept_loop sc' (wrap32 (thread_id + 1)) in
        if create_ok
        then (SvAccepted thread_id fd :: SvSpawn fd thread_id :: evs, id)
        else (SvAccepted thread_id fd :: SvPerror SvPthreadCreate
                :: SvCloseClient fd :: SvFreeArgs :: evs, id)
      else
        let '(evs, id) := accept_loop sc' thread_id in
        (SvAccepted thread_id fd :: SvPerror SvMallocArgs
           :: SvCloseClient fd :: evs, id)
  end.

Inductive main_end : Set :=
| Returns (status : Z)
| Exits (status : Z).

(** main: [port_arg] is [atoi(argv[1])] when an argument is given. *)
Definition main (port_arg : option Z) (S : setup_env)
    (sc : list accept_step) : list sv_event * main_end :=
  let port := match port_arg with Some p => p | None => SERVER_PORT end in
  match create_server_socket port S with
  | (inr _, evs) => (evs, Exits EXIT_FAILURE)
  | (inl server_fd, evs) =>
      let '(loop_evs, _) := accept_loop sc 0 in
      (evs ++ loop_evs ++ [SvShutdown; SvCloseServer server_fd], Returns 0)
  end.

(** The connections of a script that main accepted, and what became of
    each: handed to a handler thread, or closed. *)
Inductive fate : Set := Handled | Dropped.

Fixpoint connections (sc : list accept_step) : list (Z * fate) :=
  match sc with
  | [] => []
  | AcceptFails _ :: sc' => connections sc'
  | Accepted fd malloc_ok create_ok :: sc' =>
      (fd, if malloc_ok && create_ok then Handled else Dropped)
        :: connections sc'
  end.

(** The same, read off the events of a run. *)
Fixpoint dispositions (evs : list sv_event) : list (Z * fate) :=
  match evs with
  | [] => []
  | SvSpawn fd _ :: rest => (fd, Handled) :: dispositions rest
  | SvCloseClient fd :: rest => (fd, Dropped) :: dispositions rest
  | _ :: rest => dispositions rest
  end.

(** The ids of the handler threads started, in order. *)
Fixpoint spawned_ids (evs : list sv_event) : list Z :=
  match evs with
  | [] => []
  | SvSpawn _ id :: rest => id :: spawned_ids rest
  | _ :: rest => spawned_ids rest
  end.

(** The connections announced, with the id printed for each. *)
Fixpoint announced (evs : list sv_event) : list (Z * Z) :=
  match evs with
  | [] => []
  | SvAccepted id fd :: rest => (id, fd) :: announced rest
  | _ :: rest => announced rest
  end.

(** How many passes of a script consume a thread id. *)
Fixpoint ids_used (sc : list accept_step) : Z :=
  match sc with
  | [] => 0
  | Accepted _ true _ :: sc' => 1 + ids_used sc'
  | _ :: sc' => ids_used sc'
  end.

End Server.

(** The handler that serves a worker: it receives the worker's
    configuration whole, gets its buffer, and is sent the worker's
    payloads as one stream. *)
Definition handler_of (evs : list event) (size dur : Z)
    (sc : list Server.recv_step) : Server.handler_env :=
  Server.mkHandler sizeof_config size dur true (concat (payloads evs)) sc.

(** What a handler that ran its loop prints and releases, for a total. *)
Definition handler_run (id size dur total fd : Z) : list Server.sv_event :=
  [Server.SvConnected id size dur; Server.SvReceived id total;
   Server.SvFreeBuf; Server.SvCloseClient fd; Server.SvFreeArgs].

(** A worker's socket is released the way the source means it to be: a
    worker that connected and returns closes it once, as its last act; a
    worker that never connected, that ends in [exit] or that never comes
    back from a call closes nothing. *)
Definition socket_released (connected : bool) (r : worker_run) : Prop :=
  match run_end r with
  | ThreadReturns _ =>
      if connected
      then exists before,
             run_events r = before ++ [EvClose] /\ closes before = 0
      else closes (run_events r) = 0
  | _ => closes (run_events r) = 0
  end.

(** The events by which the server gives a resource back. *)
Definition sv_release (e : Server.sv_event) : bool :=
  match e with
  | Server.SvCloseClient _ | Server.SvFreeArgs | Server.SvFreeBuf => true
  | _ => false
  end.

(** The four calls of create_server_socket all succeeded. *)
Definition setup_ok (S : Server.setup_env) : Prop :=
  0 <= Server.sv_socket_ret S /\ 0 <= Server.sv_setsockopt_ret S
  /\ 0 <= Server.sv_bind_ret S /\ 0 <= Server.sv_listen_ret S.

(** The passes a zero-copy loop performs of a script: up to and including
    the first send that ends it. *)
Fixpoint passes (sc : list A3.iteration) : list A3.iteration :=
  match sc with
  | [] => []
  | it :: rest =>
      if fatal_zc (sg_reply (A3.it_call it)) then [it] else it :: passes rest
  end.

(** The completion records the kernel queued over some passes. *)
Fixpoint arrivals (sc : list A3.iteration) : nat :=
  match sc with
  | [] => O
  | it :: rest => (length (A3.it_arrivals it) + arrivals rest)%nat
  end.

(** The completion records a worker read, over all its drains. *)
Fixpoint records_read (evs : list event) : nat :=
  match evs with
  | [] => O
  | EvDrain n _ :: rest => (n + records_read rest)%nat
  | _ :: rest => records_read rest
  end.

(** Records read so far and records still queued. *)
Definition records_seen (st : A3.state) : nat :=
  (records_read (A3.st_events st) + length (A3.errqueue st))%nat.

(** ** The outstanding completions of a zero-copy worker *)

(** The count the specification keeps of a worker's outstanding
    completions, read off its events in program order: up by one on each
    successful zero-copy send, down by one for each completion record a
    drain reads. *)
Definition outstanding_step (n : Z) (e : event) : Z :=
  match e with
  | EvPayload _ => n + 1
  | EvDrain _ confirmed => n - Z.of_nat confirmed
  | _ => n
  end.

Definition outstanding (evs : list event) : Z :=
  fold_left outstanding_step evs 0.





(** The kernel confirms only sends that were made.  With [u] sends
    waiting for their completion when the passes [sc] begin, the
    completions queued before the send of a pass are at most the sends
    then waiting, and so are those queued before the final drain. *)
Fixpoint confirms_sends_made (u : Z) (sc : list A3.iteration)
    (final : list A3.errmsg) : bool :=
  match sc with
  | [] => Z.of_nat (confirmations final) <=? u
  | it :: rest =>
      let u' := u - Z.of_nat (confirmations (A3.it_arrivals it)) in
      (0 <=? u')
      && match sg_reply (A3.it_call it) with
         | Accept _ => confirms_sends_made (u' + 1) rest final
         | Refuse EINTR | Refuse ENOBUFS => confirms_sends_made u' rest final
         | Refuse _ => Z.of_nat (confirmations final) <=? u'
         end
  end.


(* ================================================================== *)
(** * Properties *)

(** ** Lists of bytes *)

Lemma firstn_plus {A} (p s : nat) (l : list A) :
  firstn (p + s) l = firstn p l ++ firstn s (skipn p l).
Proof.
  revert l; induction p as [|p IH]; intros l; simpl.
  - reflexivity.
  - destruct l as [|x l]; simpl.
    + now rewrite firstn_nil.
    + now rewrite IH.
Qed.

Lemma firstn_Z_plus {A} (p s : Z) (l : list A) :
  0 <= p -> 0 <= s ->
  firstn (Z.to_nat (p + s)) l
  = firstn (Z.to_nat p) l ++ firstn (Z.to_nat s) (skipn (Z.to_nat p) l).
Proof.
  intros Hp Hs. rewrite Z2Nat.inj_add by assumption. apply firstn_plus.
Qed.

(** ** send_all *)

Lemma capacity_nonneg (rs : list reply) : 0 <= capacity rs.
Proof.
  induction rs as [|[room | e] rs IH]; simpl; lia.
Qed.

Lemma send_all_loop_post (buf : list byte) (len : Z) :
  forall rs p remaining wire,
    0 <= p -> 0 <= remaining -> p + remaining = len ->
    wire = firstn (Z.to_nat p) buf ->
    match send_all_loop rs buf p remaining len wire with
    | SaReturn r e w =>
        (r = len /\ e = None /\ w = firstn (Z.to_nat len) buf)
        \/ (r = -1 /\ (exists e', e = Some e' /\ e' <> EINTR)
            /\ existsb fatal rs = true
            /\ exists k, 0 <= k < len /\ w = firstn (Z.to_nat k) buf)
    | SaBlocked w =>
        existsb fatal rs = false /\ capacity rs < remaining
        /\ exists k, 0 <= k < len /\ w = firstn (Z.to_nat k) buf
    end.
Proof.
  induction rs as [|r rs IH]; intros p remaining wire Hp Hr Hsum Hw.
  - simpl. destruct (remaining >? 0) eqn:Hpos.
    + apply Z.gtb_lt in Hpos. simpl. repeat split; try lia.
      exists p. split; [lia | exact Hw].
    + assert (remaining = 0) by (rewrite Z.gtb_ltb, Z.ltb_ge in Hpos; lia).
      left. repeat split. subst. now rewrite Z.add_0_r.
  - cbn [send_all_loop]. destruct (remaining >? 0) eqn:Hpos.
    + apply Z.gtb_lt in Hpos.
      destruct r as [room | e]; cbn [send sys_ret sys_errno sys_bytes].
      * set (sent := Z.max 0 (Z.min room remaining)).
        assert (Hs : 0 <= sent <= remaining) by (unfold sent; lia).
        replace (sent <? 0) with false by (symmetry; apply Z.ltb_ge; lia).
        specialize (IH (p + sent) (remaining - sent)
                       (wire ++ firstn (Z.to_nat sent) (skipn (Z.to_nat p) buf))).
        assert (Hw' : wire ++ firstn (Z.to_nat sent) (skipn (Z.to_nat p) buf)
                      = firstn (Z.to_nat (p + sent)) buf).
        { rewrite firstn_Z_plus by lia. now rewrite Hw. }
        specialize (IH ltac:(lia) ltac:(lia) ltac:(lia) Hw').
        destruct (send_all_loop rs buf (p + sent) (remaining - sent) len _)
          as [r e w | w]; cbn [existsb fatal capacity orb].
        -- exact IH.
        -- destruct IH as (Hf & Hc & Hk). repeat split; try assumption.
           pose proof (capacity_nonneg rs). unfold sent in Hc. lia.
      * replace (-1 <? 0) with true by reflexivity.
        destruct e; cbn [existsb fatal errno_eqb negb orb];
          try (right; repeat split;
               [ eexists; split; [reflexivity | discriminate]
               | exists p; split; [lia | exact Hw] ]).
        exact (IH p remaining wire Hp Hr Hsum Hw).
    + assert (remaining = 0) by (rewrite Z.gtb_ltb, Z.ltb_ge in Hpos; lia).
      left. repeat split. subst. now rewrite Z.add_0_r.
Qed.

Lemma send_all_correct (rs : list reply) (buf : list byte) (len : Z) :
  send_all_post buf len rs (send_all rs buf len).
Proof.
  unfold send_all, send_all_post.
  destruct (Z.le_gt_cases 0 len) as [Hlen | Hlen].
  - exact (send_all_loop_post buf len rs 0 len [] ltac:(lia) Hlen
             ltac:(lia) eq_refl).
  - destruct rs as [|r rs]; cbn [send_all_loop];
      replace (len >? 0) with false
        by (symmetry; rewrite Z.gtb_ltb; apply Z.ltb_ge; lia);
      left; repeat split; now destruct len.
Qed.

Lemma send_all_eintr (rs : list reply) (buf : list byte) (len : Z) :
  send_all (Refuse EINTR :: rs) buf len = send_all rs buf len.
Proof.
  unfold send_all. cbn [send_all_loop send sys_ret sys_errno].
  destruct (len >? 0) eqn:Hpos; [reflexivity|].
  destruct rs; cbn [send_all_loop]; now rewrite Hpos.
Qed.

(** A failed send_all ends the two-copy loop at once, counters untouched. *)
Lemma a1_send_loop_break (it : A1.iteration) sc msg size buf c evs r e w :
  A1.send_all_result_of it msg size buf = SaReturn r e w ->
  r < 0 ->
  let res := A1.send_loop (it :: sc) msg size buf c evs in
  A1.lr_exit res = Broke e /\ A1.lr_counters res = c.
Proof.
  intros Hsa Hr. cbn [A1.send_loop].
  rewrite Hsa. apply Z.ltb_lt in Hr. rewrite Hr.
  destruct (is_reset e); split; reflexivity.
Qed.

(** The two-copy worker calls [exit] only out of alloc_message. *)
Lemma a1_exit_only_from_alloc (targs : thread_args_t) (E : A1.env) s :
  run_end (A1.client_thread targs E) = ProcessExits s ->
  exists d, alloc_message (A1.heap E) (msg_size targs) = inr d.
Proof.
  unfold A1.client_thread.
  destruct (A1.connect_ok E); [|discriminate].
  destruct (A1.config_ret E =? sizeof_config); [|discriminate].
  destruct (alloc_message (A1.heap E) (msg_size targs)) as [msg | d].
  - destruct (malloc_send_buf (A1.heap E) (msg_size targs)); [|discriminate].
    destruct (A1.lr_exit _); discriminate.
  - intros _. now exists d.
Qed.

Lemma until_fatal_nonneg (rs : list reply) : 0 <= fst (until_fatal rs).
Proof.
  induction rs as [|[room | e] rs IH]; cbn [until_fatal].
  - cbn. lia.
  - destruct (until_fatal rs) as [c err]. cbn [fst] in *. lia.
  - destruct e; cbn [fst]; lia.
Qed.

Lemma send_all_loop_outcome (buf : list byte) (len : Z) :
  forall rs p remaining wire,
    0 <= p -> 0 <= remaining -> p + remaining = len ->
    wire = firstn (Z.to_nat p) buf ->
    send_all_loop rs buf p remaining len wire
    = if remaining <=? fst (until_fatal rs)
      then SaReturn len None (firstn (Z.to_nat len) buf)
      else match snd (until_fatal rs) with
           | Some e =>
               SaReturn (-1) (Some e)
                        (firstn (Z.to_nat (p + fst (until_fatal rs))) buf)
           | None =>
               SaBlocked (firstn (Z.to_nat (p + fst (until_fatal rs))) buf)
           end.
Proof.
  induction rs as [|r rs IH]; intros p remaining wire Hp Hr Hsum Hw.
  - cbn [send_all_loop until_fatal fst snd]. rewrite Z.add_0_r.
    destruct (remaining >? 0) eqn:Hpos.
    + apply Z.gtb_lt in Hpos.
      replace (remaining <=? 0) with false by (symmetry; apply Z.leb_gt; lia).
      now rewrite Hw.
    + rewrite Z.gtb_ltb, Z.ltb_ge in Hpos.
      replace (remaining <=? 0) with true by (symmetry; apply Z.leb_le; lia).
      rewrite Hw. do 3 f_equal. lia.
  - pose proof (until_fatal_nonneg (r :: rs)) as Hnn.
    cbn [send_all_loop]. destruct (remaining >? 0) eqn:Hpos.
    + apply Z.gtb_lt in Hpos.
      destruct r as [room | e]; cbn [send sys_ret sys_errno sys_bytes].
      * set (sent := Z.max 0 (Z.min room remaining)).
        assert (Hs : 0 <= sent <= remaining) by (unfold sent; lia).
        replace (sent <? 0) with false by (symmetry; apply Z.ltb_ge; lia).
        assert (Hw' : wire ++ firstn (Z.to_nat sent) (skipn (Z.to_nat p) buf)
                      = firstn (Z.to_nat (p + sent)) buf).
        { rewrite firstn_Z_plus by lia. now rewrite Hw. }
        rewrite (IH (p + sent) (remaining - sent) _
                    ltac:(lia) ltac:(lia) ltac:(lia) Hw').
        pose proof (until_fatal_nonneg rs) as Hc.
        cbn [until_fatal]. destruct (until_fatal rs) as [c err].
        cbn [fst snd] in *.
        destruct (Z.leb_spec (remaining - sent) c) as [Hle | Hgt].
        -- replace (remaining <=? Z.max 0 room + c) with true
             by (symmetry; apply Z.leb_le; unfold sent in *; lia).
           reflexivity.
        -- replace (remaining <=? Z.max 0 room + c) with false
             by (symmetry; apply Z.leb_gt; unfold sent in *; lia).
           replace (p + sent + c) with (p + (Z.max 0 room + c))
             by (unfold sent in *; lia).
           reflexivity.
      * replace (-1 <? 0) with true by reflexivity.
        destruct e; cbn [until_fatal fst snd];
          try (replace (remaining <=? 0) with false
                 by (symmetry; apply Z.leb_gt; lia);
               rewrite Z.add_0_r, Hw; reflexivity).
        exact (IH p remaining wire Hp Hr Hsum Hw).
    + rewrite Z.gtb_ltb, Z.ltb_ge in Hpos.
      replace (remaining <=? fst (until_fatal (r :: rs))) with true
        by (symmetry; apply Z.leb_le; lia).
      rewrite Hw. do 3 f_equal. lia.
Qed.

(** send_all is the function of the kernel's answers that its
    specification describes. *)
Lemma send_all_exact (rs : list reply) (buf : list byte) (len : Z) :
  send_all rs buf len = send_all_outcome rs buf len.
Proof.
  unfold send_all, send_all_outcome.
  pose proof (until_fatal_nonneg rs) as Hnn.
  destruct (Z.le_gt_cases 0 len) as [Hlen | Hlen].
  - rewrite (send_all_loop_outcome buf len rs 0 len []
               ltac:(lia) Hlen ltac:(lia) eq_refl).
    destruct (until_fatal rs) as [room err]. cbn [fst snd]. reflexivity.
  - destruct (until_fatal rs) as [room err]. cbn [fst] in Hnn.
    replace (len <=? room) with true by (symmetry; apply Z.leb_le; lia).
    destruct rs as [|r rs]; cbn [send_all_loop];
      replace (len >? 0) with false
        by (symmetry; rewrite Z.gtb_ltb; apply Z.ltb_ge; lia);
      now destruct len.
Qed.

(** An error other than EINTR that comes before there was room for the
    whole message ends the two-copy loop: the bytes there was room for are
    on the stream, the counters are untouched, and only an error that is
    not a reset is reported. *)
Lemma a1_send_loop_fatal (it : A1.iteration) sc msg size buf c evs room e :
  until_fatal (A1.replies it) = (room, Some e) ->
  room < size ->
  let res := A1.send_loop (it :: sc) msg size buf c evs in
  A1.lr_exit res = Broke (Some e)
  /\ A1.lr_counters res = c
  /\ A1.lr_events res
     = evs ++ EvPayload (firstn (Z.to_nat room) (A1.serialize msg buf))
           :: (if is_reset (Some e) then [] else [EvDiag PerrorSend]).
Proof.
  intros Huntil Hroom. cbv zeta. cbn [A1.send_loop].
  unfold A1.send_all_result_of. rewrite send_all_exact.
  unfold send_all_outcome. rewrite Huntil.
  replace (size <=? room) with false by (symmetry; apply Z.leb_gt; lia).
  replace (-1 <? 0) with true by reflexivity.
  destruct (is_reset (Some e));
    cbn [A1.lr_exit A1.lr_counters A1.lr_events]; repeat split.
Qed.

(** C6.  send_all accounts for partial completion.  For every run of kernel
    answers, buffer and length, the call is decided by the room the kernel
    offers before its first error other than EINTR: with room for [len]
    bytes it returns [len] after putting exactly the first [len] bytes of
    the buffer on the stream, in order, each [send] resuming where the
    last one stopped; with less room it returns -1 with that error after
    the bytes there was room for; and it fails to return only when the
    answers hold no such error and less room than [len] (the call is still
    waiting).  An EINTR answer changes nothing.  In the caller such an
    error, a reset of the connection or any other, ends the send loop at
    once with the counters as they were, and the worker then returns with
    its metrics: the only [exit] of the thread function is the one in
    alloc_message. *)
Theorem C6_send_all_partial_completion :
  (forall rs buf len, send_all rs buf len = send_all_outcome rs buf len)
  /\ (forall rs buf len, send_all_post buf len rs (send_all rs buf len))
  /\ (forall rs buf len,
         send_all (Refuse EINTR :: rs) buf len = send_all rs buf len)
  /\ (forall (it : A1.iteration) sc msg size buf c evs room e,
         until_fatal (A1.replies it) = (room, Some e) ->
         room < size ->
         let res := A1.send_loop (it :: sc) msg size buf c evs in
         A1.lr_exit res = Broke (Some e)
         /\ A1.lr_counters res = c
         /\ A1.lr_events res
            = evs ++ EvPayload (firstn (Z.to_nat room) (A1.serialize msg buf))
                  :: (if is_reset (Some e) then [] else [EvDiag PerrorSend]))
  /\ (forall (it : A1.iteration) sc msg size buf c evs,
         match A1.send_all_result_of it msg size buf with
         | SaReturn r e w =>
             if r <? 0
             then A1.lr_exit (A1.send_loop (it :: sc) msg size buf c evs) = Broke e
                  /\ A1.lr_counters (A1.send_loop (it :: sc) msg size buf c evs) = c
             else True
         | SaBlocked _ => True
         end)
  /\ (forall targs E,
         match run_end (A1.client_thread targs E) with
         | ProcessExits _ =>
             exists d, alloc_message (A1.heap E) (msg_size targs) = inr d
         | _ => True
         end).
Proof.
  split; [exact send_all_exact|].
  split; [exact send_all_correct|].
  split; [exact send_all_eintr|].
  split; [exact a1_send_loop_fatal|].
  split.
  - intros it sc msg size buf c evs.
    destruct (A1.send_all_result_of it msg size buf) as [r e w | w] eqn:Hsa;
      [|exact I].
    destruct (r <? 0) eqn:Hr; [|exact I].
    apply Z.ltb_lt in Hr.
    exact (a1_send_loop_break it sc msg size buf c evs r e w Hsa Hr).
  - intros targs E.
    destruct (run_end (A1.client_thread targs E)) eqn:Hend; try exact I.
    exact (a1_exit_only_from_alloc targs E status Hend).
Qed.

(** ** Machine integers *)

Lemma wrap64_small (x : Z) : LLONG_MIN <= x <= LLONG_MAX -> wrap64 x = x.
Proof.
  unfold wrap64, wrap, LLONG_MIN, LLONG_MAX.
  change (2 ^ (64 - 1)) with 9223372036854775808.
  change (2 ^ 64) with 18446744073709551616.
  change (2 ^ 63) with 9223372036854775808.
  intros H. rewrite Z.mod_small by lia. lia.
Qed.

Lemma wrap32_small (x : Z) : - 2 ^ 31 <= x <= INT_MAX -> wrap32 x = x.
Proof.
  unfold wrap32, wrap, INT_MAX.
  change (2 ^ (32 - 1)) with 2147483648.
  change (2 ^ 32) with 4294967296.
  change (2 ^ 31) with 2147483648.
  intros H. rewrite Z.mod_small by lia. lia.
Qed.

(** ** alloc_message *)

(** C's truncating division by 8: the field size is positive exactly from
    8 bytes on. *)
Lemma field_size_le_0 (size : Z) : Z.quot size NUM_FIELDS <= 0 <-> size < 8.
Proof.
  unfold NUM_FIELDS. split; intros H.
  - destruct (Z.lt_ge_cases size 8) as [|Hge]; [assumption|].
    pose proof (Z.quot_str_pos size 8 ltac:(lia)). lia.
  - destruct (Z.le_gt_cases 0 size) as [Hpos | Hneg].
    + rewrite Z.quot_small by lia. lia.
    + pose proof (Z.mul_quot_ge size 8 ltac:(lia) ltac:(lia)). lia.
Qed.

Lemma field_size_bounds (size : Z) :
  8 <= size -> 0 < Z.quot size NUM_FIELDS /\ 8 * Z.quot size NUM_FIELDS <= size.
Proof.
  unfold NUM_FIELDS. intros H. split.
  - apply Z.quot_str_pos. lia.
  - pose proof (Z.mul_quot_le size 8 ltac:(lia) ltac:(lia)). lia.
Qed.

Lemma alloc_fields_some h fsz i todo fs :
  alloc_fields h fsz i todo = Some fs ->
  fs = map (fun j => memset (char_A + j) fsz)
           (map (fun n => i + Z.of_nat n) (seq 0 todo)).
Proof.
  revert i fs; induction todo as [|todo IH]; intros i fs; cbn [alloc_fields].
  - now intros [= <-].
  - destruct (malloc_field_ok h i); [|discriminate].
    destruct (alloc_fields h fsz (i + 1) todo) as [fs'|] eqn:Hrec; [|discriminate].
    intros [= <-]. rewrite (IH _ _ Hrec). cbn [seq map].
    rewrite Z.add_0_r. f_equal. rewrite <- seq_shift, !map_map.
    apply map_ext. intros n. f_equal. lia.
Qed.

Lemma alloc_message_inl h size msg :
  alloc_message h size = inl msg ->
  8 <= size
  /\ field_size msg = Z.quot size NUM_FIELDS
  /\ fields msg = pattern_fields (field_size msg).
Proof.
  unfold alloc_message.
  destruct (malloc_message_ok h); [|discriminate].
  cbv zeta. destruct (Z.quot size NUM_FIELDS <=? 0) eqn:Hle; [discriminate|].
  destruct (alloc_fields h _ 0 _) as [fs|] eqn:Hfs; [|discriminate].
  intros [= <-]. cbn [field_size fields]. apply Z.leb_gt in Hle.
  repeat split.
  - destruct (Z.lt_ge_cases size 8) as [Hlt|]; [|assumption].
    apply field_size_le_0 in Hlt. lia.
  - exact (alloc_fields_some _ _ _ _ _ Hfs).
Qed.

(** Below 8 bytes alloc_message never hands out a message. *)
Lemma alloc_message_small h size :
  size < 8 ->
  alloc_message h size
  = inr (if malloc_message_ok h then ErrMsgSize else PerrorMallocMessage).
Proof.
  intros H. unfold alloc_message.
  destruct (malloc_message_ok h); [|reflexivity].
  cbv zeta. apply field_size_le_0 in H. apply Z.leb_le in H. now rewrite H.
Qed.

Lemma iov_total_pattern (fsz : Z) :
  iov_total (build_iov (mkMessage (pattern_fields fsz) fsz)) = 8 * fsz.
Proof.
  unfold build_iov, pattern_fields, iov_total.
  cbn [fields field_size map fold_right iov_len]. lia.
Qed.

Lemma build_iov_total h size msg :
  alloc_message h size = inl msg ->
  iov_total (build_iov msg) = 8 * Z.quot size NUM_FIELDS.
Proof.
  intros H. destruct (alloc_message_inl _ _ _ H) as (_ & Hf & Hfs).
  destruct msg as [fs fsz]. cbn [fields field_size] in *. subst.
  apply iov_total_pattern.
Qed.

(** ** The two-copy send loop *)

(** One pass of the loop: send_all came back with the full length and the
    loop goes on with [size] more bytes and one more message, or the loop
    stops there with the counters as they were. *)
Lemma a1_iteration_cases (it : A1.iteration) sc msg size buf c evs :
  0 <= size ->
  let res := A1.send_loop (it :: sc) msg size buf c evs in
  (exists w,
      A1.send_all_result_of it msg size buf = SaReturn size None w
      /\ res = A1.send_loop sc msg size (A1.serialize msg buf)
                 (account c size (A1.msg_start it) (A1.msg_end it))
                 (evs ++ [EvPayload w]))
  \/ (A1.lr_counters res = c /\ A1.lr_exit res <> TimeUp
      /\ A1.send_all_result_of it msg size buf <> SaReturn size None
           (firstn (Z.to_nat size) (A1.serialize msg buf))).
Proof.
  intros Hsize. cbn [A1.send_loop].
  pose proof (send_all_correct (A1.replies it) (A1.serialize msg buf) size) as Hpost.
  fold (A1.send_all_result_of it msg size buf) in Hpost.
  destruct (A1.send_all_result_of it msg size buf) as [r e w | w] eqn:Hsa;
    cbn [send_all_post] in Hpost.
  - destruct Hpost as [(-> & -> & ->) | (-> & _ & _ & _)].
    + left. replace (size <? 0) with false by (symmetry; apply Z.ltb_ge; lia).
      eexists. split; reflexivity.
    + right. replace (-1 <? 0) with true by reflexivity.
      destruct (is_reset e); cbn [A1.lr_counters A1.lr_exit];
        (split; [reflexivity|]; split; [discriminate|]);
        intros [= H]; lia.
  - right. cbn [A1.lr_counters A1.lr_exit].
    split; [reflexivity|]; split; discriminate.
Qed.

Lemma a1_loop_counts sc : forall msg size buf c evs k0,
  0 < size ->
  0 <= k0 ->
  (k0 + Z.of_nat (length sc)) * size <= LLONG_MAX ->
  total_bytes c = k0 * size ->
  msg_count c = k0 ->
  let res := A1.send_loop sc msg size buf c evs in
  exists k, k0 <= k <= k0 + Z.of_nat (length sc)
            /\ total_bytes (A1.lr_counters res) = k * size
            /\ msg_count (A1.lr_counters res) = k.
Proof.
  induction sc as [|it sc IH]; intros msg size buf c evs k0 Hs Hk0 Hmax Hb Hm.
  - cbn. exists k0. cbn [length] in *. repeat split; try assumption; lia.
  - cbv zeta.
    destruct (a1_iteration_cases it sc msg size buf c evs ltac:(lia))
      as [(w & _ & ->) | (-> & _ & _)].
    + cbn [length] in Hmax. rewrite Nat2Z.inj_succ in Hmax.
      assert (Hk1 : (k0 + 1) * size <= LLONG_MAX) by nia.
      assert (Hcnt : k0 + 1 <= LLONG_MAX) by nia.
      destruct (IH msg size (A1.serialize msg buf)
                   (account c size (A1.msg_start it) (A1.msg_end it))
                   (evs ++ [EvPayload w]) (k0 + 1)) as (k & Hk & Hres).
      * assumption.
      * lia.
      * lia.
      * cbn [account total_bytes]. rewrite Hb.
        rewrite wrap64_small; [lia | unfold LLONG_MIN; nia].
      * cbn [account msg_count]. rewrite Hm.
        rewrite wrap64_small; [lia | unfold LLONG_MIN; lia].
      * exists k. split; [cbn [length]; lia | exact Hres].
    + exists k0. cbn [length]. repeat split; try assumption; lia.
Qed.

(** What a two-copy worker reports is a whole number of messages. *)
Lemma a1_worker_bytes (i size dur : Z) (E : A1.env) (a : thread_args_t) :
  Z.of_nat (length (A1.script E)) * size <= LLONG_MAX ->
  run_end (A1.client_thread (init_args i size dur) E) = ThreadReturns a ->
  exists k, 0 <= k /\ bytes_transferred a = k * size.
Proof.
  intros Hmax. unfold A1.client_thread. cbn [msg_size duration init_args].
  destruct (A1.connect_ok E);
    [|intros [= <-]; exists 0; split; [lia | reflexivity]].
  destruct (A1.config_ret E =? sizeof_config);
    [|intros [= <-]; exists 0; split; [lia | reflexivity]].
  destruct (alloc_message (A1.heap E) size) as [msg | d] eqn:Hmsg; [|discriminate].
  destruct (alloc_message_inl _ _ _ Hmsg) as (Hsize & _).
  destruct (malloc_send_buf (A1.heap E) size) as [buf|];
    [|intros [= <-]; exists 0; split; [lia | reflexivity]].
  match goal with
  | |- context [A1.send_loop ?sc ?m ?s ?b ?c ?e] =>
      destruct (a1_loop_counts sc m s b c e 0 ltac:(lia) ltac:(lia)
                  ltac:(lia) eq_refl eq_refl) as (k & Hk & Hb & _);
      destruct (A1.lr_exit (A1.send_loop sc m s b c e))
  end; try discriminate;
    intros [= <-]; exists k; cbn [record_metrics bytes_transferred];
    (split; [lia | exact Hb]).
Qed.

(** C9.  In the two-copy loop the byte counter is a whole number of
    messages.  Started from zero, after any script of iterations (short of
    overflowing the [long long]) the loop leaves [total_bytes = k * msg_size]
    and [msg_count = k] for some [0 <= k]; and every pass either has
    send_all return the full length, adds exactly [msg_size] and goes on, or
    leaves the counters untouched and leaves the loop, whatever part of
    the buffer the kernel took before the error. *)
Theorem C9_two_copy_whole_messages
    (sc : list A1.iteration) (msg : message_t) (size : Z)
    (buf : list byte) (evs : list event) :
  0 < size ->
  Z.of_nat (length sc) * size <= LLONG_MAX ->
  (exists k, 0 <= k <= Z.of_nat (length sc)
     /\ total_bytes (A1.lr_counters (A1.send_loop sc msg size buf counters0 evs))
        = k * size
     /\ msg_count (A1.lr_counters (A1.send_loop sc msg size buf counters0 evs))
        = k)
  /\ (forall it rest c evs',
         let res := A1.send_loop (it :: rest) msg size buf c evs' in
         (exists w,
             A1.send_all_result_of it msg size buf = SaReturn size None w
             /\ res = A1.send_loop rest msg size (A1.serialize msg buf)
                        (mkCounters (wrap64 (total_bytes c + size))
                                    (wrap64 (msg_count c + 1))
                                    (total_latency c
                                     + (A1.msg_end it - A1.msg_start it))%float)
                        (evs' ++ [EvPayload w]))
         \/ (A1.lr_counters res = c /\ A1.lr_exit res <> TimeUp
             /\ A1.send_all_result_of it msg size buf
                <> SaReturn size None
                     (firstn (Z.to_nat size) (A1.serialize msg buf)))).
Proof.
  intros Hsize Hmax. split.
  - exact (a1_loop_counts sc msg size buf counters0 evs 0 Hsize ltac:(lia)
             ltac:(lia) eq_refl eq_refl).
  - intros it rest c evs'.
    exact (a1_iteration_cases it rest msg size buf c evs' ltac:(lia)).
Qed.

(** C9 on a run where one message goes out in two pieces around an EINTR
    and the next breaks on EPIPE after 5 bytes: 16 bytes counted, the 5
    are not. *)
Lemma C9_witness :
  let res := A1.send_loop script_whole_then_reset msg16 16 (repeat 0 16)
               counters0 [] in
  total_bytes (A1.lr_counters res) = 16
  /\ A1.lr_exit res = Broke (Some EPIPE)
  /\ exists k, 0 <= k <= 3 /\ total_bytes (A1.lr_counters res) = k * 16
               /\ msg_count (A1.lr_counters res) = k.
Proof.
  split; [reflexivity|]. split; [reflexivity|].
  exact (proj1 (C9_two_copy_whole_messages script_whole_then_reset msg16 16
                  (repeat 0 16) [] ltac:(lia) ltac:(vm_compute; discriminate))).
Defined.

(** C6 on a send that goes through in three pieces around an EINTR, one
    that dies on EPIPE after three bytes, and one the kernel never
    finishes. *)
Lemma C6_witness :
  send_all [Accept 3; Refuse EINTR; Accept 1; Accept 100] eight_bytes 8
  = SaReturn 8 None eight_bytes
  /\ send_all [Accept 3; Refuse EPIPE; Accept 100] eight_bytes 8
     = SaReturn (-1) (Some EPIPE) [1; 2; 3]
  /\ send_all [Accept 3; Refuse EINTR; Accept 0] eight_bytes 8
     = SaBlocked [1; 2; 3]
  /\ send_all [Refuse EPIPE] eight_bytes 8
     = send_all_outcome [Refuse EPIPE] eight_bytes 8
  /\ send_all_post eight_bytes 8 [Accept 3; Refuse EPIPE; Accept 100]
       (SaReturn (-1) (Some EPIPE) [1; 2; 3])
  /\ (let res := A1.send_loop [A1.mkIter 1 2 [Accept 3; Refuse EPIPE]] msg16 16
                   (repeat 0 16) (mkCounters 32 2 5) [] in
      A1.lr_exit res = Broke (Some EPIPE)
      /\ A1.lr_counters res = mkCounters 32 2 5
      /\ A1.lr_events res = [EvPayload [65; 65; 66]]).
Proof.
  split; [reflexivity|]. split; [reflexivity|]. split; [reflexivity|].
  destruct C6_send_all_partial_completion
    as (Hexact & Hpost & _ & Hfatal & _ & _).
  split; [exact (Hexact [Refuse EPIPE] eight_bytes 8)|].
  split.
  - exact (Hpost [Accept 3; Refuse EPIPE; Accept 100] eight_bytes 8).
  - exact (Hfatal (A1.mkIter 1 2 [Accept 3; Refuse EPIPE]) [] msg16 16
                  (repeat 0 16) (mkCounters 32 2 5) [] 3 EPIPE
                  eq_refl ltac:(lia)).
Defined.


(** ** The one-copy send loop *)

Lemma a2_loop_residue sc : forall iov c evs m k0,
  0 < m ->
  0 <= iov_total iov ->
  Forall (accepts_whole_fields m (iov_total iov)) sc ->
  0 <= k0 ->
  (k0 + Z.of_nat (length sc)) * iov_total iov <= LLONG_MAX ->
  0 <= total_bytes c <= k0 * iov_total iov ->
  total_bytes c mod m = 0 ->
  let res := A2.send_loop sc iov c evs in
  0 <= total_bytes (A2.lr_counters res)
       <= (k0 + Z.of_nat (length sc)) * iov_total iov
  /\ total_bytes (A2.lr_counters res) mod m = 0.
Proof.
  induction sc as [|it sc IH]; intros iov c evs m k0 Hm HT Hall Hk0 Hmax Hc Hmod.
  - cbn. cbn [length] in *. split; [nia | assumption].
  - cbv zeta. cbn [A2.send_loop].
    inversion Hall as [|? ? Hit Hrest]; subst.
    cbn [length] in Hmax |- *. rewrite Nat2Z.inj_succ in Hmax |- *.
    unfold accepts_whole_fields in Hit.
    destruct (sg_reply it) as [room | e]; cbn [sendmsg sys_ret sys_errno sys_bytes].
    + set (sent := Z.max 0 (Z.min room (iov_total iov))) in *.
      replace (sent <? 0) with false by (symmetry; apply Z.ltb_ge; lia).
      assert (Hs : 0 <= sent <= iov_total iov) by (unfold sent; lia).
      assert (Hacc : total_bytes (account c sent (sg_start it) (sg_end it))
                     = total_bytes c + sent).
      { cbn [account total_bytes].
        apply wrap64_small. unfold LLONG_MIN. nia. }
      destruct (IH iov (account c sent (sg_start it) (sg_end it))
                   (evs ++ [EvPayload (firstn (Z.to_nat sent) (gather iov))])
                   m (k0 + 1) Hm HT Hrest ltac:(lia) ltac:(lia))
        as (Hb & Hr).
      * rewrite Hacc. nia.
      * rewrite Hacc. apply Z.mod_divide; [lia|].
        apply Z.divide_add_r; apply Z.mod_divide; try lia; assumption.
      * split; [lia | exact Hr].
    + replace (-1 <? 0) with true by reflexivity.
      assert (Hbreak : 0 <= total_bytes c
                       <= (k0 + Z.succ (Z.of_nat (length sc))) * iov_total iov)
        by nia.
      destruct e; cbn [is_reset A2.lr_counters];
        try (split; assumption).
      destruct (IH iov c evs m (k0 + 1) Hm HT Hrest ltac:(lia) ltac:(lia)
                   ltac:(nia) Hmod) as (Hb & Hr).
      split; [lia | exact Hr].
Qed.

(** The one-copy thread function always returns, or exits in
    alloc_message. *)
Lemma a2_worker_bytes (i size dur : Z) (E : A2.env) (a : thread_args_t) :
  Z.of_nat (length (A2.script E)) * size <= LLONG_MAX ->
  Forall (accepts_whole_fields (Z.quot size NUM_FIELDS)
            (8 * Z.quot size NUM_FIELDS)) (A2.script E) ->
  run_end (A2.client_thread (init_args i size dur) E) = ThreadReturns a ->
  bytes_transferred a mod Z.quot size NUM_FIELDS = 0.
Proof.
  intros Hmax Hall. unfold A2.client_thread. cbn [msg_size duration init_args].
  destruct (A2.connect_ok E); [|intros [= <-]; apply Zmod_0_l].
  destruct (A2.config_ret E =? sizeof_config); [|intros [= <-]; apply Zmod_0_l].
  destruct (alloc_message (A2.heap E) size) as [msg | d] eqn:Hmsg; [|discriminate].
  destruct (alloc_message_inl _ _ _ Hmsg) as (Hsize & _).
  pose proof (build_iov_total _ _ _ Hmsg) as HT.
  destruct (field_size_bounds size Hsize) as (Hpos & Hle).
  intros [= <-]. cbn [record_metrics bytes_transferred].
  assert (Hmax' : (0 + Z.of_nat (length (A2.script E)))
                  * iov_total (build_iov msg) <= LLONG_MAX).
  { rewrite HT. pose proof (Nat2Z.is_nonneg (length (A2.script E))). nia. }
  rewrite <- HT in Hall.
  match goal with
  | |- context [A2.send_loop ?sc ?iov ?c ?e] =>
      destruct (a2_loop_residue sc iov c e (Z.quot size NUM_FIELDS) 0
                  Hpos ltac:(lia) Hall ltac:(lia) Hmax'
                  ltac:(cbn; lia) (Zmod_0_l _)) as (_ & Hr)
  end.
  exact Hr.
Qed.

(** ** Scenario: payload_size = 80000, duration = 2 *)

(** C5 (as amended).  With [payload_size = 80000] (fields of 10000 bytes), a
    two-copy worker that returns reports a multiple of the field size, for
    every environment; a one-copy worker reports the sum of what its
    [sendmsg] calls returned, which is a multiple of the field size when
    each of them took a whole number of fields (the whole 80000 bytes, for
    one).  Scripts are short of overflowing the [long long] counter. *)
Theorem C5_scenario_whole_fields (i : Z) :
  (forall (E : A1.env) a,
      Z.of_nat (length (A1.script E)) * 80000 <= LLONG_MAX ->
      run_end (A1.client_thread (init_args i 80000 2) E) = ThreadReturns a ->
      bytes_transferred a mod Z.quot 80000 NUM_FIELDS = 0)
  /\ (forall (E : A2.env) a,
         Z.of_nat (length (A2.script E)) * 80000 <= LLONG_MAX ->
         Forall (accepts_whole_fields 10000 80000) (A2.script E) ->
         run_end (A2.client_thread (init_args i 80000 2) E) = ThreadReturns a ->
         bytes_transferred a mod Z.quot 80000 NUM_FIELDS = 0).
Proof.
  split.
  - intros E a Hmax Hend.
    destruct (a1_worker_bytes i 80000 2 E a Hmax Hend) as (k & _ & ->).
    change (Z.quot 80000 NUM_FIELDS) with 10000.
    replace (k * 80000) with (k * 8 * 10000) by lia. apply Z_mod_mult.
  - intros E a Hmax Hall Hend.
    exact (a2_worker_bytes i 80000 2 E a Hmax Hall Hend).
Qed.

(** C5 on a two-copy worker that sends two messages and a one-copy worker
    whose calls return 80000 and 20000 bytes. *)
Lemma C5_witness :
  (exists a,
      run_end (A1.client_thread (init_args 0 80000 2) scenario_two_copy)
      = ThreadReturns a
      /\ bytes_transferred a = 160000
      /\ bytes_transferred a mod Z.quot 80000 NUM_FIELDS = 0)
  /\ (exists a,
         run_end (A2.client_thread (init_args 0 80000 2) scenario_one_copy)
         = ThreadReturns a
         /\ bytes_transferred a = 100000
         /\ bytes_transferred a mod Z.quot 80000 NUM_FIELDS = 0).
Proof.
  split.
  - eexists. split; [vm_compute; reflexivity|]. split; [reflexivity|].
    apply (proj1 (C5_scenario_whole_fields 0) scenario_two_copy).
    + vm_compute; discriminate.
    + vm_compute; reflexivity.
  - eexists. split; [vm_compute; reflexivity|]. split; [reflexivity|].
    apply (proj2 (C5_scenario_whole_fields 0) scenario_one_copy).
    + vm_compute; discriminate.
    + repeat constructor.
    + vm_compute; reflexivity.
Defined.

(** C5 as stated fails for the one-copy worker: the cut send is counted as
    it is, and 12345 is not a whole number of 10000-byte fields. *)
Lemma C5_counterexample :
  (exists a,
      run_end (A2.client_thread (init_args 0 80000 2) scenario_short_send)
      = ThreadReturns a
      /\ bytes_transferred a = 12345)
  /\ ~ reports_whole_fields
        (A2.client_thread (init_args 0 80000 2) scenario_short_send) 80000.
Proof.
  split.
  - eexists. split; [vm_compute; reflexivity | reflexivity].
  - vm_compute. discriminate.
Qed.

(** ** Payloads below 8 bytes *)

Ltac no_such_event :=
  cbn [In app]; intuition discriminate.

Ltac small_size_cases connect cfg :=
  destruct connect; cbn [andb];
  [ destruct (cfg =? sizeof_config) eqn:Hcfg;
    [ apply Z.eqb_eq in Hcfg; rewrite ?Hcfg | ] | ].

Lemma a1_small_size targs (E : A1.env) :
  msg_size targs < 8 ->
  rejects_after_handshake (gets_through (A1.connect_ok E) (A1.config_ret E))
    (A1.heap E) targs (A1.client_thread targs E).
Proof.
  intros Hsmall. unfold rejects_after_handshake, gets_through, A1.client_thread.
  rewrite (alloc_message_small _ _ Hsmall). fold (small_size_diag (A1.heap E)).
  small_size_cases (A1.connect_ok E) (A1.config_ret E);
    cbn [run_events run_end app].
  - split; [eauto|]. split; [intros b; no_such_event|].
    split; [reflexivity|]. exists [EvConnect true]. split; [reflexivity|].
    now left.
  - split; [eauto|]. split; [intros b; no_such_event|].
    split; [reflexivity|]. intros s; no_such_event.
  - split; [eauto|]. split; [intros b; no_such_event|].
    split; [reflexivity|]. intros s; no_such_event.
Qed.

Lemma a2_small_size targs (E : A2.env) :
  msg_size targs < 8 ->
  rejects_after_handshake (gets_through (A2.connect_ok E) (A2.config_ret E))
    (A2.heap E) targs (A2.client_thread targs E).
Proof.
  intros Hsmall. unfold rejects_after_handshake, gets_through, A2.client_thread.
  rewrite (alloc_message_small _ _ Hsmall). fold (small_size_diag (A2.heap E)).
  small_size_cases (A2.connect_ok E) (A2.config_ret E);
    cbn [run_events run_end app].
  - split; [eauto|]. split; [intros b; no_such_event|].
    split; [reflexivity|]. exists [EvConnect true]. split; [reflexivity|].
    now left.
  - split; [eauto|]. split; [intros b; no_such_event|].
    split; [reflexivity|]. intros s; no_such_event.
  - split; [eauto|]. split; [intros b; no_such_event|].
    split; [reflexivity|]. intros s; no_such_event.
Qed.

Lemma a3_small_size targs (E : A3.env) :
  msg_size targs < 8 ->
  rejects_after_handshake (gets_through (A3.connect_ok E) (A3.config_ret E))
    (A3.heap E) targs (A3.client_thread targs E).
Proof.
  intros Hsmall. unfold rejects_after_handshake, gets_through, A3.client_thread.
  rewrite (alloc_message_small _ _ Hsmall). fold (small_size_diag (A3.heap E)).
  small_size_cases (A3.connect_ok E) (A3.config_ret E);
    destruct (A3.setsockopt_ok E); cbn [run_events run_end app].
  - split; [eauto|]. split; [intros b; no_such_event|].
    split; [reflexivity|]. exists [EvConnect true; EvSetsockopt true].
    split; [reflexivity|]. now left.
  - split; [eauto|]. split; [intros b; no_such_event|].
    split; [reflexivity|].
    exists [EvConnect true; EvSetsockopt false; EvDiag ErrZerocopyFallback].
    split; [reflexivity|]. now left.
  - split; [eauto|]. split; [intros b; no_such_event|].
    split; [reflexivity|]. intros s; no_such_event.
  - split; [eauto|]. split; [intros b; no_such_event|].
    split; [reflexivity|]. intros s; no_such_event.
  - split; [eauto|]. split; [intros b; no_such_event|].
    split; [reflexivity|]. intros s; no_such_event.
  - split; [eauto|]. split; [intros b; no_such_event|].
    split; [reflexivity|]. intros s; no_such_event.
Qed.

Lemma spawned_length {env : Type} (sp : list (spawn env)) : forall envs,
  spawned sp = Some envs -> length sp = length envs.
Proof.
  induction sp as [|[E|] sp IH]; intros envs H; cbn [spawned] in H.
  - now inversion H.
  - destruct (spawned sp) as [envs'|]; [|discriminate].
    inversion H; subst. cbn [length]. now rewrite (IH envs' eq_refl).
  - discriminate.
Qed.

Lemma spawned_all {env : Type} (envs : list env) :
  spawned (map Spawned envs) = Some envs.
Proof.
  induction envs as [|E envs IH]; [reflexivity|].
  cbn [map spawned]. now rewrite IH.
Qed.

Section MainSmall.

Variable env : Type.
Variable client_thread : thread_args_t -> env -> worker_run.
Variable impl : impl_name.
Variable through : env -> bool.
Variables size dur : Z.

Hypothesis worker_end : forall i E,
  run_end (client_thread (init_args i size dur) E)
  = if through E then ProcessExits EXIT_FAILURE
    else ThreadReturns (init_args i size dur).

Lemma run_workers_small (envs : list env) : forall i,
  let rs := run_workers env client_thread i size dur envs in
  existsb exited rs = existsb through envs
  /\ (existsb through envs = false ->
      existsb blocked rs = false
      /\ joined rs = fresh_args i size dur (length envs)).
Proof.
  induction envs as [|E envs IH]; intros i; cbn [run_workers existsb].
  - split; [reflexivity|]. intros _. split; reflexivity.
  - destruct (IH (i + 1)) as (Hex & Hrest). cbv zeta in Hex, Hrest.
    unfold exited at 1, blocked at 1. cbn [joined length fresh_args].
    rewrite worker_end, Hex.
    destruct (through E); cbn [orb]; split; try reflexivity; try discriminate.
    intros Hnone. destruct (Hrest Hnone) as (Hb & Hj).
    rewrite Hb, Hj. split; reflexivity.
Qed.

Lemma main_small (malloc_ok : bool) (sp : list (spawn env)) :
  main env client_thread impl size dur malloc_ok sp
  = if malloc_ok then
      match spawned sp with
      | None => MainReturns EXIT_FAILURE None
      | Some envs =>
          if existsb through envs then MainExits EXIT_FAILURE
          else MainReturns 0
                 (Some (summarize impl size (Z.of_nat (length envs))
                          (fresh_args 0 size dur (length envs))))
      end
    else MainReturns EXIT_FAILURE None.
Proof.
  unfold main. destruct malloc_ok; [|reflexivity].
  destruct (spawned sp) as [envs|] eqn:Hsp; [|reflexivity].
  rewrite (spawned_length sp envs Hsp).
  destruct (run_workers_small envs 0) as (Hex & Hrest).
  cbv zeta in Hex, Hrest. rewrite Hex.
  destruct (existsb through envs); [reflexivity|].
  destruct (Hrest eq_refl) as (-> & ->). reflexivity.
Qed.

End MainSmall.

Lemma small_size_end through h targs r :
  rejects_after_handshake through h targs r ->
  run_end r = if through then ProcessExits EXIT_FAILURE else ThreadReturns targs.
Proof.
  unfold rejects_after_handshake. intros (_ & _ & H).
  destruct through; tauto.
Qed.

(** C3 (as amended).  A payload size below 8 is one whose field size
    [payload_size / 8] is not positive.  For such a size the three clients
    behave alike, but the check sits in alloc_message, which a worker
    reaches only after connecting and sending the configuration.  Each worker first
    tries to connect and never sends payload; if connection and handshake
    succeed it prints the diagnostic and calls [exit(EXIT_FAILURE)],
    otherwise it returns with its arguments untouched.  So, once main has
    its two arrays and has created every thread, the process exits with
    EXIT_FAILURE exactly when some worker got through, and otherwise
    prints its report and returns 0; when [malloc] or a [pthread_create]
    fails, main returns EXIT_FAILURE without a report. *)
Theorem C3_small_payload_rejected_after_handshake (size dur : Z) :
  size < 8 ->
  Z.quot size NUM_FIELDS <= 0
  /\ (forall i (E : A1.env),
      rejects_after_handshake (gets_through (A1.connect_ok E) (A1.config_ret E))
        (A1.heap E) (init_args i size dur)
        (A1.client_thread (init_args i size dur) E))
  /\ (forall i (E : A2.env),
         rejects_after_handshake (gets_through (A2.connect_ok E) (A2.config_ret E))
           (A2.heap E) (init_args i size dur)
           (A2.client_thread (init_args i size dur) E))
  /\ (forall i (E : A3.env),
         rejects_after_handshake (gets_through (A3.connect_ok E) (A3.config_ret E))
           (A3.heap E) (init_args i size dur)
           (A3.client_thread (init_args i size dur) E))
  /\ (forall malloc_ok sp,
         main_two_copy size dur malloc_ok sp
         = if malloc_ok then
             match spawned sp with
             | None => MainReturns EXIT_FAILURE None
             | Some envs =>
                 if existsb (fun E => gets_through (A1.connect_ok E)
                                                   (A1.config_ret E)) envs
                 then MainExits EXIT_FAILURE
                 else MainReturns 0
                        (Some (summarize two_copy size (Z.of_nat (length envs))
                                 (fresh_args 0 size dur (length envs))))
             end
           else MainReturns EXIT_FAILURE None)
  /\ (forall malloc_ok sp,
         main_one_copy size dur malloc_ok sp
         = if malloc_ok then
             match spawned sp with
             | None => MainReturns EXIT_FAILURE None
             | Some envs =>
                 if existsb (fun E => gets_through (A2.connect_ok E)
                                                   (A2.config_ret E)) envs
                 then MainExits EXIT_FAILURE
                 else MainReturns 0
                        (Some (summarize one_copy size (Z.of_nat (length envs))
                                 (fresh_args 0 size dur (length envs))))
             end
           else MainReturns EXIT_FAILURE None)
  /\ (forall malloc_ok sp,
         main_zero_copy size dur malloc_ok sp
         = if malloc_ok then
             match spawned sp with
             | None => MainReturns EXIT_FAILURE None
             | Some envs =>
                 if existsb (fun E => gets_through (A3.connect_ok E)
                                                   (A3.config_ret E)) envs
                 then MainExits EXIT_FAILURE
                 else MainReturns 0
                        (Some (summarize zero_copy size (Z.of_nat (length envs))
                                 (fresh_args 0 size dur (length envs))))
             end
           else MainReturns EXIT_FAILURE None).
Proof.
  intros Hsmall.
  assert (H1 : forall i (E : A1.env), _) by
    (intros i E; exact (a1_small_size (init_args i size dur) E Hsmall)).
  assert (H2 : forall i (E : A2.env), _) by
    (intros i E; exact (a2_small_size (init_args i size dur) E Hsmall)).
  assert (H3 : forall i (E : A3.env), _) by
    (intros i E; exact (a3_small_size (init_args i size dur) E Hsmall)).
  split; [now apply field_size_le_0|].
  split; [exact H1|]. split; [exact H2|]. split; [exact H3|].
  split; [|split]; intros malloc_ok sp.
  - apply main_small. intros i E. exact (small_size_end _ _ _ _ (H1 i E)).
  - apply main_small. intros i E. exact (small_size_end _ _ _ _ (H2 i E)).
  - apply main_small. intros i E. exact (small_size_end _ _ _ _ (H3 i E)).
Qed.

(** C3 on a 7-byte payload: the worker that connects exits after the
    handshake, and with it the process; when the second thread cannot be
    created main returns EXIT_FAILURE. *)
Lemma C3_witness :
  7 < 8
  /\ run_events (A1.client_thread (init_args 0 7 2) env7_two_copy)
     = [EvConnect true; EvConfig 7 2 8; EvDiag ErrMsgSize; EvExit 1]
  /\ rejects_after_handshake true heap_ok (init_args 0 7 2)
       (A1.client_thread (init_args 0 7 2) env7_two_copy)
  /\ main_two_copy 7 2 true [Spawned env7_refused; Spawned env7_two_copy]
     = MainExits 1
  /\ main_two_copy 7 2 true [Spawned env7_refused; SpawnFails]
     = MainReturns 1 None.
Proof.
  split; [lia|]. split; [reflexivity|].
  destruct (C3_small_payload_rejected_after_handshake 7 2 ltac:(lia))
    as (_ & H1 & _ & _ & Hmain & _).
  split; [|split].
  - exact (H1 0 env7_two_copy).
  - exact (Hmain true [Spawned env7_refused; Spawned env7_two_copy]).
  - exact (Hmain true [Spawned env7_refused; SpawnFails]).
Defined.

(** C3 as stated fails: with the server answering, each client has
    connected by the time it exits; with the server down, nothing exits. *)
Lemma C3_counterexample :
  ~ aborts_before_connecting (A1.client_thread (init_args 0 7 2) env7_two_copy)
  /\ ~ aborts_before_connecting (A2.client_thread (init_args 0 7 2) env7_one_copy)
  /\ ~ aborts_before_connecting (A3.client_thread (init_args 0 7 2) env7_zero_copy)
  /\ ~ aborts_before_connecting (A1.client_thread (init_args 0 7 2) env7_refused).
Proof.
  unfold aborts_before_connecting.
  split; [|split; [|split]]; intros (_ & H).
  - apply (H true). cbn. now left.
  - apply (H true). cbn. now left.
  - apply (H true). cbn. now left.
  - apply (H false). cbn. now left.
Qed.

(** ** The zero-copy loop and its drains *)

Lemma drain_completions_all (q : list A3.errmsg) : forall records confirmed,
  A3.drain_completions q records confirmed
  = ([], (records + length q)%nat, (confirmed + confirmations q)%nat).
Proof.
  induction q as [|m q IH]; intros records confirmed;
    cbn [A3.drain_completions confirmations length].
  - now rewrite !Nat.add_0_r.
  - rewrite IH. f_equal; [f_equal|]; lia.
Qed.

(** A drain reads every record there is and touches nothing but the queue. *)
Lemma drain_state (st : A3.state) :
  A3.drain st
  = A3.mkState (A3.st_counters st) (A3.drain_counter st) []
               (A3.st_events st
                  ++ [EvDrain (length (A3.errqueue st))
                              (confirmations (A3.errqueue st))]).
Proof.
  unfold A3.drain.
  rewrite (drain_completions_all (A3.errqueue st) O O).
  reflexivity.
Qed.

Lemma a3_enobufs_step (it : A3.iteration) sc iov st :
  exhausted it ->
  A3.send_loop (it :: sc) iov st
  = A3.send_loop sc iov (A3.drain (A3.enqueue st (A3.it_arrivals it))).
Proof.
  unfold exhausted. intros H. cbn [A3.send_loop]. rewrite H.
  reflexivity.
Qed.

Lemma a3_enobufs_run (fails : list A3.iteration) : forall sc iov st,
  Forall exhausted fails ->
  A3.send_loop (fails ++ sc) iov st
  = A3.send_loop sc iov (after_exhaustion st fails).
Proof.
  induction fails as [|it fails IH]; intros sc iov st Hall.
  - reflexivity.
  - inversion Hall as [|? ? Hit Hrest]; subst.
    cbn [app]. rewrite (a3_enobufs_step it _ iov st Hit).
    now rewrite IH.
Qed.

Lemma after_exhaustion_state (fails : list A3.iteration) : forall st,
  A3.st_counters (after_exhaustion st fails) = A3.st_counters st
  /\ A3.drain_counter (after_exhaustion st fails) = A3.drain_counter st
  /\ (fails <> [] -> A3.errqueue (after_exhaustion st fails) = []).
Proof.
  induction fails as [|it fails IH]; intros st.
  - repeat split; congruence.
  - cbn [after_exhaustion fold_left].
    destruct (IH (A3.drain (A3.enqueue st (A3.it_arrivals it)))) as (Hc & Hd & Hq).
    fold (after_exhaustion (A3.drain (A3.enqueue st (A3.it_arrivals it))) fails).
    split; [|split].
    + rewrite Hc, drain_state. reflexivity.
    + rewrite Hd, drain_state. reflexivity.
    + intros _. destruct fails as [|it' fails'].
      * cbn [after_exhaustion fold_left]. now rewrite drain_state.
      * apply Hq. discriminate.
Qed.

(** A successful send counts what [sendmsg] returned, once. *)
Lemma a3_success_step (it : A3.iteration) sc iov st room :
  sg_reply (A3.it_call it) = Accept room ->
  let sent := Z.max 0 (Z.min room (iov_total iov)) in
  exists st',
    A3.send_loop (it :: sc) iov st = A3.send_loop sc iov st'
    /\ A3.st_counters st'
       = account (A3.st_counters st) sent
                 (sg_start (A3.it_call it)) (sg_end (A3.it_call it))
    /\ A3.drain_counter st'
       = (if wrap32 (A3.drain_counter st + 1) >=? A3.DRAIN_EVERY
          then 0 else wrap32 (A3.drain_counter st + 1)).
Proof.
  intros H sent. cbn [A3.send_loop]. rewrite H. cbn [sendmsg sys_ret].
  fold sent. replace (sent <? 0) with false
    by (symmetry; apply Z.ltb_ge; unfold sent; lia).
  eexists. split; [reflexivity|].
  unfold A3.after_send. cbn [sys_ret].
  destruct (wrap32 _ >=? A3.DRAIN_EVERY); [rewrite drain_state|];
    cbn; split; reflexivity.
Qed.

(** C4.  Resource exhaustion in the zero-copy loop.  When [sendmsg] fails
    with ENOBUFS the worker calls drain_completions, which reads the error
    queue until it is empty, and goes back to the head of the loop with the
    rest of the run: byte count, message count, latency sum and drain
    counter are as before the failed attempt.  When, after any number of
    such failures, the send succeeds, the counters have advanced by that
    one send and nothing else. *)
Theorem C4_enobufs_drains_and_retries
    (it : A3.iteration) (sc : list A3.iteration) (iov : list iovec)
    (st : A3.state) :
  exhausted it ->
  let st' := A3.drain (A3.enqueue st (A3.it_arrivals it)) in
  A3.send_loop (it :: sc) iov st = A3.send_loop sc iov st'
  /\ A3.errqueue st' = []
  /\ A3.st_events st'
     = A3.st_events st
       ++ [EvDrain (length (A3.errqueue st ++ A3.it_arrivals it))
                   (confirmations (A3.errqueue st ++ A3.it_arrivals it))]
  /\ A3.st_counters st' = A3.st_counters st
  /\ A3.drain_counter st' = A3.drain_counter st
  /\ (forall fails ok room,
         Forall exhausted fails ->
         sg_reply (A3.it_call ok) = Accept room ->
         let fin := fst (A3.send_loop (it :: fails ++ [ok]) iov st) in
         A3.st_counters fin
         = account (A3.st_counters st)
                   (Z.max 0 (Z.min room (iov_total iov)))
                   (sg_start (A3.it_call ok)) (sg_end (A3.it_call ok))).
Proof.
  intros Hit st'. split; [exact (a3_enobufs_step it sc iov st Hit)|].
  unfold st'. rewrite drain_state.
  cbn [A3.errqueue A3.st_events A3.st_counters A3.drain_counter A3.enqueue].
  do 4 (split; [reflexivity|]).
  intros fails ok room Hfails Hok.
  change (it :: fails ++ [ok]) with ((it :: fails) ++ [ok]).
  rewrite (a3_enobufs_run (it :: fails) [ok] iov st
             (Forall_cons _ Hit Hfails)).
  destruct (after_exhaustion_state (it :: fails) st) as (Hc & _).
  destruct (a3_success_step ok [] iov (after_exhaustion st (it :: fails))
              room Hok) as (st2 & -> & Hc2 & _).
  cbn [A3.send_loop fst]. now rewrite Hc2, Hc.
Qed.

(** C4 on a run with ENOBUFS failures, completion records waiting, and
    then a send that goes through. *)
Lemma C4_witness :
  exhausted it_enobufs
  /\ (let st := A3.mkState (mkCounters 160 10 50) 10 [zc_record] [] in
      let st' := A3.drain (A3.enqueue st (A3.it_arrivals it_enobufs)) in
      A3.send_loop [it_enobufs; it_sent] (build_iov msg16) st
      = A3.send_loop [it_sent] (build_iov msg16) st'
      /\ A3.errqueue st' = []
      /\ A3.st_events st' = [EvDrain 3 3]
      /\ A3.st_counters st' = mkCounters 160 10 50
      /\ A3.drain_counter st' = 10
      /\ A3.st_counters
           (fst (A3.send_loop [it_enobufs; it_enobufs; it_sent]
                   (build_iov msg16) st))
         = mkCounters 176 11 53).
Proof.
  split; [reflexivity|]. cbv zeta.
  pose proof (C4_enobufs_drains_and_retries it_enobufs [it_sent]
                (build_iov msg16)
                (A3.mkState (mkCounters 160 10 50) 10 [zc_record] [])
                eq_refl) as (H1 & H2 & H3 & H4 & H5 & H6).
  repeat (split; [assumption|]).
  exact (H6 [it_enobufs] it_sent 16
            (Forall_cons it_enobufs (eq_refl : exhausted it_enobufs)
               (Forall_nil _))
            eq_refl).
Defined.

(** ** The drain counter *)

(** The counter stays within [0, 64) from one loop head to the next. *)
Lemma a3_drain_counter_range sc : forall iov st,
  0 <= A3.drain_counter st < A3.DRAIN_EVERY ->
  0 <= A3.drain_counter (fst (A3.send_loop sc iov st)) < A3.DRAIN_EVERY.
Proof.
  unfold A3.DRAIN_EVERY.
  induction sc as [|it sc IH]; intros iov st Hdc; [exact Hdc|].
  destruct (sg_reply (A3.it_call it)) as [room | e] eqn:Hrep.
  - destruct (a3_success_step it sc iov st room Hrep) as (st' & -> & _ & Hd).
    apply IH. rewrite Hd. unfold A3.DRAIN_EVERY.
    rewrite wrap32_small by (unfold INT_MAX; lia).
    destruct (A3.drain_counter st + 1 >=? 64) eqn:Hge; [lia|].
    rewrite Z.geb_leb in Hge. apply Z.leb_gt in Hge. lia.
  - cbn [A3.send_loop]. rewrite Hrep. cbn [sendmsg sys_ret sys_errno].
    replace (-1 <? 0) with true by reflexivity.
    destruct e; cbn [fst A3.log A3.enqueue A3.drain_counter];
      try exact Hdc; apply IH; try exact Hdc.
    now rewrite drain_state.
Qed.

(** Short of overflow, it is the message count modulo 64. *)
Lemma a3_drain_counter_mod sc : forall iov st k0,
  0 <= k0 ->
  k0 + Z.of_nat (length sc) <= LLONG_MAX ->
  msg_count (A3.st_counters st) = k0 ->
  A3.drain_counter st = k0 mod A3.DRAIN_EVERY ->
  let st' := fst (A3.send_loop sc iov st) in
  A3.drain_counter st' = msg_count (A3.st_counters st') mod A3.DRAIN_EVERY
  /\ k0 <= msg_count (A3.st_counters st') <= k0 + Z.of_nat (length sc).
Proof.
  unfold A3.DRAIN_EVERY.
  induction sc as [|it sc IH]; intros iov st k0 Hk0 Hmax Hm Hdc.
  - cbn. cbn [length] in Hmax. rewrite Hm. split; [exact Hdc | lia].
  - cbv zeta. cbn [length] in Hmax |- *. rewrite Nat2Z.inj_succ in Hmax |- *.
    destruct (sg_reply (A3.it_call it)) as [room | e] eqn:Hrep.
    + destruct (a3_success_step it sc iov st room Hrep) as (st' & -> & Hc & Hd).
      assert (Hm' : msg_count (A3.st_counters st') = k0 + 1).
      { rewrite Hc. cbn [account msg_count]. rewrite Hm.
        apply wrap64_small. unfold LLONG_MIN. lia. }
      destruct (IH iov st' (k0 + 1) ltac:(lia) ltac:(lia) Hm') as (Hr & Hb).
      * rewrite Hd, Hdc. unfold A3.DRAIN_EVERY.
        pose proof (Z.mod_pos_bound k0 64 ltac:(lia)) as Hrange.
        rewrite wrap32_small by (unfold INT_MAX; lia).
        destruct (k0 mod 64 + 1 >=? 64) eqn:Hge;
          rewrite Z.geb_leb in Hge;
          [apply Z.leb_le in Hge | apply Z.leb_gt in Hge];
          symmetry; rewrite <- Z.add_mod_idemp_l by lia.
        -- replace (k0 mod 64 + 1) with 64 by lia. reflexivity.
        -- apply Z.mod_small. lia.
      * split; [exact Hr | lia].
    + cbn [A3.send_loop]. rewrite Hrep. cbn [sendmsg sys_ret sys_errno].
      replace (-1 <? 0) with true by reflexivity.
      destruct e;
        cbn [fst A3.log A3.enqueue A3.drain_counter A3.st_counters];
        try (rewrite Hm; split; [exact Hdc | lia]).
      * destruct (IH iov (A3.enqueue st (A3.it_arrivals it)) k0
                     Hk0 ltac:(lia) Hm Hdc) as (Hr & Hb).
        split; [exact Hr | lia].
      * destruct (IH iov (A3.drain (A3.enqueue st (A3.it_arrivals it))) k0
                     Hk0 ltac:(lia)) as (Hr & Hb);
          try (rewrite drain_state; assumption).
        split; [exact Hr | lia].
Qed.

(** X21.  The counter of the periodic drain.  [drain_counter] counts the
    successful sends since the last periodic drain.  No drain changes it
    or the metrics, and every drain leaves the error queue empty; the
    counter stays within 0..63 from one loop head to the next; and after
    the final drain it is the number of messages sent modulo 64 (for runs
    short of overflowing the message count). *)
Theorem X21_drain_counter_counts_sends_mod_64
    (E : A3.env) (msg : message_t) (evs : list event) :
  Z.of_nat (length (A3.script E)) <= LLONG_MAX ->
  let st := A3.worker_loop E msg evs in
  (forall s, A3.drain_counter (A3.drain s) = A3.drain_counter s
             /\ A3.st_counters (A3.drain s) = A3.st_counters s
             /\ A3.errqueue (A3.drain s) = [])
  /\ (forall sc iov,
         0 <= A3.drain_counter (fst (A3.send_loop sc iov (A3.state0 evs))) < 64)
  /\ 0 <= A3.drain_counter st < 64
  /\ A3.drain_counter st = msg_count (A3.st_counters st) mod 64
  /\ A3.errqueue st = [].
Proof.
  intros Hmax st.
  assert (Hrange : forall sc iov,
             0 <= A3.drain_counter (fst (A3.send_loop sc iov (A3.state0 evs))) < 64).
  { intros sc iov. apply a3_drain_counter_range. cbn. unfold A3.DRAIN_EVERY. lia. }
  split; [intros s; rewrite drain_state; repeat split|].
  split; [exact Hrange|].
  unfold st, A3.worker_loop.
  pose proof (Hrange (A3.script E) (build_iov msg)) as Hr.
  destruct (a3_drain_counter_mod (A3.script E) (build_iov msg)
              (A3.state0 evs) 0 ltac:(lia) ltac:(lia) eq_refl eq_refl)
    as (Hmod & _).
  destruct (A3.send_loop (A3.script E) (build_iov msg) (A3.state0 evs))
    as [st1 ex]. cbn [fst] in Hr, Hmod.
  rewrite drain_state.
  cbn [A3.drain_counter A3.st_counters A3.errqueue A3.enqueue].
  split; [exact Hr|]. split; [exact Hmod | reflexivity].
Qed.

(** X21 on a worker that sends one message. *)
Lemma X21_witness :
  Z.of_nat (length (A3.script env_one_send)) <= LLONG_MAX
  /\ (let st := A3.worker_loop env_one_send msg16 [] in
      msg_count (A3.st_counters st) = 1
      /\ 0 <= A3.drain_counter st < 64
      /\ A3.drain_counter st = msg_count (A3.st_counters st) mod 64
      /\ A3.errqueue st = []).
Proof.
  split; [vm_compute; discriminate|]. cbv zeta.
  split; [reflexivity|].
  exact (proj2 (proj2 (X21_drain_counter_counts_sends_mod_64 env_one_send
                         msg16 [] ltac:(vm_compute; discriminate)))).
Defined.

(** ** The outstanding completions *)



















(** The condition on the kernel cannot be dropped: a completion record
    queued for a send that was never made takes the count below zero at
    the next drain. *)
Lemma outstanding_needs_the_kernel_condition :
  let E := A3.mkEnv true true 8 heap_ok 0
             [A3.mkIter (mkSg 1 2 (Refuse ENOBUFS)) [zc_record]] [] 3 in
  confirms_sends_made 0 (A3.script E) (A3.final_arrivals E) = false
  /\ outstanding (A3.st_events (A3.worker_loop E msg16 [])) = -1.
Proof. split; reflexivity. Qed.


(** ** What goes on the wire in one iteration *)

Lemma memcpy_exact (pre tail src : list byte) (offset n : Z) :
  0 <= offset -> 0 <= n ->
  length pre = Z.to_nat offset ->
  length src = Z.to_nat n ->
  memcpy (pre ++ tail) offset src n = (pre ++ src) ++ skipn (Z.to_nat n) tail.
Proof.
  intros Ho Hn Hpre Hsrc. unfold memcpy.
  rewrite <- Hpre, firstn_app, Nat.sub_diag, firstn_O, app_nil_r, firstn_all.
  rewrite <- Hsrc at 1. rewrite firstn_all.
  rewrite skipn_app, skipn_all2 by lia.
  replace (length pre + Z.to_nat n - length pre)%nat with (Z.to_nat n) by lia.
  cbn [app]. now rewrite <- app_assoc.
Qed.

(** The serialization loop lays the fields end to end over the front of the
    buffer and leaves the rest of the block as it was. *)
Lemma serialize_from_concat (fsz : Z) (fs : list (list byte)) :
  forall pre tail offset,
    0 <= fsz -> 0 <= offset ->
    offset + Z.of_nat (length fs) * fsz <= INT_MAX ->
    length pre = Z.to_nat offset ->
    Forall (fun f => length f = Z.to_nat fsz) fs ->
    fst (A1.serialize_from fs fsz (pre ++ tail) offset)
    = pre ++ concat fs ++ skipn (length fs * Z.to_nat fsz) tail.
Proof.
  induction fs as [|f fs IH]; intros pre tail offset Hf Ho Hmax Hpre Hall.
  - cbn. reflexivity.
  - inversion Hall as [|? ? Hlen Hrest]; subst.
    cbn [A1.serialize_from length concat] in *.
    rewrite Nat2Z.inj_succ in Hmax.
    rewrite memcpy_exact by assumption.
    rewrite wrap32_small by (unfold INT_MAX in *; nia).
    rewrite IH; try assumption; try nia.
    + rewrite skipn_skipn, <- !app_assoc. do 3 f_equal. f_equal. lia.
    + rewrite length_app, Hpre, Hlen. lia.
Qed.

Lemma pattern_fields_length (fsz : Z) :
  Forall (fun f => length f = Z.to_nat fsz) (pattern_fields fsz).
Proof.
  unfold pattern_fields, memset. repeat constructor; apply repeat_length.
Qed.

Lemma gather_pattern (fsz : Z) :
  gather (build_iov (mkMessage (pattern_fields fsz) fsz))
  = concat (pattern_fields fsz).
Proof.
  unfold gather, build_iov. cbn [fields field_size]. rewrite map_map.
  cbn [iov_len iov_base]. f_equal.
  pose proof (pattern_fields_length fsz) as Hall.
  induction Hall as [|f fs Hlen _ IH]; cbn [map]; [reflexivity|].
  rewrite IH, <- Hlen, firstn_all. reflexivity.
Qed.

(** The bytes a two-copy worker hands to send_all in one iteration: the
    eight fields, then whatever the block held beyond them. *)
Lemma two_copy_buffer (h : heap_env) (size : Z) (msg : message_t)
    (buf : list byte) :
  size <= INT_MAX ->
  alloc_message h size = inl msg ->
  A1.serialize msg buf
  = gather (build_iov msg)
      ++ skipn (Z.to_nat (8 * Z.quot size NUM_FIELDS)) buf.
Proof.
  intros Hmax Hmsg.
  destruct (alloc_message_inl _ _ _ Hmsg) as (Hsize & Hfsz & Hfs).
  destruct (field_size_bounds size Hsize) as (Hpos & Hle).
  destruct msg as [fs fsz]. cbn [fields field_size] in *. subst fs.
  rewrite gather_pattern. unfold A1.serialize. cbn [fields field_size].
  change buf with ([] ++ buf) at 1.
  rewrite (serialize_from_concat fsz (pattern_fields fsz) [] buf 0);
    try lia; try reflexivity; try apply pattern_fields_length.
  - cbn [app]. do 2 f_equal. subst fsz. cbn [pattern_fields map length]. lia.
  - cbn [pattern_fields map length]. lia.
Qed.

(** For a payload size that is a multiple of 8 the three send paths put the
    same bytes on the stream in an iteration the kernel accepts in full. *)
Lemma streams_agree_on_multiples_of_8 (h : heap_env) (size : Z)
    (msg : message_t) (buf : list byte) :
  size <= INT_MAX ->
  Z.rem size NUM_FIELDS = 0 ->
  alloc_message h size = inl msg ->
  send_all [Accept size] (A1.serialize msg buf) size
  = SaReturn size None (gather (build_iov msg))
  /\ sendmsg (Accept size) (build_iov msg)
     = mkSys size None (gather (build_iov msg)).
Proof.
  intros Hmax Hrem Hmsg.
  destruct (alloc_message_inl _ _ _ Hmsg) as (Hsize & Hfsz & Hfs).
  pose proof (build_iov_total _ _ _ Hmsg) as HT.
  assert (H8 : 8 * Z.quot size NUM_FIELDS = size).
  { pose proof (Z.quot_rem' size NUM_FIELDS) as Hqr.
    rewrite Hrem in Hqr. unfold NUM_FIELDS in *. lia. }
  assert (Hlen : length (gather (build_iov msg)) = Z.to_nat size).
  { destruct msg as [fs fsz]. cbn [fields field_size] in *. subst fs.
    rewrite gather_pattern. unfold pattern_fields, memset.
    cbn [map concat]. rewrite !length_app, !repeat_length. cbn [length].
    rewrite <- H8, <- Hfsz.
    destruct (field_size_bounds size Hsize) as (Hpos & _). lia. }
  split.
  - pose proof (send_all_correct [Accept size] (A1.serialize msg buf) size)
      as Hpost.
    destruct (send_all [Accept size] (A1.serialize msg buf) size)
      as [r e w | w] eqn:Hsa; cbn [send_all_post] in Hpost.
    + destruct Hpost as [(-> & -> & ->) | (_ & _ & Hfatal & _)];
        [|discriminate].
      f_equal. rewrite (two_copy_buffer h size msg buf Hmax Hmsg).
      rewrite <- Hlen, firstn_app, Nat.sub_diag, firstn_O, app_nil_r.
      apply firstn_all.
    + destruct Hpost as (_ & Hcap & _). cbn [capacity] in Hcap. lia.
  - unfold sendmsg. rewrite HT, H8.
    replace (Z.max 0 (Z.min size size)) with size by lia.
    f_equal. rewrite <- Hlen. apply firstn_all.
Qed.

(** C1 at [payload_size = 9] (field size 1), one iteration, the kernel
    taking all it is offered.  The one-copy and zero-copy workers put the
    eight field bytes on the stream and report 8 bytes; the two-copy worker
    sends and reports nine, the ninth byte being whatever its freshly
    allocated serialization buffer held: the remainder of the division is
    transmitted, and the streams differ. *)
Theorem C1_two_copy_sends_the_remainder (g : byte) :
  run_events (A1.client_thread (init_args 0 9 1) (env9_two_copy g))
  = [EvConnect true; EvConfig 9 1 8;
     EvPayload [65; 66; 67; 68; 69; 70; 71; 72; g];
     EvReport 9 1 3 1; EvClose]
  /\ run_events (A2.client_thread (init_args 0 9 1) (env9_one_copy g))
     = [EvConnect true; EvConfig 9 1 8;
        EvPayload [65; 66; 67; 68; 69; 70; 71; 72];
        EvReport 8 1 3 1; EvClose]
  /\ run_events (A3.client_thread (init_args 0 9 1) (env9_zero_copy g))
     = [EvConnect true; EvSetsockopt true; EvConfig 9 1 8;
        EvPayload [65; 66; 67; 68; 69; 70; 71; 72]; EvDrain 0 0;
        EvReport 8 1 3 1; EvClose].
Proof.
  repeat split; reflexivity.
Qed.

(* ================================================================== *)
(** ** Comparing doubles *)

(** The order of binary64 values, through their specification
    ([SFcompare] answers [None] exactly when a NaN is involved). *)

Ltac sf_cases x y :=
  let sx := fresh "s" in let mx := fresh "m" in let ex := fresh "e" in
  let sy := fresh "s" in let my := fresh "m" in let ey := fresh "e" in
  destruct x as [sx | sx | | sx mx ex], y as [sy | sy | | sy my ey].

Ltac sf_signs :=
  repeat match goal with s : bool |- _ => destruct s end.

Ltac sf_orders :=
  rewrite ?Pos.compare_cont_spec in *; cbn [Pos.switch_Eq] in *;
  repeat match goal with
         | H : context [Z.compare ?a ?b] |- _ =>
             destruct (Z.compare_spec a b)
         | |- context [Z.compare ?a ?b] =>
             destruct (Z.compare_spec a b)
         | H : context [Pos.compare ?a ?b] |- _ =>
             destruct (Pos.compare_spec a b)
         | |- context [Pos.compare ?a ?b] =>
             destruct (Pos.compare_spec a b)
         end;
  subst; cbn [CompOpp] in *;
  try lia; try discriminate; try reflexivity.

Lemma SFleb_trans (x y z : spec_float) :
  SFleb x y = true -> SFleb y z = true -> SFleb x z = true.
Proof.
  unfold SFleb.
  sf_cases x y; destruct z as [sz | sz | | sz mz ez];
    cbn [SFcompare]; sf_signs;
    try discriminate; try reflexivity; intros Hxy Hyz; sf_orders.
Qed.

Lemma SFcompare_antisym (x y : spec_float) :
  SFcompare y x = option_map CompOpp (SFcompare x y).
Proof.
  sf_cases x y; cbn [SFcompare option_map]; sf_signs; try reflexivity;
    sf_orders.
Qed.

Lemma SFcompare_defined (a x y b : spec_float) :
  SFleb a x = true -> SFleb b y = true -> SFcompare x y <> None.
Proof.
  unfold SFleb.
  destruct a, x; cbn [SFcompare]; try discriminate;
    destruct b, y; cbn [SFcompare]; try discriminate; intros _ _;
    sf_signs; discriminate.
Qed.

Section Doubles.

Local Open Scope float_scope.

Lemma leb_trans (x y z : float) :
  (x <=? y) = true -> (y <=? z) = true -> (x <=? z) = true.
Proof. rewrite !leb_spec. apply SFleb_trans. Qed.

Lemma ltb_leb (x y : float) : (x <? y) = true -> (x <=? y) = true.
Proof.
  rewrite ltb_spec, leb_spec. unfold SFltb, SFleb.
  destruct (SFcompare _ _) as [[| |]|]; congruence.
Qed.

(** Two numbers that are not in the order [x < y] are in the order
    [y <= x]. *)
Lemma not_ltb_leb (x y : float) :
  nonneg x -> nonneg y -> (x <? y) = false -> (y <=? x) = true.
Proof.
  unfold nonneg. rewrite ltb_spec, !leb_spec. intros Hx Hy.
  pose proof (SFcompare_defined _ _ _ _ Hx Hy) as Hdef.
  unfold SFltb, SFleb. rewrite (SFcompare_antisym (Prim2SF x) (Prim2SF y)).
  destruct (SFcompare (Prim2SF x) (Prim2SF y)) as [[| |]|];
    cbn [option_map CompOpp]; congruence.
Qed.

Lemma leb_refl (x : float) : nonneg x -> (x <=? x) = true.
Proof.
  intros Hx. apply not_ltb_leb; try assumption.
  unfold nonneg in Hx. rewrite ltb_spec. rewrite leb_spec in Hx.
  pose proof (SFcompare_defined _ _ _ _ Hx Hx) as Hdef.
  pose proof (SFcompare_antisym (Prim2SF x) (Prim2SF x)) as Hanti.
  unfold SFltb. destruct (SFcompare (Prim2SF x) (Prim2SF x)) as [[| |]|];
    cbn [option_map CompOpp] in Hanti; congruence.
Qed.

Lemma leb_antisym (x y : float) :
  (x <=? y) = true -> (y <=? x) = true -> (x =? y) = true.
Proof.
  rewrite !leb_spec, eqb_spec. unfold SFleb, SFeqb.
  rewrite (SFcompare_antisym (Prim2SF x) (Prim2SF y)).
  destruct (SFcompare (Prim2SF x) (Prim2SF y)) as [[| |]|];
    cbn [option_map CompOpp]; congruence.
Qed.

End Doubles.

(* ================================================================== *)
(** ** The aggregated report *)

Lemma aggregate_latency (targs : list thread_args_t) : forall t,
  ag_total_latency (fold_left aggregate_step targs t)
  = fold_left PrimFloat.add (map avg_latency_us targs) (ag_total_latency t).
Proof.
  induction targs as [|a targs IH]; intros t; [reflexivity|].
  cbn [fold_left map]. now rewrite IH.
Qed.

Lemma aggregate_bytes (targs : list thread_args_t) : forall t,
  0 <= ag_total_bytes t ->
  Forall (fun a => 0 <= bytes_transferred a) targs ->
  ag_total_bytes t + sum_bytes targs <= LLONG_MAX ->
  ag_total_bytes (fold_left aggregate_step targs t)
  = ag_total_bytes t + sum_bytes targs.
Proof.
  induction targs as [|a targs IH]; intros t Ht Hall Hmax.
  - cbn. lia.
  - inversion Hall as [|? ? Ha Hrest]; subst.
    cbn [fold_left sum_bytes fold_right] in *.
    fold (sum_bytes targs) in *.
    assert (Hsum : 0 <= sum_bytes targs).
    { clear -Hrest. induction Hrest; cbn; [lia|].
      fold (sum_bytes l). lia. }
    assert (Hstep : ag_total_bytes (aggregate_step t a)
                    = ag_total_bytes t + bytes_transferred a).
    { cbn [aggregate_step ag_total_bytes]. apply wrap64_small.
      unfold LLONG_MIN. lia. }
    rewrite IH; rewrite ?Hstep; try assumption; lia.
Qed.

Lemma aggregate_max (targs : list thread_args_t) : forall t,
  nonneg (ag_max_elapsed t) ->
  Forall (fun a => nonneg (elapsed_time a)) targs ->
  let m := ag_max_elapsed (fold_left aggregate_step targs t) in
  nonneg m
  /\ (ag_max_elapsed t <=? m)%float = true
  /\ (m = ag_max_elapsed t \/ In m (map elapsed_time targs))
  /\ (forall b, In b targs -> (elapsed_time b <=? m)%float = true).
Proof.
  induction targs as [|a targs IH]; intros t Ht Hall.
  - cbn. repeat split; try assumption.
    + now apply leb_refl.
    + now left.
    + intros b [].
  - inversion Hall as [|? ? Ha Hrest]; subst. cbn [fold_left].
    set (t' := aggregate_step t a).
    assert (Ht' : nonneg (ag_max_elapsed t')
                  /\ (ag_max_elapsed t <=? ag_max_elapsed t')%float = true
                  /\ (elapsed_time a <=? ag_max_elapsed t')%float = true
                  /\ (ag_max_elapsed t' = ag_max_elapsed t
                      \/ ag_max_elapsed t' = elapsed_time a)).
    { unfold t'. cbn [aggregate_step ag_max_elapsed].
      destruct (ag_max_elapsed t <? elapsed_time a)%float eqn:Hlt.
      - repeat split; try assumption.
        + now apply ltb_leb.
        + now apply leb_refl.
        + now right.
      - repeat split; try assumption.
        + now apply leb_refl.
        + now apply not_ltb_leb.
        + now left. }
    destruct Ht' as (Hn' & Hle & Hae & Hwhich).
    destruct (IH t' Hn' Hrest) as (Hn & Hm & Hin & Hub).
    cbv zeta. repeat split.
    + exact Hn.
    + exact (leb_trans _ _ _ Hle Hm).
    + destruct Hin as [-> | Hin].
      * destruct Hwhich as [-> | ->]; [now left | right; now left].
      * right. now right.
    + intros b [<- | Hb].
      * exact (leb_trans _ _ _ Hae Hm).
      * exact (Hub b Hb).
Qed.

(** C7.  The throughput of the aggregated report.  For at least one
    worker, byte counts that are not negative and do not overflow the
    [long long] sum, and elapsed times that are numbers at or above zero:
    the report's total is the sum of the workers' [bytes_transferred], its
    elapsed time is the largest of their [elapsed_time] (it equals one of
    them and none exceeds it), and the printed throughput is
    [total * 8 / (elapsed * 1e9)] in double arithmetic.  For a total of
    1000000000 bytes and 8.0 seconds that is exactly 1.0. *)
Theorem C7_throughput_of_the_report
    (impl : impl_name) (size : Z) (targs : list thread_args_t) :
  targs <> [] ->
  Forall (fun a => 0 <= bytes_transferred a) targs ->
  sum_bytes targs <= LLONG_MAX ->
  Forall (fun a => nonneg (elapsed_time a)) targs ->
  let r := summarize impl size (Z.of_nat (length targs)) targs in
  rp_total_bytes r = sum_bytes targs
  /\ (exists a, In a targs /\ (elapsed_time a =? rp_elapsed r)%float = true)
  /\ (forall b, In b targs -> (elapsed_time b <=? rp_elapsed r)%float = true)
  /\ throughput_gbps r
     = (double_of_ll (sum_bytes targs) * 8 / (rp_elapsed r * 1e9))%float
  /\ (forall threads avg,
         throughput_gbps (print_results impl size threads 1000000000 8 avg)
         = 1%float).
Proof.
  intros Hne Hbytes Hmax Helapsed r.
  assert (Htotal : rp_total_bytes r = sum_bytes targs).
  { unfold r, summarize, print_results, aggregate. cbn [rp_total_bytes].
    rewrite aggregate_bytes; cbn [totals0 ag_total_bytes]; try assumption; lia. }
  destruct (aggregate_max targs totals0 eq_refl Helapsed)
    as (Hn & _ & Hin & Hub).
  cbv zeta in Hn, Hin, Hub. fold (aggregate targs) in Hn, Hin, Hub.
  change (ag_max_elapsed (aggregate targs)) with (rp_elapsed r) in Hn, Hin, Hub.
  split; [exact Htotal|]. split; [|split; [exact Hub|split]].
  - destruct Hin as [Hzero | Hin].
    + destruct targs as [|a rest]; [congruence|].
      exists a. split; [now left|].
      inversion Helapsed as [|? ? Ha _]; subst.
      apply leb_antisym; [apply Hub; now left|].
      rewrite Hzero. exact Ha.
    + apply in_map_iff in Hin. destruct Hin as (a & Heq & Ha).
      exists a. split; [exact Ha|]. rewrite Heq.
      apply leb_antisym; now apply leb_refl.
  - rewrite <- Htotal. reflexivity.
  - intros threads avg. reflexivity.
Qed.

(** C7 on four workers: 1000000000 bytes, the slowest taking 8 seconds. *)
Lemma C7_witness :
  let r := summarize two_copy 80000 4 four_workers in
  rp_total_bytes r = 1000000000
  /\ rp_elapsed r = 8%float
  /\ throughput_gbps r = 1%float
  /\ rp_total_bytes r = sum_bytes four_workers
  /\ (forall b, In b four_workers ->
                (elapsed_time b <=? rp_elapsed r)%float = true).
Proof.
  cbv zeta. split; [reflexivity|]. split; [reflexivity|].
  split; [reflexivity|].
  pose proof (C7_throughput_of_the_report two_copy 80000 four_workers
                ltac:(discriminate)
                ltac:(repeat constructor; vm_compute; discriminate)
                ltac:(vm_compute; discriminate)
                ltac:(repeat constructor)) as (H1 & _ & H3 & _).
  split; [exact H1 | exact H3].
Defined.

(** C8.  The aggregated average latency is the plain mean of the workers'
    averages: their sum, taken in index order, divided by the number of
    workers; byte counts play no part.  For averages 10.0, 20.0 and 30.0
    it is exactly 20.0, whatever the three workers transferred. *)
Theorem C8_average_latency_is_plain_mean
    (impl : impl_name) (size : Z) (targs : list thread_args_t) :
  rp_avg_lat (summarize impl size (Z.of_nat (length targs)) targs)
  = (sum_doubles (map avg_latency_us targs)
     / double_of_ll (Z.of_nat (length targs)))%float
  /\ (forall i1 i2 i3 dur b1 b2 b3 e1 e2 e3,
         rp_avg_lat
           (summarize impl size 3
              [ mkArgs i1 size dur b1 e1 10;
                mkArgs i2 size dur b2 e2 20;
                mkArgs i3 size dur b3 e3 30 ])
         = 20%float).
Proof.
  split.
  - unfold summarize, print_results, aggregate. cbn [rp_avg_lat].
    now rewrite aggregate_latency.
  - intros. reflexivity.
Qed.

(** ** Workers that sent nothing *)

Lemma finish_no_message targs c elapsed evs a :
  run_end (finish targs c elapsed evs) = ThreadReturns a ->
  no_message_reported (finish targs c elapsed evs) ->
  avg_latency_us a = 0%float.
Proof.
  unfold finish, no_message_reported. cbn [run_end run_events].
  intros [= <-] Hzero.
  assert (Hm : msg_count c = 0).
  { apply (Hzero (total_bytes c) (msg_count c)
                 (elapsed_time (record_metrics targs c elapsed))
                 (avg_latency_us (record_metrics targs c elapsed))).
    apply in_or_app. right. now left. }
  cbn [record_metrics avg_latency_us]. now rewrite Hm.
Qed.

(** C10.  In each of the three clients, started by main with
    [avg_latency_us = 0.0]: a worker that returns without having counted a
    message (its report line, if any, shows zero messages) leaves
    [avg_latency_us] at exactly 0.0; no division takes place. *)
Theorem C10_no_message_zero_latency (i size dur : Z) :
  (forall (E : A1.env) a,
      run_end (A1.client_thread (init_args i size dur) E) = ThreadReturns a ->
      no_message_reported (A1.client_thread (init_args i size dur) E) ->
      avg_latency_us a = 0%float)
  /\ (forall (E : A2.env) a,
         run_end (A2.client_thread (init_args i size dur) E) = ThreadReturns a ->
         no_message_reported (A2.client_thread (init_args i size dur) E) ->
         avg_latency_us a = 0%float)
  /\ (forall (E : A3.env) a,
         run_end (A3.client_thread (init_args i size dur) E) = ThreadReturns a ->
         no_message_reported (A3.client_thread (init_args i size dur) E) ->
         avg_latency_us a = 0%float).
Proof.
  split; [|split]; intros E a.
  - unfold A1.client_thread.
    destruct (A1.connect_ok E); [|now intros [= <-]].
    destruct (A1.config_ret E =? sizeof_config); [|now intros [= <-]].
    destruct (alloc_message _ _); [|discriminate].
    destruct (malloc_send_buf _ _); [|now intros [= <-]].
    destruct (A1.lr_exit _); try discriminate; apply finish_no_message.
  - unfold A2.client_thread.
    destruct (A2.connect_ok E); [|now intros [= <-]].
    destruct (A2.config_ret E =? sizeof_config); [|now intros [= <-]].
    destruct (alloc_message _ _); [|discriminate].
    apply finish_no_message.
  - unfold A3.client_thread.
    destruct (A3.connect_ok E); [|now intros [= <-]].
    destruct (A3.config_ret E =? sizeof_config); [|now intros [= <-]].
    destruct (alloc_message _ _); [|discriminate].
    apply finish_no_message.
Qed.

Ltac report_shows_zero :=
  intros b m e l; cbn; intros H;
  repeat (destruct H as [H | H]; [try discriminate; now inversion H|]);
  destruct H.

(** C10 on workers whose connection breaks on the first send, in each of
    the three clients. *)
Lemma C10_witness :
  (exists a,
      run_end (A1.client_thread (init_args 0 16 2) env_reset_two_copy)
      = ThreadReturns a
      /\ bytes_transferred a = 0 /\ avg_latency_us a = 0%float)
  /\ (exists a,
         run_end (A2.client_thread (init_args 0 16 2) env_reset_one_copy)
         = ThreadReturns a
         /\ bytes_transferred a = 0 /\ avg_latency_us a = 0%float)
  /\ (exists a,
         run_end (A3.client_thread (init_args 0 16 2) env_reset_zero_copy)
         = ThreadReturns a
         /\ bytes_transferred a = 0 /\ avg_latency_us a = 0%float).
Proof.
  destruct (C10_no_message_zero_latency 0 16 2) as (H1 & H2 & H3).
  split; [|split]; eexists; (split; [reflexivity|]); (split; [reflexivity|]).
  - apply (H1 env_reset_two_copy); [reflexivity | report_shows_zero].
  - apply (H2 env_reset_one_copy); [reflexivity | report_shows_zero].
  - apply (H3 env_reset_zero_copy); [reflexivity | report_shows_zero].
Defined.

(* ================================================================== *)
(** * The rest of the clients *)

(** ** alloc_message, case by case *)

Lemma alloc_fields_forallb h fsz (todo : nat) : forall i,
  alloc_fields h fsz i todo
  = if forallb (malloc_field_ok h) (map (fun n => i + Z.of_nat n) (seq 0 todo))
    then Some (map (fun j => memset (char_A + j) fsz)
                   (map (fun n => i + Z.of_nat n) (seq 0 todo)))
    else None.
Proof.
  induction todo as [|todo IH]; intros i; cbn [alloc_fields seq map forallb].
  - reflexivity.
  - rewrite Z.add_0_r. destruct (malloc_field_ok h i); cbn [andb]; [|reflexivity].
    assert (Hshift : map (fun n => i + Z.of_nat n) (seq 1 todo)
                     = map (fun n => i + 1 + Z.of_nat n) (seq 0 todo)).
    { rewrite <- seq_shift, map_map. apply map_ext. intros n. lia. }
    rewrite Hshift, IH.
    destruct (forallb _ _); reflexivity.
Qed.

(** X1.  alloc_message in closed form.  A failed [malloc] of the message
    struct comes first; then a size below 8 is refused with the size
    diagnostic; then any failed field [malloc] ends the process; otherwise
    the message is the eight fields of [msg_size / 8] bytes filled with
    'A' to 'H'. *)
Theorem X1_alloc_message_outcome (h : heap_env) (size : Z) :
  alloc_message h size
  = if malloc_message_ok h then
      if size <? 8 then inr ErrMsgSize
      else if all_fields_ok h
           then inl (mkMessage (pattern_fields (Z.quot size NUM_FIELDS))
                               (Z.quot size NUM_FIELDS))
           else inr PerrorMallocField
    else inr PerrorMallocMessage.
Proof.
  unfold alloc_message. destruct (malloc_message_ok h); [|reflexivity].
  cbv zeta. destruct (size <? 8) eqn:Hlt.
  - apply Z.ltb_lt in Hlt. apply field_size_le_0 in Hlt.
    apply Z.leb_le in Hlt. now rewrite Hlt.
  - apply Z.ltb_ge in Hlt.
    destruct (field_size_bounds size Hlt) as (Hpos & _).
    replace (Z.quot size NUM_FIELDS <=? 0) with false
      by (symmetry; apply Z.leb_gt; exact Hpos).
    rewrite alloc_fields_forallb.
    change (map (fun n => 0 + Z.of_nat n) (seq 0 (Z.to_nat NUM_FIELDS)))
      with [0; 1; 2; 3; 4; 5; 6; 7].
    fold (all_fields_ok h). fold (pattern_fields (Z.quot size NUM_FIELDS)).
    destruct (all_fields_ok h); reflexivity.
Qed.

(** ** The layout of the payload *)

Lemma nth_blocks (fsz : Z) (l : list Z) : forall j,
  0 < fsz ->
  0 <= j < Z.of_nat (length l) * fsz ->
  nth (Z.to_nat j) (concat (map (fun i => memset (char_A + i) fsz) l)) 0
  = to_uchar (char_A + nth (Z.to_nat (j / fsz)) l 0).
Proof.
  induction l as [|i l IH]; intros j Hf Hj.
  - cbn [length] in Hj. lia.
  - cbn [map concat]. cbn [length] in Hj. rewrite Nat2Z.inj_succ in Hj.
    destruct (Z.lt_ge_cases j fsz) as [Hlt | Hge].
    + rewrite app_nth1 by (unfold memset; rewrite repeat_length; lia).
      rewrite Z.div_small by lia. cbn [Z.to_nat nth].
      unfold memset. apply nth_repeat_lt. lia.
    + rewrite app_nth2 by (unfold memset; rewrite repeat_length; lia).
      unfold memset at 1. rewrite repeat_length.
      replace (Z.to_nat j - Z.to_nat fsz)%nat with (Z.to_nat (j - fsz)) by lia.
      rewrite IH by (try assumption; nia).
      replace (j / fsz) with ((j - fsz) / fsz + 1).
      * assert (0 <= (j - fsz) / fsz) by (apply Z.div_pos; lia).
        rewrite Z2Nat.inj_add by lia. rewrite Nat.add_1_r. reflexivity.
      * replace j with ((j - fsz) + 1 * fsz) at 2 by lia.
        rewrite Z.div_add by lia. reflexivity.
Qed.

Lemma nth_pattern (fsz j : Z) :
  0 < fsz -> 0 <= j < 8 * fsz ->
  nth (Z.to_nat j) (concat (pattern_fields fsz)) 0 = char_A + j / fsz.
Proof.
  intros Hf Hj. unfold pattern_fields.
  rewrite nth_blocks by (cbn [length]; lia).
  assert (Hq : 0 <= j / fsz < 8).
  { split; [apply Z.div_pos; lia | apply Z.div_lt_upper_bound; lia]. }
  assert (Hcases : j / fsz = 0 \/ j / fsz = 1 \/ j / fsz = 2 \/ j / fsz = 3
                   \/ j / fsz = 4 \/ j / fsz = 5 \/ j / fsz = 6 \/ j / fsz = 7)
    by lia.
  destruct Hcases as [-> | [-> | [-> | [-> | [-> | [-> | [-> | ->]]]]]]];
    reflexivity.
Qed.

Lemma length_gather_pattern (fsz : Z) :
  0 <= fsz ->
  Z.of_nat (length (gather (build_iov (mkMessage (pattern_fields fsz) fsz))))
  = 8 * fsz.
Proof.
  intros Hf. rewrite gather_pattern. unfold pattern_fields, memset.
  cbn [map concat]. rewrite !length_app, !repeat_length. cbn [length]. lia.
Qed.

(** X2.  The payload of a message.  A message that alloc_message hands out
    has eight fields of [field_size] bytes each; gathered in order they are
    [8 * field_size] bytes, at most [msg_size] and less than 8 short of it,
    and the byte at offset [j] is the letter of field [j / field_size]:
    'A' for the first field up to 'H' for the last. *)
Theorem X2_payload_layout (h : heap_env) (size : Z) (msg : message_t) :
  alloc_message h size = inl msg ->
  length (fields msg) = 8%nat
  /\ Forall (fun f => Z.of_nat (length f) = field_size msg) (fields msg)
  /\ Z.of_nat (length (gather (build_iov msg))) = 8 * field_size msg
  /\ size - 8 < 8 * field_size msg <= size
  /\ forall j, 0 <= j < 8 * field_size msg ->
       nth (Z.to_nat j) (gather (build_iov msg)) 0
       = char_A + j / field_size msg.
Proof.
  intros Hmsg.
  destruct (alloc_message_inl _ _ _ Hmsg) as (Hsize & Hfsz & Hfs).
  destruct (field_size_bounds size Hsize) as (Hpos & Hle).
  destruct msg as [fs fsz]. cbn [fields field_size] in *. subst fs.
  split; [reflexivity|]. split.
  - pose proof (pattern_fields_length fsz) as Hall.
    eapply Forall_impl; [|exact Hall]. cbn beta. intros f Hf. rewrite Hf. lia.
  - split; [apply length_gather_pattern; lia|]. split.
    + subst fsz. pose proof (Z.quot_rem' size NUM_FIELDS) as Hqr.
      pose proof (Z.rem_bound_pos size NUM_FIELDS ltac:(lia)
                    ltac:(unfold NUM_FIELDS; lia)) as Hr.
      unfold NUM_FIELDS in *. lia.
    + intros j Hj. rewrite gather_pattern. apply nth_pattern; lia.
Qed.

(** X2 on a 19-byte payload: fields of 2 bytes, 16 bytes in all, and the
    byte at offset 5 is a 'C'. *)
Lemma X2_witness :
  alloc_message heap_ok 19 = inl (mkMessage (pattern_fields 2) 2)
  /\ gather (build_iov (mkMessage (pattern_fields 2) 2))
     = [65; 65; 66; 66; 67; 67; 68; 68; 69; 69; 70; 70; 71; 71; 72; 72]
  /\ nth 5 (gather (build_iov (mkMessage (pattern_fields 2) 2))) 0 = 67
  /\ length (fields (mkMessage (pattern_fields 2) 2)) = 8%nat.
Proof.
  split; [reflexivity|]. split; [reflexivity|].
  destruct (X2_payload_layout heap_ok 19 (mkMessage (pattern_fields 2) 2)
              eq_refl) as (Hlen & _ & _ & _ & Hnth).
  split; [exact (Hnth 5 ltac:(cbn; lia)) | exact Hlen].
Defined.

(** ** Bytes reported against bytes sent *)

Lemma payload_bytes_app (evs evs' : list event) :
  payload_bytes (evs ++ evs') = payload_bytes evs + payload_bytes evs'.
Proof.
  induction evs as [|e evs IH]; cbn [app payload_bytes]; [lia|].
  destruct e; lia.
Qed.

(** A descriptor list whose entries lie within their buffers. *)
Lemma gather_build_iov h size msg :
  alloc_message h size = inl msg ->
  Z.of_nat (length (gather (build_iov msg))) = iov_total (build_iov msg)
  /\ 0 <= iov_total (build_iov msg) <= size.
Proof.
  intros Hmsg. destruct (alloc_message_inl _ _ _ Hmsg) as (Hsize & Hfsz & Hfs).
  destruct (field_size_bounds size Hsize) as (Hpos & Hle).
  rewrite (build_iov_total _ _ _ Hmsg).
  destruct msg as [fs fsz]. cbn [fields field_size] in *. subst fs.
  rewrite length_gather_pattern by lia. subst fsz. lia.
Qed.

Lemma sendmsg_bytes (r : reply) (iov : list iovec) :
  Z.of_nat (length (gather iov)) = iov_total iov ->
  sys_ret (sendmsg r iov) < 0
  \/ (0 <= sys_ret (sendmsg r iov) <= iov_total iov
      /\ Z.of_nat (length (sys_bytes (sendmsg r iov))) = sys_ret (sendmsg r iov)).
Proof.
  intros Hlen. destruct r as [room | e]; cbn [sendmsg sys_ret sys_bytes].
  - right. pose proof (Nat2Z.is_nonneg (length (gather iov))).
    split; [lia|]. rewrite length_firstn. lia.
  - left. lia.
Qed.

Lemma a2_loop_wire sc : forall iov c evs k0,
  Z.of_nat (length (gather iov)) = iov_total iov ->
  0 <= k0 ->
  (k0 + Z.of_nat (length sc)) * iov_total iov <= LLONG_MAX ->
  0 <= total_bytes c <= k0 * iov_total iov ->
  let res := A2.send_loop sc iov c evs in
  total_bytes (A2.lr_counters res) - total_bytes c
  = payload_bytes (A2.lr_events res) - payload_bytes evs
  /\ 0 <= total_bytes (A2.lr_counters res)
          <= (k0 + Z.of_nat (length sc)) * iov_total iov.
Proof.
  induction sc as [|it sc IH]; intros iov c evs k0 Hlen Hk0 Hmax Hc.
  - cbn. cbn [length] in *. split; [lia | nia].
  - cbv zeta. cbn [A2.send_loop]. cbn [length] in Hmax |- *.
    rewrite Nat2Z.inj_succ in Hmax |- *.
    pose proof (Nat2Z.is_nonneg (length (gather iov))) as HT.
    pose proof (Nat2Z.is_nonneg (length sc)) as Hsc.
    destruct (sendmsg_bytes (sg_reply it) iov Hlen) as [Hneg | (Hret & Hbytes)].
    + apply Z.ltb_lt in Hneg. rewrite Hneg.
      destruct (is_reset _); [cbn; split; [lia | nia]|].
      destruct (sys_errno _) as [[| | | | |]|];
        cbn [A2.lr_counters A2.lr_events];
        rewrite ?payload_bytes_app; cbn [payload_bytes];
        try (split; [lia | nia]).
      destruct (IH iov c evs (k0 + 1) Hlen ltac:(lia) ltac:(lia) ltac:(nia))
        as (Hw & Hb).
      split; [exact Hw | lia].
    + replace (sys_ret (sendmsg (sg_reply it) iov) <? 0) with false
        by (symmetry; apply Z.ltb_ge; lia).
      set (s := sendmsg (sg_reply it) iov) in *.
      assert (Hacc : total_bytes (account c (sys_ret s) (sg_start it) (sg_end it))
                     = total_bytes c + sys_ret s).
      { cbn [account total_bytes]. apply wrap64_small. unfold LLONG_MIN. nia. }
      pose proof (IH iov (account c (sys_ret s) (sg_start it) (sg_end it))
                     (evs ++ [EvPayload (sys_bytes s)]) (k0 + 1)
                     Hlen ltac:(lia) ltac:(lia) ltac:(rewrite Hacc; nia)) as Hrec.
      cbv zeta in Hrec. rewrite Hacc, payload_bytes_app in Hrec.
      cbn [payload_bytes] in Hrec. destruct Hrec as (Hw & Hb).
      split; lia.
Qed.

Lemma a3_loop_wire sc : forall iov st k0,
  Z.of_nat (length (gather iov)) = iov_total iov ->
  0 <= k0 ->
  (k0 + Z.of_nat (length sc)) * iov_total iov <= LLONG_MAX ->
  0 <= total_bytes (A3.st_counters st) <= k0 * iov_total iov ->
  let st' := fst (A3.send_loop sc iov st) in
  total_bytes (A3.st_counters st') - total_bytes (A3.st_counters st)
  = payload_bytes (A3.st_events st') - payload_bytes (A3.st_events st)
  /\ 0 <= total_bytes (A3.st_counters st')
          <= (k0 + Z.of_nat (length sc)) * iov_total iov.
Proof.
  induction sc as [|it sc IH]; intros iov st k0 Hlen Hk0 Hmax Hc.
  - cbn. cbn [length] in *. split; [lia | nia].
  - cbv zeta. cbn [A3.send_loop]. cbn [length] in Hmax |- *.
    rewrite Nat2Z.inj_succ in Hmax |- *.
    pose proof (Nat2Z.is_nonneg (length (gather iov))) as HT.
    pose proof (Nat2Z.is_nonneg (length sc)) as Hsc.
    destruct (sendmsg_bytes (sg_reply (A3.it_call it)) iov Hlen)
      as [Hneg | (Hret & Hbytes)].
    + apply Z.ltb_lt in Hneg. rewrite Hneg.
      destruct (sys_errno _) as [[| | | | |]|];
        cbn [fst A3.log A3.enqueue A3.st_counters A3.st_events];
        rewrite ?payload_bytes_app; cbn [payload_bytes];
        try (split; [lia | nia]).
      * destruct (IH iov (A3.enqueue st (A3.it_arrivals it)) (k0 + 1)
                     Hlen ltac:(lia) ltac:(lia) ltac:(cbn; nia)) as (Hw & Hb).
        split; [exact Hw | lia].
      * set (st1 := A3.drain (A3.enqueue st (A3.it_arrivals it))).
        assert (Hst1 : A3.st_counters st1 = A3.st_counters st
                       /\ payload_bytes (A3.st_events st1)
                          = payload_bytes (A3.st_events st)).
        { unfold st1. rewrite drain_state.
          cbn [A3.st_counters A3.st_events A3.enqueue].
          rewrite payload_bytes_app. cbn [payload_bytes]. split; [reflexivity|lia]. }
        destruct Hst1 as (Hc1 & Hp1).
        pose proof (IH iov st1 (k0 + 1) Hlen ltac:(lia) ltac:(lia)
                       ltac:(rewrite Hc1; nia)) as Hrec.
        cbv zeta in Hrec. rewrite Hc1, Hp1 in Hrec.
        destruct Hrec as (Hw & Hb). split; [exact Hw | lia].
    + replace (sys_ret (sendmsg (sg_reply (A3.it_call it)) iov) <? 0) with false
        by (symmetry; apply Z.ltb_ge; lia).
      set (s := sendmsg (sg_reply (A3.it_call it)) iov) in *.
      set (st1 := A3.after_send (A3.enqueue st (A3.it_arrivals it)) s
                                (A3.it_call it)).
      assert (Hst1 : total_bytes (A3.st_counters st1)
                     = total_bytes (A3.st_counters st) + sys_ret s
                     /\ payload_bytes (A3.st_events st1)
                        = payload_bytes (A3.st_events st) + sys_ret s).
      { unfold st1, A3.after_send.
        destruct (wrap32 _ >=? A3.DRAIN_EVERY); [rewrite drain_state|];
          cbn [A3.st_counters A3.st_events A3.enqueue account total_bytes];
          rewrite ?payload_bytes_app; cbn [payload_bytes];
          (split; [apply wrap64_small; unfold LLONG_MIN; nia | lia]). }
      destruct Hst1 as (Hb1 & Hp1).
      pose proof (IH iov st1 (k0 + 1) Hlen ltac:(lia) ltac:(lia)
                     ltac:(rewrite Hb1; nia)) as Hrec.
      cbv zeta in Hrec. destruct Hrec as (Hw & Hb). split; lia.
Qed.

Lemma a2_worker_wire (i size dur : Z) (E : A2.env) (a : thread_args_t) :
  Z.of_nat (length (A2.script E)) * size <= LLONG_MAX ->
  run_end (A2.client_thread (init_args i size dur) E) = ThreadReturns a ->
  bytes_transferred a
  = payload_bytes (run_events (A2.client_thread (init_args i size dur) E))
  /\ 0 <= bytes_transferred a <= LLONG_MAX.
Proof.
  intros Hmax. unfold LLONG_MAX.
  unfold A2.client_thread. cbn [msg_size duration init_args].
  destruct (A2.connect_ok E);
    [|intros [= <-]; cbn; split; [reflexivity | lia]].
  destruct (A2.config_ret E =? sizeof_config);
    [|intros [= <-]; cbn; split; [reflexivity | lia]].
  destruct (alloc_message (A2.heap E) size) as [msg | d] eqn:Hmsg; [|discriminate].
  destruct (gather_build_iov _ _ _ Hmsg) as (Hlen & HT).
  unfold finish. cbn [run_end run_events]. intros [= <-].
  cbn [record_metrics bytes_transferred].
  rewrite payload_bytes_app. cbn [payload_bytes report_event].
  match goal with
  | |- context [A2.send_loop ?sc ?iov ?c ?e] =>
      pose proof (a2_loop_wire sc iov c e 0 Hlen ltac:(lia)
                    ltac:(pose proof (Nat2Z.is_nonneg (length sc)); nia)
                    ltac:(cbn; lia)) as Hw
  end.
  cbv zeta in Hw. cbn [counters0 total_bytes app payload_bytes] in Hw |- *.
  destruct Hw as (Hw & Hb).
  pose proof (Nat2Z.is_nonneg (length (A2.script E))) as Hsc.
  unfold LLONG_MAX in Hmax. split; [lia | nia].
Qed.

Lemma a3_worker_wire (i size dur : Z) (E : A3.env) (a : thread_args_t) :
  Z.of_nat (length (A3.script E)) * size <= LLONG_MAX ->
  run_end (A3.client_thread (init_args i size dur) E) = ThreadReturns a ->
  bytes_transferred a
  = payload_bytes (run_events (A3.client_thread (init_args i size dur) E))
  /\ 0 <= bytes_transferred a <= LLONG_MAX.
Proof.
  intros Hmax. unfold LLONG_MAX.
  unfold A3.client_thread. cbn [msg_size duration init_args].
  destruct (A3.connect_ok E);
    [|intros [= <-]; cbn; split; [reflexivity | lia]].
  assert (Hev : forall ev1,
             payload_bytes ev1 = 0 ->
             payload_bytes (ev1 ++ [EvConfig size dur (A3.config_ret E)]) = 0).
  { intros ev1 H0. rewrite payload_bytes_app, H0. reflexivity. }
  set (ev1 := if A3.setsockopt_ok E then _ else _).
  assert (Hev1 : payload_bytes ev1 = 0)
    by (unfold ev1; destruct (A3.setsockopt_ok E); reflexivity).
  cbv zeta.
  destruct (A3.config_ret E =? sizeof_config).
  - destruct (alloc_message (A3.heap E) size) as [msg | d] eqn:Hmsg;
      [|discriminate].
    destruct (gather_build_iov _ _ _ Hmsg) as (Hlen & HT).
    unfold finish. cbn [run_end run_events]. intros [= <-].
    cbn [record_metrics bytes_transferred].
    rewrite payload_bytes_app. cbn [payload_bytes report_event].
    unfold A3.worker_loop.
    pose proof (a3_loop_wire (A3.script E) (build_iov msg)
                  (A3.state0 (ev1 ++ [EvConfig size dur (A3.config_ret E)])) 0
                  Hlen ltac:(lia)
                  ltac:(pose proof (Nat2Z.is_nonneg (length (A3.script E))); nia)
                  ltac:(cbn; lia)) as Hw.
    cbv zeta in Hw.
    destruct (A3.send_loop _ _ _) as [st ex]. cbn [fst] in Hw.
    rewrite drain_state. cbn [A3.st_counters A3.st_events A3.enqueue].
    rewrite payload_bytes_app. cbn [payload_bytes].
    cbn [A3.state0 A3.st_counters A3.st_events counters0 total_bytes] in Hw.
    rewrite (Hev ev1 Hev1) in Hw. destruct Hw as (Hw & Hb).
    pose proof (Nat2Z.is_nonneg (length (A3.script E))) as Hsc.
    unfold LLONG_MAX in Hmax. split; [lia | nia].
  - intros [= <-]. cbn [run_events bytes_transferred init_args].
    rewrite payload_bytes_app, (Hev ev1 Hev1). split; [reflexivity | lia].
Qed.

(** X3.  One-copy and zero-copy workers report what they sent.  For runs
    short of overflowing the counter, the [bytes_transferred] a returning
    worker reports is exactly the number of payload bytes it put on the
    stream, short sends included. *)
Theorem X3_scatter_gather_reports_bytes_sent (i size dur : Z) :
  (forall (E : A2.env) a,
      Z.of_nat (length (A2.script E)) * size <= LLONG_MAX ->
      run_end (A2.client_thread (init_args i size dur) E) = ThreadReturns a ->
      bytes_transferred a
      = payload_bytes (run_events (A2.client_thread (init_args i size dur) E)))
  /\ (forall (E : A3.env) a,
         Z.of_nat (length (A3.script E)) * size <= LLONG_MAX ->
         run_end (A3.client_thread (init_args i size dur) E) = ThreadReturns a ->
         bytes_transferred a
         = payload_bytes (run_events (A3.client_thread (init_args i size dur) E))).
Proof.
  split; intros E a Hmax Hend.
  - exact (proj1 (a2_worker_wire i size dur E a Hmax Hend)).
  - exact (proj1 (a3_worker_wire i size dur E a Hmax Hend)).
Qed.

(** X3 on a one-copy worker whose second send is cut short and on a
    zero-copy worker that meets ENOBUFS once. *)
Lemma X3_witness :
  (exists a,
      run_end (A2.client_thread (init_args 0 16 2)
                 (A2.mkEnv true 8 heap_ok 0
                    [mkSg 1 2 (Accept 16); mkSg 3 4 (Accept 5)] 5))
      = ThreadReturns a
      /\ bytes_transferred a = 21
      /\ bytes_transferred a
         = payload_bytes
             (run_events
                (A2.client_thread (init_args 0 16 2)
                   (A2.mkEnv true 8 heap_ok 0
                      [mkSg 1 2 (Accept 16); mkSg 3 4 (Accept 5)] 5))))
  /\ (exists a,
         run_end (A3.client_thread (init_args 0 16 2)
                    (A3.mkEnv true true 8 heap_ok 0 [it_enobufs; it_sent] [] 5))
         = ThreadReturns a
         /\ bytes_transferred a = 16
         /\ bytes_transferred a
            = payload_bytes
                (run_events
                   (A3.client_thread (init_args 0 16 2)
                      (A3.mkEnv true true 8 heap_ok 0 [it_enobufs; it_sent] [] 5)))).
Proof.
  destruct (X3_scatter_gather_reports_bytes_sent 0 16 2) as (H2 & H3).
  split; eexists; (split; [reflexivity|]); (split; [reflexivity|]).
  - apply H2; [vm_compute; discriminate | reflexivity].
  - apply H3; [vm_compute; discriminate | reflexivity].
Defined.

(** ** The serialization buffer of the two-copy client *)

Lemma serialize_parts (h : heap_env) (size : Z) (msg : message_t)
    (buf : list byte) :
  size <= INT_MAX ->
  alloc_message h size = inl msg ->
  let k := Z.to_nat (8 * field_size msg) in
  length (gather (build_iov msg)) = k
  /\ A1.serialize msg buf = gather (build_iov msg) ++ skipn k buf.
Proof.
  intros Hmax Hmsg k.
  destruct (alloc_message_inl _ _ _ Hmsg) as (Hsize & Hfsz & _).
  destruct (gather_build_iov _ _ _ Hmsg) as (Hlen & _).
  rewrite (build_iov_total _ _ _ Hmsg) in Hlen.
  split.
  - unfold k. rewrite Hfsz. lia.
  - unfold k. rewrite Hfsz. exact (two_copy_buffer h size msg buf Hmax Hmsg).
Qed.

Lemma length_serialize (h : heap_env) (size : Z) (msg : message_t)
    (buf : list byte) :
  size <= INT_MAX ->
  alloc_message h size = inl msg ->
  Z.of_nat (length buf) = size ->
  Z.of_nat (length (A1.serialize msg buf)) = size.
Proof.
  intros Hmax Hmsg Hbuf.
  destruct (serialize_parts h size msg buf Hmax Hmsg) as (Hk & Hser).
  rewrite Hser, length_app, length_skipn, Hk.
  destruct (alloc_message_inl _ _ _ Hmsg) as (Hsize & Hfsz & _).
  destruct (field_size_bounds size Hsize) as (Hpos & Hle).
  rewrite Hfsz. lia.
Qed.

(** X4.  COPY 1 of the two-copy client.  Serializing a message into the
    send buffer writes the eight fields end to end at its front, leaves the
    bytes behind them as they were, does not change the length of a block
    of [msg_size] bytes, and changes nothing when done again: every
    iteration hands the same bytes to send_all. *)
Theorem X4_serialization_of_the_message
    (h : heap_env) (size : Z) (msg : message_t) (buf : list byte) :
  size <= INT_MAX ->
  alloc_message h size = inl msg ->
  let k := Z.to_nat (8 * field_size msg) in
  firstn k (A1.serialize msg buf) = gather (build_iov msg)
  /\ skipn k (A1.serialize msg buf) = skipn k buf
  /\ (Z.of_nat (length buf) = size ->
      Z.of_nat (length (A1.serialize msg buf)) = size)
  /\ A1.serialize msg (A1.serialize msg buf) = A1.serialize msg buf.
Proof.
  intros Hmax Hmsg k.
  destruct (serialize_parts h size msg buf Hmax Hmsg) as (Hk & Hser).
  fold k in Hk, Hser.
  assert (Hskip : skipn k (A1.serialize msg buf) = skipn k buf).
  { rewrite Hser, skipn_app, skipn_all2 by lia.
    rewrite Hk, Nat.sub_diag. reflexivity. }
  split; [|split; [exact Hskip|split]].
  - rewrite Hser, firstn_app, Hk, Nat.sub_diag, firstn_O, app_nil_r.
    rewrite <- Hk. apply firstn_all.
  - exact (length_serialize h size msg buf Hmax Hmsg).
  - destruct (serialize_parts h size msg (A1.serialize msg buf) Hmax Hmsg)
      as (_ & Hser2).
    fold k in Hser2. rewrite Hser2, Hskip. symmetry. exact Hser.
Qed.

(** X4 on a 19-byte block filled with 9: 16 field bytes, then three bytes
    of the block as it was. *)
Lemma X4_witness :
  19 <= INT_MAX
  /\ A1.serialize msg16 (repeat 9 19)
     = [65; 65; 66; 66; 67; 67; 68; 68; 69; 69; 70; 70; 71; 71; 72; 72; 9; 9; 9]
  /\ firstn 16 (A1.serialize msg16 (repeat 9 19)) = gather (build_iov msg16)
  /\ A1.serialize msg16 (A1.serialize msg16 (repeat 9 19))
     = A1.serialize msg16 (repeat 9 19).
Proof.
  split; [vm_compute; discriminate|]. split; [reflexivity|].
  destruct (X4_serialization_of_the_message heap_ok 19 msg16 (repeat 9 19)
              ltac:(vm_compute; discriminate) eq_refl) as (H1 & _ & _ & H4).
  split; [exact H1 | exact H4].
Defined.

(** ** Bytes reported against bytes sent, two-copy client *)

Lemma a1_loop_wire (h : heap_env) (size : Z) (msg : message_t) :
  size <= INT_MAX ->
  alloc_message h size = inl msg ->
  forall sc buf c evs k0,
    Z.of_nat (length buf) = size ->
    0 <= k0 ->
    (k0 + Z.of_nat (length sc)) * size <= LLONG_MAX ->
    total_bytes c = k0 * size ->
    let res := A1.send_loop sc msg size buf c evs in
    0 <= (payload_bytes (A1.lr_events res) - payload_bytes evs)
         - (total_bytes (A1.lr_counters res) - total_bytes c) < size.
Proof.
  intros Hmax Hmsg.
  destruct (alloc_message_inl _ _ _ Hmsg) as (Hsize & _).
  induction sc as [|it sc IH]; intros buf c evs k0 Hbuf Hk0 Hbound Hc.
  - cbn. lia.
  - cbv zeta. cbn [A1.send_loop]. cbn [length] in Hbound.
    rewrite Nat2Z.inj_succ in Hbound.
    pose proof (length_serialize h size msg buf Hmax Hmsg Hbuf) as Hlen'.
    pose proof (send_all_correct (A1.replies it) (A1.serialize msg buf) size)
      as Hpost.
    fold (A1.send_all_result_of it msg size buf) in Hpost.
    destruct (A1.send_all_result_of it msg size buf) as [r e w | w];
      cbn [send_all_post] in Hpost.
    + destruct Hpost as [(-> & -> & ->) | (-> & _ & _ & k & Hk & ->)].
      * replace (size <? 0) with false by (symmetry; apply Z.ltb_ge; lia).
        pose proof (IH (A1.serialize msg buf)
                       (account c size (A1.msg_start it) (A1.msg_end it))
                       (evs ++ [EvPayload (firstn (Z.to_nat size)
                                             (A1.serialize msg buf))])
                       (k0 + 1) Hlen' ltac:(lia) ltac:(lia)) as Hrec.
        assert (Hacc : total_bytes (account c size (A1.msg_start it)
                                            (A1.msg_end it))
                       = total_bytes c + size).
        { cbn [account total_bytes]. apply wrap64_small.
          unfold LLONG_MIN. nia. }
        specialize (Hrec ltac:(rewrite Hacc; lia)). cbv zeta in Hrec.
        rewrite Hacc, payload_bytes_app in Hrec. cbn [payload_bytes] in Hrec.
        rewrite length_firstn in Hrec. lia.
      * replace (-1 <? 0) with true by reflexivity.
        destruct (is_reset e); cbn [A1.lr_counters A1.lr_events];
          rewrite payload_bytes_app; cbn [payload_bytes];
          rewrite length_firstn; lia.
    + destruct Hpost as (_ & _ & k & Hk & ->).
      cbn [A1.lr_counters A1.lr_events].
      rewrite payload_bytes_app. cbn [payload_bytes].
      rewrite length_firstn. lia.
Qed.

Lemma a1_worker_wire (i size dur : Z) (E : A1.env) (a : thread_args_t) :
  8 <= size <= INT_MAX ->
  (forall buf, malloc_send_buf (A1.heap E) size = Some buf ->
               Z.of_nat (length buf) = size) ->
  Z.of_nat (length (A1.script E)) * size <= LLONG_MAX ->
  run_end (A1.client_thread (init_args i size dur) E) = ThreadReturns a ->
  bytes_transferred a
  <= payload_bytes (run_events (A1.client_thread (init_args i size dur) E))
  < bytes_transferred a + size
  /\ bytes_transferred a <= Z.of_nat (length (A1.script E)) * size.
Proof.
  intros Hsize Hblock Hmax. unfold A1.client_thread.
  cbn [msg_size duration init_args].
  pose proof (Nat2Z.is_nonneg (length (A1.script E))) as Hsc.
  destruct (A1.connect_ok E);
    [|intros [= <-]; cbn [run_events payload_bytes bytes_transferred init_args];
      split; [lia | nia]].
  destruct (A1.config_ret E =? sizeof_config);
    [|intros [= <-];
      cbn [run_events app payload_bytes bytes_transferred init_args];
      split; [lia | nia]].
  destruct (alloc_message (A1.heap E) size) as [msg | d] eqn:Hmsg; [|discriminate].
  destruct (malloc_send_buf (A1.heap E) size) as [buf|] eqn:Hbuf;
    [|intros [= <-];
      cbn [run_events app payload_bytes bytes_transferred init_args];
      split; [lia | nia]].
  pose proof (a1_loop_wire (A1.heap E) size msg ltac:(lia) Hmsg (A1.script E)
                buf counters0 [EvConnect true; EvConfig size dur (A1.config_ret E)]
                0 (Hblock buf eq_refl) ltac:(lia) ltac:(lia) eq_refl) as Hw.
  destruct (a1_loop_counts (A1.script E) msg size buf counters0
              [EvConnect true; EvConfig size dur (A1.config_ret E)] 0
              ltac:(lia) ltac:(lia) ltac:(lia) eq_refl eq_refl)
    as (k & Hk & Hbytes & _).
  cbv zeta in Hw. cbn [counters0 total_bytes payload_bytes] in Hw.
  cbn [app].
  destruct (A1.lr_exit _); try discriminate; unfold finish;
    cbn [run_end run_events]; intros [= <-];
    cbn [record_metrics bytes_transferred];
    rewrite payload_bytes_app; cbn [payload_bytes report_event];
    (split; [lia | rewrite Hbytes; nia]).
Qed.

(** X5.  A two-copy worker never reports more than it sent.  For a payload
    size of at least 8 that fits an [int], a serialization block of
    [msg_size] bytes and a run short of overflowing the counter, the bytes
    a returning worker put on the stream are the [bytes_transferred] it
    reports plus less than one message: the part of a send that failed
    midway, which is on the stream but not counted. *)
Theorem X5_two_copy_reports_at_most_bytes_sent
    (i size dur : Z) (E : A1.env) (a : thread_args_t) :
  8 <= size <= INT_MAX ->
  (forall buf, malloc_send_buf (A1.heap E) size = Some buf ->
               Z.of_nat (length buf) = size) ->
  Z.of_nat (length (A1.script E)) * size <= LLONG_MAX ->
  run_end (A1.client_thread (init_args i size dur) E) = ThreadReturns a ->
  bytes_transferred a
  <= payload_bytes (run_events (A1.client_thread (init_args i size dur) E))
  < bytes_transferred a + size.
Proof.
  intros Hsize Hblock Hmax Hend.
  exact (proj1 (a1_worker_wire i size dur E a Hsize Hblock Hmax Hend)).
Qed.

(** X5 on the worker whose connection is reset three bytes into its first
    message: 3 bytes on the stream, 0 reported. *)
Lemma X5_witness :
  exists a,
    run_end (A1.client_thread (init_args 0 16 2) env_reset_two_copy)
    = ThreadReturns a
    /\ bytes_transferred a = 0
    /\ payload_bytes
         (run_events (A1.client_thread (init_args 0 16 2) env_reset_two_copy))
       = 3
    /\ bytes_transferred a
       <= payload_bytes
            (run_events (A1.client_thread (init_args 0 16 2) env_reset_two_copy))
       < bytes_transferred a + 16.
Proof.
  eexists. split; [reflexivity|]. split; [reflexivity|]. split; [reflexivity|].
  apply (X5_two_copy_reports_at_most_bytes_sent 0 16 2 env_reset_two_copy).
  - vm_compute. split; discriminate.
  - intros buf [= <-]. reflexivity.
  - vm_compute. discriminate.
  - reflexivity.
Defined.

(** ** Interrupted and failed sends in the scatter-gather loops *)

Lemma a2_loop_without_interrupts sc : forall iov c evs,
  A2.send_loop sc iov c evs
  = A2.send_loop (filter (fun it => negb (interrupted it)) sc) iov c evs.
Proof.
  induction sc as [|it sc IH]; intros iov c evs; [reflexivity|].
  cbn [filter]. unfold interrupted at 1.
  destruct (sg_reply it) as [room | e] eqn:Hrep.
  - cbn [negb A2.send_loop]. rewrite Hrep. cbn [sendmsg sys_ret sys_bytes].
    destruct (_ <? 0); [reflexivity | apply IH].
  - destruct e; cbn [negb A2.send_loop]; rewrite Hrep;
      cbn [sendmsg sys_ret sys_errno is_reset];
      replace (-1 <? 0) with true by reflexivity; try reflexivity.
    apply IH.
Qed.

(** X6.  An interrupted [sendmsg] leaves no trace in the one-copy client.
    A worker behaves, event for event and in what it reports, as it would
    had the iterations whose call failed with EINTR not taken place. *)
Theorem X6_one_copy_ignores_interrupts (targs : thread_args_t) (E : A2.env) :
  A2.client_thread targs E = A2.client_thread targs (without_interrupts E).
Proof.
  unfold A2.client_thread, without_interrupts.
  cbn [A2.connect_ok A2.config_ret A2.heap A2.script A2.start_time A2.end_time].
  destruct (A2.connect_ok E); [|reflexivity].
  destruct (A2.config_ret E =? sizeof_config); [|reflexivity].
  destruct (alloc_message (A2.heap E) (msg_size targs)); [|reflexivity].
  now rewrite <- a2_loop_without_interrupts.
Qed.

Lemma a2_loop_stops sc : forall it rest iov c evs,
  fatal (sg_reply it) = true ->
  A2.send_loop (sc ++ it :: rest) iov c evs
  = A2.send_loop (sc ++ [it]) iov c evs.
Proof.
  induction sc as [|it0 sc IH]; intros it rest iov c evs Hfatal.
  - cbn [app A2.send_loop]. destruct (sg_reply it) as [room | e];
      [discriminate|].
    cbn [sendmsg sys_ret sys_errno]. replace (-1 <? 0) with true by reflexivity.
    destruct e; try discriminate; reflexivity.
  - cbn [app A2.send_loop].
    destruct (_ <? 0); [|now apply IH].
    destruct (is_reset _); [reflexivity|].
    destruct (sys_errno _) as [[| | | | |]|]; try reflexivity. now apply IH.
Qed.

Lemma a3_loop_stops sc : forall it rest iov st,
  fatal_zc (sg_reply (A3.it_call it)) = true ->
  A3.send_loop (sc ++ it :: rest) iov st = A3.send_loop (sc ++ [it]) iov st.
Proof.
  induction sc as [|it0 sc IH]; intros it rest iov st Hfatal.
  - cbn [app A3.send_loop]. destruct (sg_reply (A3.it_call it)) as [room | e];
      [discriminate|].
    cbn [sendmsg sys_ret sys_errno]. replace (-1 <? 0) with true by reflexivity.
    destruct e; try discriminate; reflexivity.
  - cbn [app A3.send_loop].
    destruct (_ <? 0); [|now apply IH].
    destruct (sys_errno _) as [[| | | | |]|]; try reflexivity; now apply IH.
Qed.

(** X7.  Nothing is sent after a fatal error.  In the one-copy loop a
    [sendmsg] that fails with an errno other than EINTR, and in the
    zero-copy loop one that fails with an errno other than EINTR and
    ENOBUFS, is the last call of the loop: the iterations the clock would
    still have admitted do not take place, and the counters are those
    reached before the failure. *)
Theorem X7_no_send_after_a_fatal_error
    (it2 : sg_iteration) (it3 : A3.iteration) :
  fatal (sg_reply it2) = true ->
  fatal_zc (sg_reply (A3.it_call it3)) = true ->
  (forall sc rest iov c evs,
      A2.send_loop (sc ++ it2 :: rest) iov c evs
      = A2.send_loop (sc ++ [it2]) iov c evs
      /\ A2.lr_counters (A2.send_loop (sc ++ it2 :: rest) iov c evs)
         = A2.lr_counters (A2.send_loop sc iov c evs))
  /\ (forall sc rest iov st,
         A3.send_loop (sc ++ it3 :: rest) iov st
         = A3.send_loop (sc ++ [it3]) iov st
         /\ A3.st_counters (fst (A3.send_loop (sc ++ it3 :: rest) iov st))
            = A3.st_counters (fst (A3.send_loop sc iov st))).
Proof.
  intros H2 H3. split.
  - intros sc rest iov c evs. split; [now apply a2_loop_stops|].
    rewrite a2_loop_stops by assumption. clear rest.
    revert c evs. induction sc as [|it0 sc IH]; intros c evs.
    + cbn [app A2.send_loop]. destruct (sg_reply it2) as [room | e];
        [discriminate|].
      cbn [sendmsg sys_ret sys_errno]. replace (-1 <? 0) with true by reflexivity.
      destruct e; try discriminate; reflexivity.
    + cbn [app A2.send_loop].
      destruct (_ <? 0); [|now apply IH].
      destruct (is_reset _); [reflexivity|].
      destruct (sys_errno _) as [[| | | | |]|]; try reflexivity. now apply IH.
  - intros sc rest iov st. split; [now apply a3_loop_stops|].
    rewrite a3_loop_stops by assumption. clear rest.
    revert st. induction sc as [|it0 sc IH]; intros st.
    + cbn [app A3.send_loop]. destruct (sg_reply (A3.it_call it3)) as [room | e];
        [discriminate|].
      cbn [sendmsg sys_ret sys_errno]. replace (-1 <? 0) with true by reflexivity.
      destruct e; try discriminate; reflexivity.
    + cbn [app A3.send_loop].
      destruct (_ <? 0); [|now apply IH].
      destruct (sys_errno _) as [[| | | | |]|]; try reflexivity; now apply IH.
Qed.

(** X7 on a broken pipe after one message, with two more iterations the
    clock would have admitted. *)
Lemma X7_witness :
  A2.lr_counters
    (A2.send_loop ([mkSg 1 2 (Accept 16)] ++ mkSg 3 4 (Refuse EPIPE)
                     :: [mkSg 5 6 (Accept 16); mkSg 7 8 (Accept 16)])
       (build_iov msg16) counters0 [])
  = mkCounters 16 1 1
  /\ A3.st_counters
       (fst (A3.send_loop ([it_sent] ++ A3.mkIter (mkSg 3 4 (Refuse EPIPE)) []
                             :: [it_sent; it_sent])
               (build_iov msg16) (A3.state0 [])))
     = A3.st_counters (fst (A3.send_loop [it_sent] (build_iov msg16)
                              (A3.state0 []))).
Proof.
  destruct (X7_no_send_after_a_fatal_error (mkSg 3 4 (Refuse EPIPE))
              (A3.mkIter (mkSg 3 4 (Refuse EPIPE)) []) eq_refl eq_refl)
    as (H2 & H3).
  split.
  - rewrite (proj2 (H2 [mkSg 1 2 (Accept 16)]
                       [mkSg 5 6 (Accept 16); mkSg 7 8 (Accept 16)]
                       (build_iov msg16) counters0 [])).
    reflexivity.
  - exact (proj2 (H3 [it_sent] [it_sent; it_sent] (build_iov msg16)
                     (A3.state0 []))).
Defined.

(** ** The zero-copy client beside the one-copy client *)

Lemma payloads_app (evs evs' : list event) :
  payloads (evs ++ evs') = payloads evs ++ payloads evs'.
Proof.
  induction evs as [|e evs IH]; cbn [app payloads]; [reflexivity|].
  destruct e; cbn [app]; now rewrite IH.
Qed.

Lemma a3_loop_as_one_copy sc : forall iov st c evs,
  Forall (fun it => sg_reply (A3.it_call it) <> Refuse ENOBUFS) sc ->
  A3.st_counters st = c ->
  payloads (A3.st_events st) = payloads evs ->
  let r3 := A3.send_loop sc iov st in
  let r2 := A2.send_loop (map A3.it_call sc) iov c evs in
  A3.st_counters (fst r3) = A2.lr_counters r2
  /\ snd r3 = A2.lr_exit r2
  /\ payloads (A3.st_events (fst r3)) = payloads (A2.lr_events r2).
Proof.
  induction sc as [|it sc IH]; intros iov st c evs Hall Hc Hp.
  - cbn. now repeat split.
  - inversion Hall as [|? ? Hit Hrest]; subst. cbv zeta.
    cbn [map A3.send_loop A2.send_loop].
    destruct (sg_reply (A3.it_call it)) as [room | e] eqn:Hrep;
      cbn [sendmsg sys_ret sys_errno sys_bytes].
    + set (sent := Z.max 0 (Z.min room (iov_total iov))).
      replace (sent <? 0) with false
        by (symmetry; apply Z.ltb_ge; unfold sent; lia).
      apply IH; [assumption| |].
      * unfold A3.after_send. cbn [sys_ret].
        destruct (wrap32 _ >=? A3.DRAIN_EVERY); [rewrite drain_state|];
          reflexivity.
      * unfold A3.after_send. cbn [sys_ret sys_bytes].
        destruct (wrap32 _ >=? A3.DRAIN_EVERY); [rewrite drain_state|];
          cbn [A3.st_events A3.enqueue]; rewrite !payloads_app; cbn [payloads];
          rewrite ?app_nil_r; now rewrite Hp.
    + replace (-1 <? 0) with true by reflexivity.
      destruct e; cbn [is_reset fst snd A3.log A3.enqueue A3.st_counters
                         A3.st_events A2.lr_counters A2.lr_exit A2.lr_events];
        rewrite ?payloads_app; cbn [payloads]; rewrite ?app_nil_r;
        try (split; [reflexivity | split; [reflexivity | assumption]]);
        try congruence.
      apply IH; [assumption | reflexivity | assumption].
Qed.

(** X8.  Without resource exhaustion the zero-copy client is the one-copy
    client.  When no [sendmsg] of a zero-copy worker fails with ENOBUFS, it
    ends as a one-copy worker meeting the same answers does, with the same
    metrics, and puts the same payloads on the stream; its drains change
    nothing of either. *)
Theorem X8_zero_copy_as_one_copy (targs : thread_args_t) (E : A3.env) :
  Forall (fun it => sg_reply (A3.it_call it) <> Refuse ENOBUFS) (A3.script E) ->
  run_end (A3.client_thread targs E)
  = run_end (A2.client_thread targs (as_one_copy E))
  /\ payloads (run_events (A3.client_thread targs E))
     = payloads (run_events (A2.client_thread targs (as_one_copy E))).
Proof.
  intros Hall. unfold A3.client_thread, A2.client_thread, as_one_copy.
  cbn [A2.connect_ok A2.config_ret A2.heap A2.script A2.start_time A2.end_time].
  destruct (A3.connect_ok E); [|now split].
  set (ev1 := if A3.setsockopt_ok E then _ else _).
  assert (Hev1 : payloads ev1 = [])
    by (unfold ev1; destruct (A3.setsockopt_ok E); reflexivity).
  cbv zeta.
  destruct (A3.config_ret E =? sizeof_config).
  - destruct (alloc_message (A3.heap E) (msg_size targs)) as [msg | d].
    + unfold A3.worker_loop.
      pose proof (a3_loop_as_one_copy (A3.script E) (build_iov msg)
                    (A3.state0 (ev1 ++ [EvConfig (msg_size targs) (duration targs)
                                           (A3.config_ret E)]))
                    counters0
                    ([EvConnect true]
                       ++ [EvConfig (msg_size targs) (duration targs)
                             (A3.config_ret E)])
                    Hall eq_refl
                    ltac:(cbn [A3.state0 A3.st_events];
                          rewrite payloads_app, Hev1; reflexivity)) as H.
      cbv zeta in H. destruct (A3.send_loop _ _ _) as [st ex].
      cbn [fst snd] in H. destruct H as (Hc & _ & Hp).
      rewrite drain_state. cbn [A3.st_counters A3.st_events A3.enqueue].
      unfold finish. cbn [run_end run_events]. rewrite Hc. split; [reflexivity|].
      rewrite !payloads_app, Hp. cbn [payloads report_event].
      now rewrite app_nil_r.
    + split; [reflexivity|]. cbn [run_events].
      rewrite !payloads_app, Hev1. reflexivity.
  - split; [reflexivity|]. cbn [run_events].
    rewrite !payloads_app, Hev1. reflexivity.
Qed.

(** X8 on a worker that is interrupted once and then sends one message. *)
Lemma X8_witness :
  let E := A3.mkEnv true true 8 heap_ok 0
                    [A3.mkIter (mkSg 1 2 (Refuse EINTR)) [zc_record]; it_sent]
                    [zc_record] 30 in
  run_end (A3.client_thread (init_args 0 16 2) E)
  = ThreadReturns (mkArgs 0 16 2 16 30 3)
  /\ run_end (A3.client_thread (init_args 0 16 2) E)
     = run_end (A2.client_thread (init_args 0 16 2) (as_one_copy E)).
Proof.
  cbv zeta. split; [reflexivity|].
  apply X8_zero_copy_as_one_copy.
  repeat constructor; discriminate.
Defined.

Lemma a3_after_send_counters_only st st' s it :
  A3.st_counters st = A3.st_counters st' ->
  A3.drain_counter st = A3.drain_counter st' ->
  payloads (A3.st_events st) = payloads (A3.st_events st') ->
  A3.st_counters (A3.after_send st s it) = A3.st_counters (A3.after_send st' s it)
  /\ A3.drain_counter (A3.after_send st s it)
     = A3.drain_counter (A3.after_send st' s it)
  /\ payloads (A3.st_events (A3.after_send st s it))
     = payloads (A3.st_events (A3.after_send st' s it)).
Proof.
  intros Hc Hd Hp. unfold A3.after_send. rewrite Hc, Hd.
  destruct (wrap32 _ >=? A3.DRAIN_EVERY); rewrite ?drain_state;
    cbn [A3.st_counters A3.drain_counter A3.st_events];
    rewrite !payloads_app, Hp; repeat split.
Qed.

Lemma a3_loop_counters_only sc : forall iov st st',
  A3.st_counters st = A3.st_counters st' ->
  A3.drain_counter st = A3.drain_counter st' ->
  payloads (A3.st_events st) = payloads (A3.st_events st') ->
  let r := A3.send_loop sc iov st in
  let r' := A3.send_loop sc iov st' in
  A3.st_counters (fst r) = A3.st_counters (fst r')
  /\ payloads (A3.st_events (fst r)) = payloads (A3.st_events (fst r')).
Proof.
  induction sc as [|it sc IH]; intros iov st st' Hc Hd Hp.
  - cbn. now split.
  - cbv zeta. cbn [A3.send_loop].
    destruct (sg_reply (A3.it_call it)) as [room | e];
      cbn [sendmsg sys_ret sys_errno sys_bytes].
    + set (sent := Z.max 0 (Z.min room (iov_total iov))).
      replace (sent <? 0) with false
        by (symmetry; apply Z.ltb_ge; unfold sent; lia).
      match goal with
      | |- context [A3.after_send (A3.enqueue st ?ms) ?s ?c] =>
          destruct (a3_after_send_counters_only
                      (A3.enqueue st ms) (A3.enqueue st' ms) s c Hc Hd Hp)
            as (Hc1 & Hd1 & Hp1)
      end.
      exact (IH iov _ _ Hc1 Hd1 Hp1).
    + replace (-1 <? 0) with true by reflexivity.
      destruct e; cbn [fst A3.log A3.enqueue A3.st_counters A3.st_events];
        rewrite ?payloads_app; cbn [payloads]; rewrite ?app_nil_r;
        try (split; assumption).
      * exact (IH iov (A3.enqueue st (A3.it_arrivals it))
                  (A3.enqueue st' (A3.it_arrivals it)) Hc Hd Hp).
      * apply IH; rewrite !drain_state;
          cbn [A3.st_counters A3.drain_counter A3.st_events A3.enqueue];
          rewrite ?payloads_app; cbn [payloads]; rewrite ?app_nil_r;
          assumption.
Qed.

(** X9.  A refused SO_ZEROCOPY is not fatal.  Whether [setsockopt] succeeds
    or fails, the zero-copy worker ends the same way, with the same metrics,
    and puts the same payloads on the stream. *)
Theorem X9_setsockopt_failure_is_not_fatal
    (targs : thread_args_t) (E : A3.env) (b : bool) :
  run_end (A3.client_thread targs (with_setsockopt b E))
  = run_end (A3.client_thread targs E)
  /\ payloads (run_events (A3.client_thread targs (with_setsockopt b E)))
     = payloads (run_events (A3.client_thread targs E)).
Proof.
  unfold A3.client_thread, with_setsockopt.
  cbn [A3.connect_ok A3.setsockopt_ok A3.config_ret A3.heap A3.script
       A3.start_time A3.end_time].
  destruct (A3.connect_ok E); [|now split].
  set (evb := if b then _ else _).
  set (ev1 := if A3.setsockopt_ok E then _ else _).
  assert (Hevb : payloads evb = []) by (unfold evb; destruct b; reflexivity).
  assert (Hev1 : payloads ev1 = [])
    by (unfold ev1; destruct (A3.setsockopt_ok E); reflexivity).
  cbv zeta.
  destruct (A3.config_ret E =? sizeof_config).
  - destruct (alloc_message (A3.heap E) (msg_size targs)) as [msg | d].
    + set (c := EvConfig (msg_size targs) (duration targs) (A3.config_ret E)).
      unfold A3.worker_loop. cbn [A3.script A3.final_arrivals].
      pose proof (a3_loop_counters_only (A3.script E) (build_iov msg)
                    (A3.state0 (evb ++ [c])) (A3.state0 (ev1 ++ [c]))
                    eq_refl eq_refl
                    ltac:(cbn [A3.state0 A3.st_events];
                          rewrite !payloads_app, Hevb, Hev1; reflexivity)) as H.
      cbv zeta in H.
      destruct (A3.send_loop _ _ (A3.state0 (evb ++ [c]))) as [st ex].
      destruct (A3.send_loop _ _ (A3.state0 (ev1 ++ [c]))) as [st' ex'].
      cbn [fst] in H. destruct H as (Hc & Hp). rewrite !drain_state.
      cbn [A3.st_counters A3.st_events A3.enqueue].
      unfold finish. cbn [run_end run_events].
      rewrite Hc, !payloads_app, Hp. now split.
    + split; [reflexivity|].
      cbn [run_events]. rewrite !payloads_app, Hevb, Hev1. reflexivity.
  - split; [reflexivity|].
    cbn [run_events]. rewrite !payloads_app, Hevb, Hev1. reflexivity.
Qed.

(** ** How often the zero-copy worker drains *)

Lemma drains_app (evs evs' : list event) :
  drains (evs ++ evs') = drains evs + drains evs'.
Proof.
  induction evs as [|e evs IH]; cbn [app drains]; [lia|].
  destruct e; lia.
Qed.

Lemma div64_succ (k : Z) :
  0 <= k ->
  (k + 1) / 64 = k / 64 + (if k mod 64 + 1 >=? 64 then 1 else 0).
Proof.
  intros Hk. pose proof (Z.mod_pos_bound k 64 ltac:(lia)) as Hr.
  pose proof (Z.div_mod k 64 ltac:(lia)) as Hdm.
  destruct (k mod 64 + 1 >=? 64) eqn:Hge; rewrite Z.geb_leb in Hge;
    [apply Z.leb_le in Hge | apply Z.leb_gt in Hge].
  - symmetry. apply (Z.div_unique (k + 1) 64 (k / 64 + 1) 0); lia.
  - symmetry. apply (Z.div_unique (k + 1) 64 (k / 64 + 0) (k mod 64 + 1)); lia.
Qed.

Lemma a3_loop_drains sc : forall iov st k0,
  Forall (fun it => fatal_zc (sg_reply (A3.it_call it)) = false) sc ->
  0 <= k0 ->
  A3.drain_counter st = k0 mod 64 ->
  let st' := fst (A3.send_loop sc iov st) in
  drains (A3.st_events st')
  = drains (A3.st_events st)
    + ((k0 + accepted sc) / 64 - k0 / 64) + refused_enobufs sc
  /\ A3.drain_counter st' = (k0 + accepted sc) mod 64.
Proof.
  induction sc as [|it sc IH]; intros iov st k0 Hall Hk0 Hdc.
  - cbv zeta. cbn [A3.send_loop fst accepted refused_enobufs].
    rewrite !Z.add_0_r. split; [lia | exact Hdc].
  - inversion Hall as [|? ? Hit Hrest]; subst. cbv zeta.
    cbn [A3.send_loop accepted refused_enobufs].
    destruct (sg_reply (A3.it_call it)) as [room | e];
      cbn [sendmsg sys_ret sys_errno sys_bytes].
    + set (sent := Z.max 0 (Z.min room (iov_total iov))).
      replace (sent <? 0) with false
        by (symmetry; apply Z.ltb_ge; unfold sent; lia).
      set (st1 := A3.after_send _ _ _).
      pose proof (Z.mod_pos_bound k0 64 ltac:(lia)) as Hr.
      assert (Hst1 : drains (A3.st_events st1)
                     = drains (A3.st_events st)
                       + (if k0 mod 64 + 1 >=? 64 then 1 else 0)
                     /\ A3.drain_counter st1 = (k0 + 1) mod 64).
      { unfold st1, A3.after_send.
        cbn [A3.enqueue A3.drain_counter A3.st_events A3.st_counters].
        rewrite Hdc. rewrite wrap32_small by (unfold INT_MAX; lia).
        unfold A3.DRAIN_EVERY.
        destruct (k0 mod 64 + 1 >=? 64) eqn:Hge.
        - rewrite drain_state.
          cbn [A3.st_events A3.drain_counter A3.st_counters A3.errqueue].
          rewrite !drains_app. cbn [drains]. split; [lia|].
          rewrite Z.geb_leb in Hge. apply Z.leb_le in Hge.
          rewrite <- Z.add_mod_idemp_l by lia.
          replace (k0 mod 64 + 1) with 64 by lia. reflexivity.
        - cbn [A3.st_events A3.drain_counter].
          rewrite drains_app. cbn [drains]. split; [lia|].
          rewrite Z.geb_leb in Hge. apply Z.leb_gt in Hge.
          rewrite <- Z.add_mod_idemp_l by lia. symmetry.
          apply Z.mod_small. lia. }
      destruct Hst1 as (Hd1 & Hc1).
      destruct (IH iov st1 (k0 + 1) Hrest ltac:(lia) Hc1) as (Hdr & Hdc').
      rewrite Hdr, Hd1, Hdc'. rewrite (div64_succ k0 Hk0).
      replace (k0 + 1 + accepted sc) with (k0 + (1 + accepted sc)) by lia.
      split; [lia | reflexivity].
    + replace (-1 <? 0) with true by reflexivity.
      destruct e; try discriminate.
      * destruct (IH iov (A3.enqueue st (A3.it_arrivals it)) k0 Hrest Hk0 Hdc)
          as (Hdr & Hdc').
        split; [exact Hdr | exact Hdc'].
      * destruct (IH iov (A3.drain (A3.enqueue st (A3.it_arrivals it))) k0
                     Hrest Hk0) as (Hdr & Hdc').
        { rewrite drain_state. exact Hdc. }
        rewrite Hdr, Hdc'. rewrite drain_state.
        cbn [A3.st_events A3.enqueue]. rewrite drains_app. cbn [drains].
        split; [lia | reflexivity].
Qed.

(** X10.  The zero-copy worker drains every 64 messages.  In a run that no
    fatal error cuts short, drain_completions is called once for every 64th
    message sent, once for every ENOBUFS failure, and once more after the
    loop. *)
Theorem X10_drain_schedule (E : A3.env) (msg : message_t) :
  Forall (fun it => fatal_zc (sg_reply (A3.it_call it)) = false) (A3.script E) ->
  drains (A3.st_events (A3.worker_loop E msg []))
  = accepted (A3.script E) / 64 + refused_enobufs (A3.script E) + 1.
Proof.
  intros Hall. unfold A3.worker_loop.
  destruct (a3_loop_drains (A3.script E) (build_iov msg) (A3.state0 []) 0
              Hall ltac:(lia) eq_refl) as (Hdr & _).
  destruct (A3.send_loop _ _ _) as [st ex]. cbn [fst] in Hdr.
  rewrite drain_state. cbn [A3.st_events A3.enqueue].
  rewrite drains_app, Hdr. cbn [drains A3.state0 A3.st_events].
  rewrite !Z.add_0_l. change (0 / 64) with 0. lia.
Qed.

(** X10 on a run of 130 messages with one ENOBUFS failure: two periodic
    drains, one forced, one final. *)
Lemma X10_witness :
  Forall (fun it => fatal_zc (sg_reply (A3.it_call it)) = false)
         (A3.script env_130_messages)
  /\ drains (A3.st_events (A3.worker_loop env_130_messages msg16 [])) = 4.
Proof.
  assert (Hall : Forall (fun it => fatal_zc (sg_reply (A3.it_call it)) = false)
                        (A3.script env_130_messages)).
  { cbn [A3.script env_130_messages]. apply Forall_app.
    split; [apply Forall_forall; intros x Hx;
            apply repeat_spec in Hx; now subst|].
    constructor; [reflexivity|].
    apply Forall_forall; intros x Hx; apply repeat_spec in Hx; now subst. }
  split; [exact Hall|].
  rewrite (X10_drain_schedule env_130_messages msg16 Hall). reflexivity.
Defined.

(** ** A run in which no worker reaches the send loop *)

Section MainIdle.

Variable env : Type.
Variable client_thread : thread_args_t -> env -> worker_run.
Variable impl : impl_name.
Variable through : env -> bool.
Variables size dur : Z.

Hypothesis idle_end : forall i E,
  through E = false ->
  run_end (client_thread (init_args i size dur) E)
  = ThreadReturns (init_args i size dur).

Lemma run_workers_idle (envs : list env) : forall i,
  Forall (fun E => through E = false) envs ->
  let rs := run_workers env client_thread i size dur envs in
  existsb exited rs = false
  /\ existsb blocked rs = false
  /\ joined rs = fresh_args i size dur (length envs).
Proof.
  induction envs as [|E envs IH]; intros i Hall; cbn [run_workers existsb].
  - repeat split.
  - inversion Hall as [|? ? HE Hrest]; subst.
    destruct (IH (i + 1) Hrest) as (Hex & Hbl & Hj). cbv zeta in Hex, Hbl, Hj.
    unfold exited at 1, blocked at 1. cbn [joined length fresh_args].
    rewrite (idle_end i E HE), Hex, Hbl, Hj. repeat split.
Qed.

Lemma main_idle (sp : list (spawn env)) (envs : list env) :
  spawned sp = Some envs ->
  Forall (fun E => through E = false) envs ->
  main env client_thread impl size dur true sp
  = MainReturns 0
      (Some (summarize impl size (Z.of_nat (length envs))
               (fresh_args 0 size dur (length envs)))).
Proof.
  intros Hsp Hall. unfold main. rewrite Hsp, (spawned_length sp envs Hsp).
  destruct (run_workers_idle envs 0 Hall) as (Hex & Hbl & Hj).
  cbv zeta in Hex, Hbl, Hj. now rewrite Hex, Hbl, Hj.
Qed.

Lemma main_create_fails (malloc_ok : bool) (sp : list (spawn env)) :
  spawned sp = None ->
  main env client_thread impl size dur malloc_ok sp
  = MainReturns EXIT_FAILURE None.
Proof.
  intros Hsp. unfold main. rewrite Hsp. now destruct malloc_ok.
Qed.

End MainIdle.

Lemma aggregate_fresh_args (size dur : Z) (n : nat) : forall i,
  aggregate (fresh_args i size dur n) = totals0.
Proof.
  unfold aggregate. induction n as [|n IH]; intros i; [reflexivity|].
  cbn [fresh_args fold_left].
  change (aggregate_step totals0 (init_args i size dur)) with totals0.
  apply IH.
Qed.

Lemma report_of_idle_run (impl : impl_name) (size dur : Z) (n : nat) :
  let r := summarize impl size (Z.of_nat n) (fresh_args 0 size dur n) in
  rp_total_bytes r = 0
  /\ rp_elapsed r = 0%float
  /\ PrimFloat.is_nan (throughput_gbps r) = true.
Proof.
  unfold summarize. rewrite aggregate_fresh_args. repeat split.
Qed.

Lemma a1_idle_end (size dur i : Z) (E : A1.env) :
  gets_through (A1.connect_ok E) (A1.config_ret E) = false ->
  run_end (A1.client_thread (init_args i size dur) E)
  = ThreadReturns (init_args i size dur).
Proof.
  unfold gets_through, A1.client_thread.
  destruct (A1.connect_ok E); cbn [andb]; [|reflexivity].
  intros ->. reflexivity.
Qed.

Lemma a2_idle_end (size dur i : Z) (E : A2.env) :
  gets_through (A2.connect_ok E) (A2.config_ret E) = false ->
  run_end (A2.client_thread (init_args i size dur) E)
  = ThreadReturns (init_args i size dur).
Proof.
  unfold gets_through, A2.client_thread.
  destruct (A2.connect_ok E); cbn [andb]; [|reflexivity].
  intros ->. reflexivity.
Qed.

Lemma a3_idle_end (size dur i : Z) (E : A3.env) :
  gets_through (A3.connect_ok E) (A3.config_ret E) = false ->
  run_end (A3.client_thread (init_args i size dur) E)
  = ThreadReturns (init_args i size dur).
Proof.
  unfold gets_through, A3.client_thread.
  destruct (A3.connect_ok E); cbn [andb]; [|reflexivity].
  intros ->. reflexivity.
Qed.

(** X11.  A run in which no worker gets through.  When main has its
    arrays and has created every thread, and every worker fails to
    connect or to send its configuration (or there is no worker at all),
    main still prints its RESULT line and returns 0: the total is 0 bytes,
    the elapsed time 0.0, and the throughput, 0 divided by 0, is a NaN.
    When a [pthread_create] fails, main returns EXIT_FAILURE and prints no
    RESULT line, whatever the workers met.  The three clients alike. *)
Theorem X11_idle_run_reports_nan (size dur : Z) :
  (forall sp envs,
      spawned sp = Some envs ->
      Forall (fun E => gets_through (A1.connect_ok E) (A1.config_ret E) = false)
             envs ->
      exists r, main_two_copy size dur true sp = MainReturns 0 (Some r)
                /\ rp_total_bytes r = 0 /\ rp_elapsed r = 0%float
                /\ PrimFloat.is_nan (throughput_gbps r) = true)
  /\ (forall sp envs,
         spawned sp = Some envs ->
         Forall (fun E => gets_through (A2.connect_ok E) (A2.config_ret E) = false)
                envs ->
         exists r, main_one_copy size dur true sp = MainReturns 0 (Some r)
                   /\ rp_total_bytes r = 0 /\ rp_elapsed r = 0%float
                   /\ PrimFloat.is_nan (throughput_gbps r) = true)
  /\ (forall sp envs,
         spawned sp = Some envs ->
         Forall (fun E => gets_through (A3.connect_ok E) (A3.config_ret E) = false)
                envs ->
         exists r, main_zero_copy size dur true sp = MainReturns 0 (Some r)
                   /\ rp_total_bytes r = 0 /\ rp_elapsed r = 0%float
                   /\ PrimFloat.is_nan (throughput_gbps r) = true)
  /\ (forall malloc_ok,
         (forall sp : list (spawn A1.env), spawned sp = None ->
            main_two_copy size dur malloc_ok sp = MainReturns EXIT_FAILURE None)
         /\ (forall sp : list (spawn A2.env), spawned sp = None ->
            main_one_copy size dur malloc_ok sp = MainReturns EXIT_FAILURE None)
         /\ (forall sp : list (spawn A3.env), spawned sp = None ->
            main_zero_copy size dur malloc_ok sp
            = MainReturns EXIT_FAILURE None)).
Proof.
  split; [|split; [|split]].
  - intros sp envs Hsp Hall. eexists. split; [|apply report_of_idle_run].
    apply (main_idle A1.env A1.client_thread two_copy
             (fun E => gets_through (A1.connect_ok E) (A1.config_ret E))
             size dur (a1_idle_end size dur) sp envs Hsp Hall).
  - intros sp envs Hsp Hall. eexists. split; [|apply report_of_idle_run].
    apply (main_idle A2.env A2.client_thread one_copy
             (fun E => gets_through (A2.connect_ok E) (A2.config_ret E))
             size dur (a2_idle_end size dur) sp envs Hsp Hall).
  - intros sp envs Hsp Hall. eexists. split; [|apply report_of_idle_run].
    apply (main_idle A3.env A3.client_thread zero_copy
             (fun E => gets_through (A3.connect_ok E) (A3.config_ret E))
             size dur (a3_idle_end size dur) sp envs Hsp Hall).
  - intros malloc_ok. split; [|split]; intros sp Hsp; now apply main_create_fails.
Qed.

(** X11 on two workers of a 80000-byte run, the server down for one and
    the handshake cut short for the other; and on the same run when the
    second thread cannot be created. *)
Lemma X11_witness :
  (exists r,
     main_two_copy 80000 2 true
       [Spawned env7_refused; Spawned (A1.mkEnv true 3 heap_ok 0 [] 0)]
     = MainReturns 0 (Some r)
     /\ rp_total_bytes r = 0 /\ rp_elapsed r = 0%float
     /\ PrimFloat.is_nan (throughput_gbps r) = true)
  /\ main_two_copy 80000 2 true [Spawned env7_refused; SpawnFails]
     = MainReturns 1 None.
Proof.
  destruct (X11_idle_run_reports_nan 80000 2) as (Hidle & _ & _ & Hfail).
  split.
  - apply (Hidle [Spawned env7_refused; Spawned (A1.mkEnv true 3 heap_ok 0 [] 0)]
                 [env7_refused; A1.mkEnv true 3 heap_ok 0 [] 0] eq_refl).
    repeat constructor.
  - apply (proj1 (Hfail true)). reflexivity.
Defined.

(* ================================================================== *)
(** * The receiving side *)

(** ** handle_client *)

Lemma recv_loop_counts (len : Z) (sc : list Server.recv_step) :
  forall remaining total,
    0 <= len ->
    0 <= total ->
    total + Z.of_nat (length remaining) <= LLONG_MAX ->
    let res := Server.recv_loop sc len remaining total in
    fst (fst res) - total
    = Z.of_nat (length remaining) - Z.of_nat (length (snd (fst res)))
    /\ (exists k, snd (fst res) = skipn k remaining)
    /\ (1 <= len -> snd res = Server.Ended 0 -> snd (fst res) = []).
Proof.
  induction sc as [|step sc IH]; intros remaining total Hlen Htot Hmax.
  - cbn. split; [lia|]. split; [now exists O | discriminate].
  - cbv zeta. cbn [Server.recv_loop]. unfold Server.recv.
    destruct (Server.rv_failed step).
    + cbn. split; [lia|]. split; [now exists O | discriminate].
    + set (n := Z.min (Z.max 1 (Server.rv_ready step))
                      (Z.min len (Z.of_nat (length remaining)))).
      assert (Hn : 0 <= n <= Z.of_nat (length remaining)) by (unfold n; lia).
      destruct (n <=? 0) eqn:Hle.
      * apply Z.leb_le in Hle. assert (Hn0 : n = 0) by lia.
        cbn [fst snd]. rewrite Hn0. cbn [Z.to_nat skipn].
        split; [lia|]. split; [now exists O|].
        intros Hl _. destruct remaining as [|b rest]; [reflexivity|].
        exfalso. unfold n in *. cbn [length] in *. lia.
      * apply Z.leb_gt in Hle.
        assert (Hskip : Z.of_nat (length (skipn (Z.to_nat n) remaining))
                        = Z.of_nat (length remaining) - n)
          by (rewrite length_skipn; lia).
        specialize (IH (skipn (Z.to_nat n) remaining) (wrap64 (total + n))
                       Hlen).
        rewrite wrap64_small in IH by (unfold LLONG_MIN; lia).
        specialize (IH ltac:(lia) ltac:(lia)). cbv zeta in IH.
        rewrite wrap64_small by (unfold LLONG_MIN; lia).
        destruct IH as (Hcount & (k & Hk) & Heof).
        split; [lia|]. split; [|exact Heof].
        exists (k + Z.to_nat n)%nat. now rewrite <- skipn_skipn.
Qed.

(** A handler that keeps reading reaches the end of the stream. *)
Lemma recv_loop_reaches_eof (len : Z) (sc : list Server.recv_step) :
  forall remaining total,
    1 <= len ->
    Forall (fun step => Server.rv_failed step = false) sc ->
    (length remaining < length sc)%nat ->
    snd (Server.recv_loop sc len remaining total) = Server.Ended 0.
Proof.
  induction sc as [|step sc IH]; intros remaining total Hlen Hall Hlong.
  - cbn [length] in Hlong. lia.
  - inversion Hall as [|? ? Hstep Hrest]; subst.
    cbn [Server.recv_loop]. unfold Server.recv. rewrite Hstep.
    set (n := Z.min (Z.max 1 (Server.rv_ready step))
                    (Z.min len (Z.of_nat (length remaining)))).
    destruct (n <=? 0) eqn:Hle.
    + apply Z.leb_le in Hle. cbn [snd]. f_equal. unfold n in *. lia.
    + apply Z.leb_gt in Hle. apply IH; try assumption.
      rewrite length_skipn. cbn [length] in Hlong. lia.
Qed.

Lemma handler_counts_stream
    (E : Server.handler_env) (client_fd thread_id : Z) :
  Server.cfg_bytes E = sizeof_config ->
  Server.malloc_buf_ok E = true ->
  1 <= Server.cfg_msg_size E <= INT_MAX ->
  Z.of_nat (length (Server.stream E)) <= LLONG_MAX ->
  exists total (rest : list byte),
    Server.handle_client E client_fd thread_id
    = [Server.SvConnected thread_id (Server.cfg_msg_size E)
                          (Server.cfg_duration E);
       Server.SvReceived thread_id total; Server.SvFreeBuf;
       Server.SvCloseClient client_fd; Server.SvFreeArgs]
    /\ total = Z.of_nat (length (Server.stream E)) - Z.of_nat (length rest)
    /\ (exists k, rest = skipn k (Server.stream E))
    /\ (Forall (fun step => Server.rv_failed step = false) (Server.script E) ->
        (length (Server.stream E) < length (Server.script E))%nat ->
        total = Z.of_nat (length (Server.stream E))).
Proof.
  intros Hcfg Hmalloc Hsize Hmax. unfold Server.handle_client.
  rewrite Hcfg, Z.eqb_refl, Hmalloc.
  assert (Hlen : Server.to_size_t (Server.cfg_msg_size E)
                 = Server.cfg_msg_size E).
  { unfold Server.to_size_t. apply Z.mod_small. unfold INT_MAX in Hsize.
    change (2 ^ 64) with 18446744073709551616.
    change (2 ^ 31) with 2147483648 in Hsize. lia. }
  rewrite Hlen.
  pose proof (recv_loop_counts (Server.cfg_msg_size E) (Server.script E)
                (Server.stream E) 0 ltac:(lia) ltac:(lia) ltac:(lia)) as Hc.
  pose proof (recv_loop_reaches_eof (Server.cfg_msg_size E) (Server.script E)
                (Server.stream E) 0 ltac:(lia)) as Heof.
  cbv zeta in Hc.
  destruct (Server.recv_loop _ _ _ _) as [[total rest] st].
  cbn [fst snd] in Hc, Heof. destruct Hc as (Hcount & Hk & Hend).
  exists total, rest. split; [reflexivity|]. split; [lia|]. split; [exact Hk|].
  intros Hall Hlong. rewrite (Hend ltac:(lia) (Heof Hall Hlong)) in Hcount.
  cbn [length] in Hcount. lia.
Qed.

(** The receive loop takes the stream in order: what it leaves unread is
    the stream after the bytes it counted. *)
Lemma recv_loop_in_order (len : Z) (sc : list Server.recv_step)
    (remaining : list byte) (total : Z) :
  0 <= len ->
  0 <= total ->
  total + Z.of_nat (length remaining) <= LLONG_MAX ->
  let res := Server.recv_loop sc len remaining total in
  total <= fst (fst res) <= total + Z.of_nat (length remaining)
  /\ snd (fst res) = skipn (Z.to_nat (fst (fst res) - total)) remaining.
Proof.
  intros Hlen Htot Hmax res.
  destruct (recv_loop_counts len sc remaining total Hlen Htot Hmax)
    as (Hcount & (k & Hk) & _).
  fold res in Hcount, Hk.
  assert (Hrest : (length (snd (fst res)) <= length remaining)%nat)
    by (rewrite Hk, length_skipn; lia).
  split; [lia|]. rewrite Hcount.
  destruct (Nat.le_gt_cases k (length remaining)) as [Hle | Hgt].
  - replace (Z.to_nat (Z.of_nat (length remaining)
                       - Z.of_nat (length (snd (fst res))))) with k;
      [exact Hk|].
    rewrite Hk, length_skipn. lia.
  - rewrite Hk, (skipn_all2 remaining) by lia. cbn [length].
    rewrite Z.sub_0_r, Nat2Z.id. symmetry. apply skipn_all.
Qed.

(** X12.  The handler counts the stream it reads.  With the configuration
    received whole, the buffer allocated and a message size of at least
    one byte, the total a handler prints is the number of bytes its
    receive loop took off the stream: the loop reads the stream in order,
    what it leaves unread is the stream after exactly [total] bytes, and
    that holds however the loop ends, on a failing [recv] or on the
    shutdown of the server as well.  When no [recv] fails and the server
    runs long enough, the total is every byte the client sent.  The
    connection is closed and the buffer and arguments freed after the
    last [recv]. *)
Theorem X12_handler_counts_the_stream
    (E : Server.handler_env) (client_fd thread_id : Z) :
  Server.cfg_bytes E = sizeof_config ->
  Server.malloc_buf_ok E = true ->
  1 <= Server.cfg_msg_size E <= INT_MAX ->
  Z.of_nat (length (Server.stream E)) <= LLONG_MAX ->
  let res := Server.recv_loop (Server.script E)
               (Server.to_size_t (Server.cfg_msg_size E)) (Server.stream E) 0 in
  let total := fst (fst res) in
  let rest := snd (fst res) in
  Server.handle_client E client_fd thread_id
  = handler_run thread_id (Server.cfg_msg_size E) (Server.cfg_duration E)
                total client_fd
  /\ 0 <= total <= Z.of_nat (length (Server.stream E))
  /\ rest = skipn (Z.to_nat total) (Server.stream E)
  /\ Server.stream E = firstn (Z.to_nat total) (Server.stream E) ++ rest
  /\ total = Z.of_nat (length (Server.stream E)) - Z.of_nat (length rest)
  /\ (Forall (fun step => Server.rv_failed step = false) (Server.script E) ->
      (length (Server.stream E) < length (Server.script E))%nat ->
      total = Z.of_nat (length (Server.stream E)) /\ rest = []).
Proof.
  intros Hcfg Hmalloc Hsize Hmax.
  assert (Hlen : Server.to_size_t (Server.cfg_msg_size E)
                 = Server.cfg_msg_size E).
  { unfold Server.to_size_t. apply Z.mod_small. unfold INT_MAX in Hsize.
    change (2 ^ 64) with 18446744073709551616.
    change (2 ^ 31) with 2147483648 in Hsize. lia. }
  rewrite Hlen. intros res total rest.
  destruct (recv_loop_in_order (Server.cfg_msg_size E) (Server.script E)
              (Server.stream E) 0 ltac:(lia) ltac:(lia) ltac:(lia))
    as (Hrange & Hrest).
  destruct (recv_loop_counts (Server.cfg_msg_size E) (Server.script E)
              (Server.stream E) 0 ltac:(lia) ltac:(lia) ltac:(lia))
    as (Hcount & _ & Hend).
  fold res in Hrange, Hrest, Hcount, Hend.
  rewrite Z.sub_0_r in Hrest, Hcount. fold total in Hrange, Hrest, Hcount.
  fold rest in Hrest, Hcount, Hend.
  split.
  - unfold Server.handle_client, handler_run.
    rewrite Hcfg, Z.eqb_refl, Hmalloc, Hlen. fold res.
    unfold total. destruct res as [[t r] st]. reflexivity.
  - split; [lia|]. split; [exact Hrest|].
    split; [rewrite Hrest; symmetry; apply firstn_skipn|].
    split; [exact Hcount|].
    intros Hall Hlong.
    pose proof (recv_loop_reaches_eof (Server.cfg_msg_size E) (Server.script E)
                  (Server.stream E) 0 ltac:(lia) Hall Hlong) as Heof.
    fold res in Heof. specialize (Hend ltac:(lia) Heof).
    split; [|exact Hend]. rewrite Hend in Hcount. cbn [length] in Hcount. lia.
Qed.

(** X12 on a stream of 19 bytes read 8 at a time until the third [recv]
    fails: 16 bytes are counted and 3 are left unread. *)
Lemma X12_witness :
  let E := Server.mkHandler 8 8 2 true
             [1; 2; 3; 4; 5; 6; 7; 8; 9; 10; 11; 12; 13; 14; 15; 16; 17; 18; 19]
             [Server.mkRecv false 100; Server.mkRecv false 100;
              Server.mkRecv true 0; Server.mkRecv false 100] in
  Server.handle_client E 5 0 = handler_run 0 8 2 16 5
  /\ snd (fst (Server.recv_loop (Server.script E) 8 (Server.stream E) 0))
     = [17; 18; 19]
  /\ snd (fst (Server.recv_loop (Server.script E) 8 (Server.stream E) 0))
     = skipn (Z.to_nat
                (fst (fst (Server.recv_loop (Server.script E) 8
                             (Server.stream E) 0))))
             (Server.stream E).
Proof.
  cbv zeta. split; [reflexivity|]. split; [reflexivity|].
  exact (proj1 (proj2 (proj2
           (X12_handler_counts_the_stream
              (Server.mkHandler 8 8 2 true
                 [1; 2; 3; 4; 5; 6; 7; 8; 9; 10; 11; 12; 13; 14; 15; 16; 17;
                  18; 19]
                 [Server.mkRecv false 100; Server.mkRecv false 100;
                  Server.mkRecv true 0; Server.mkRecv false 100]) 5 0
              eq_refl eq_refl ltac:(vm_compute; split; discriminate)
              ltac:(vm_compute; discriminate))))).
Defined.

(** ** Sender and receiver together *)

Lemma length_concat_payloads (evs : list event) :
  Z.of_nat (length (concat (payloads evs))) = payload_bytes evs.
Proof.
  induction evs as [|e evs IH]; [reflexivity|].
  destruct e; cbn [payloads payload_bytes concat]; try exact IH.
  rewrite length_app. lia.
Qed.

(** A handler fed the payloads of a worker, with message size and time to
    read them all, counts the bytes the worker put on the stream. *)
Lemma handler_counts_payloads (evs : list event) (size dur : Z)
    (sc : list Server.recv_step) (fd id : Z) :
  1 <= size <= INT_MAX ->
  payload_bytes evs <= LLONG_MAX ->
  Forall (fun step => Server.rv_failed step = false) sc ->
  payload_bytes evs < Z.of_nat (length sc) ->
  Server.handle_client (handler_of evs size dur sc) fd id
  = handler_run id size dur (payload_bytes evs) fd.
Proof.
  intros Hsize Hmax Hall Hlong.
  destruct (handler_counts_stream (handler_of evs size dur sc) fd id
              eq_refl eq_refl Hsize) as (total & rest & Hrun & _ & _ & Heof).
  { cbn [handler_of Server.stream]. now rewrite length_concat_payloads. }
  cbn [handler_of Server.stream Server.script Server.cfg_msg_size
       Server.cfg_duration] in Hrun, Heof.
  rewrite length_concat_payloads in Heof.
  assert (Hlt : (length (concat (payloads evs)) < length sc)%nat).
  { apply Nat2Z.inj_lt. rewrite length_concat_payloads. exact Hlong. }
  rewrite Hrun, (Heof Hall Hlt). reflexivity.
Qed.

(** X13.  Sender and receiver agree on the byte count.  Let a worker run
    and return, and let the handler on the other side receive its payloads
    with the same message size, no failing [recv] and time to read to the
    end.  For a one-copy or a zero-copy worker the handler's total is the
    worker's [bytes_transferred]; for a two-copy worker it is at least
    that and less than one message more (the part of a failed send that
    reached the stream). *)
Theorem X13_sender_and_receiver_agree
    (i size dur : Z) (sc : list Server.recv_step) (fd id : Z) :
  8 <= size <= INT_MAX ->
  Forall (fun step => Server.rv_failed step = false) sc ->
  (forall (E : A2.env) a,
      let r := A2.client_thread (init_args i size dur) E in
      Z.of_nat (length (A2.script E)) * size <= LLONG_MAX ->
      run_end r = ThreadReturns a ->
      bytes_transferred a < Z.of_nat (length sc) ->
      Server.handle_client (handler_of (run_events r) size dur sc) fd id
      = handler_run id size dur (bytes_transferred a) fd)
  /\ (forall (E : A3.env) a,
         let r := A3.client_thread (init_args i size dur) E in
         Z.of_nat (length (A3.script E)) * size <= LLONG_MAX ->
         run_end r = ThreadReturns a ->
         bytes_transferred a < Z.of_nat (length sc) ->
         Server.handle_client (handler_of (run_events r) size dur sc) fd id
         = handler_run id size dur (bytes_transferred a) fd)
  /\ (forall (E : A1.env) a,
         let r := A1.client_thread (init_args i size dur) E in
         (forall buf, malloc_send_buf (A1.heap E) size = Some buf ->
                      Z.of_nat (length buf) = size) ->
         (Z.of_nat (length (A1.script E)) + 1) * size <= LLONG_MAX ->
         run_end r = ThreadReturns a ->
         bytes_transferred a + size <= Z.of_nat (length sc) ->
         exists total,
           Server.handle_client (handler_of (run_events r) size dur sc) fd id
           = handler_run id size dur total fd
           /\ bytes_transferred a <= total < bytes_transferred a + size).
Proof.
  intros Hsize Hall. split; [|split]; intros E a r.
  - intros Hmax Hend Hlong.
    destruct (a2_worker_wire i size dur E a Hmax Hend) as (Hw & Hb).
    rewrite Hw. fold r. apply handler_counts_payloads; try assumption; try lia.
    + fold r in Hw. lia.
    + fold r in Hw. lia.
  - intros Hmax Hend Hlong.
    destruct (a3_worker_wire i size dur E a Hmax Hend) as (Hw & Hb).
    rewrite Hw. fold r. apply handler_counts_payloads; try assumption; try lia.
    + fold r in Hw. lia.
    + fold r in Hw. lia.
  - intros Hblock Hmax Hend Hlong.
    pose proof (Nat2Z.is_nonneg (length (A1.script E))) as Hsc.
    destruct (a1_worker_wire i size dur E a Hsize Hblock ltac:(nia) Hend)
      as (Hw & Hb).
    fold r in Hw. exists (payload_bytes (run_events r)). split; [|exact Hw].
    apply handler_counts_payloads; try assumption; try lia; nia.
Qed.

(** X13 on the one-copy worker whose second send is cut short: 21 bytes
    sent, 21 reported, 21 counted by a handler reading 16 at a time. *)
Lemma X13_witness :
  let E := A2.mkEnv true 8 heap_ok 0
                    [mkSg 1 2 (Accept 16); mkSg 3 4 (Accept 5)] 5 in
  let r := A2.client_thread (init_args 0 16 2) E in
  let sc := repeat (Server.mkRecv false 7) 30 in
  exists a,
    run_end r = ThreadReturns a
    /\ bytes_transferred a = 21
    /\ Server.handle_client (handler_of (run_events r) 16 2 sc) 4 0
       = handler_run 0 16 2 (bytes_transferred a) 4.
Proof.
  cbv zeta. eexists. split; [reflexivity|]. split; [reflexivity|].
  assert (Hall : Forall (fun step => Server.rv_failed step = false)
                        (repeat (Server.mkRecv false 7) 30)).
  { apply Forall_forall. intros x Hx. apply repeat_spec in Hx. now subst. }
  destruct (X13_sender_and_receiver_agree 0 16 2
              (repeat (Server.mkRecv false 7) 30) 4 0
              ltac:(vm_compute; split; discriminate) Hall) as (H2 & _).
  apply (H2 (A2.mkEnv true 8 heap_ok 0
               [mkSg 1 2 (Accept 16); mkSg 3 4 (Accept 5)] 5)).
  - vm_compute. discriminate.
  - reflexivity.
  - vm_compute. reflexivity.
Defined.

(** ** The accept loop of the server *)

Lemma dispositions_app (evs evs' : list Server.sv_event) :
  Server.dispositions (evs ++ evs')
  = Server.dispositions evs ++ Server.dispositions evs'.
Proof.
  induction evs as [|e evs IH]; [reflexivity|].
  destruct e; cbn [app Server.dispositions]; now rewrite IH.
Qed.

Lemma accept_loop_dispositions (sc : list Server.accept_step) : forall id,
  Server.dispositions (fst (Server.accept_loop sc id)) = Server.connections sc.
Proof.
  induction sc as [|step sc IH]; intros id; [reflexivity|].
  destruct step as [e | fd malloc_ok create_ok]; cbn [Server.accept_loop].
  - specialize (IH id). destruct (Server.accept_loop sc id) as [evs id'].
    cbn [fst] in IH. destruct e; cbn [fst Server.dispositions Server.connections];
      exact IH.
  - destruct malloc_ok.
    + specialize (IH (wrap32 (id + 1))).
      destruct (Server.accept_loop sc (wrap32 (id + 1))) as [evs id'].
      cbn [fst] in IH.
      destruct create_ok;
        cbn [fst Server.dispositions Server.connections andb]; now rewrite IH.
    + specialize (IH id). destruct (Server.accept_loop sc id) as [evs id'].
      cbn [fst] in IH.
      cbn [fst Server.dispositions Server.connections andb]. now rewrite IH.
Qed.

(** X14.  The server loses no connection.  When the listening socket is
    set up, main returns 0 after closing it, and the connections it handed
    to a handler thread or closed are, in order, exactly the connections
    [accept] returned: handed over when both [malloc] and [pthread_create]
    succeeded, closed otherwise.  A failing [accept] neither stops the
    loop nor touches any connection. *)
Theorem X14_server_accounts_for_every_connection
    (port_arg : option Z) (S : Server.setup_env)
    (sc : list Server.accept_step) (server_fd : Z) :
  fst (Server.create_server_socket
         (match port_arg with Some p => p | None => Server.SERVER_PORT end) S)
  = inl server_fd ->
  snd (Server.main port_arg S sc) = Server.Returns 0
  /\ Server.dispositions (fst (Server.main port_arg S sc))
     = Server.connections sc
  /\ exists before,
       fst (Server.main port_arg S sc)
       = before ++ [Server.SvShutdown; Server.SvCloseServer server_fd].
Proof.
  unfold Server.main.
  destruct (Server.create_server_socket _ S) as [[fd | c] evs] eqn:Hsetup;
    cbn [fst]; [|discriminate].
  intros [= ->].
  pose proof (accept_loop_dispositions sc 0) as Hloop.
  destruct (Server.accept_loop sc 0) as [loop_evs id]. cbn [fst snd] in *.
  split; [reflexivity|]. split.
  - rewrite !dispositions_app, Hloop. cbn [Server.dispositions].
    rewrite app_nil_r.
    assert (Hpre : Server.dispositions evs = []).
    { unfold Server.create_server_socket in Hsetup.
      repeat match type of Hsetup with
             | (if ?c then _ else _) = _ => destruct c
             end; inversion Hsetup; reflexivity. }
    now rewrite Hpre.
  - exists (evs ++ loop_evs). now rewrite app_assoc.
Qed.

(** X14 on a server that meets an interrupted accept, two good
    connections, one whose thread cannot be created and one for which
    [malloc] fails. *)
Lemma X14_witness :
  let S := Server.mkSetup 3 0 0 0 in
  let sc := [Server.AcceptFails EINTR; Server.Accepted 4 true true;
             Server.Accepted 5 true false; Server.AcceptFails EOTHER;
             Server.Accepted 6 false true; Server.Accepted 7 true true] in
  Server.dispositions (fst (Server.main None S sc))
  = [(4, Server.Handled); (5, Server.Dropped); (6, Server.Dropped);
     (7, Server.Handled)]
  /\ snd (Server.main None S sc) = Server.Returns 0
  /\ Server.dispositions (fst (Server.main None S sc)) = Server.connections sc.
Proof.
  cbv zeta. split; [reflexivity|].
  destruct (X14_server_accounts_for_every_connection None
              (Server.mkSetup 3 0 0 0)
              [Server.AcceptFails EINTR; Server.Accepted 4 true true;
               Server.Accepted 5 true false; Server.AcceptFails EOTHER;
               Server.Accepted 6 false true; Server.Accepted 7 true true]
              3 eq_refl) as (H1 & H2 & _).
  split; [exact H1 | exact H2].
Defined.

(** *** Thread ids *)

Lemma ids_used_nonneg (sc : list Server.accept_step) : 0 <= Server.ids_used sc.
Proof.
  induction sc as [|[e | fd [|] c] sc IH]; cbn [Server.ids_used]; lia.
Qed.

Lemma accept_loop_ids (sc : list Server.accept_step) : forall id0,
  0 <= id0 ->
  id0 + Server.ids_used sc <= INT_MAX ->
  let r := Server.accept_loop sc id0 in
  snd r = id0 + Server.ids_used sc
  /\ Forall (fun id => id0 <= id < id0 + Server.ids_used sc)
            (Server.spawned_ids (fst r))
  /\ StronglySorted Z.lt (Server.spawned_ids (fst r))
  /\ Forall (fun p => id0 <= fst p <= id0 + Server.ids_used sc)
            (Server.announced (fst r)).
Proof.
  induction sc as [|step sc IH]; intros id0 Hid Hmax.
  - cbn. split; [lia|]. repeat split; constructor.
  - pose proof (ids_used_nonneg sc) as Hnn.
    destruct step as [e | fd malloc_ok create_ok];
      cbv zeta; cbn [Server.accept_loop Server.ids_used] in *.
    + destruct (IH id0 Hid Hmax) as (Hsnd & Hrange & Hsorted & Hann).
      cbv zeta in Hsnd, Hrange, Hsorted, Hann.
      destruct (Server.accept_loop sc id0) as [evs id'].
      cbn [fst snd] in *.
      destruct e; cbn [fst snd Server.spawned_ids Server.announced];
        repeat split; assumption.
    + destruct malloc_ok.
      * destruct (IH (wrap32 (id0 + 1))) as (Hsnd & Hrange & Hsorted & Hann);
          rewrite ?wrap32_small by (unfold INT_MAX in *; lia); try lia.
        cbv zeta in Hsnd, Hrange, Hsorted, Hann.
        rewrite wrap32_small in * by (unfold INT_MAX in *; lia).
        destruct (Server.accept_loop sc (id0 + 1)) as [evs id'].
        cbn [fst snd] in *.
        assert (Hrange' : Forall (fun id => id0 <= id < id0 + (1 + Server.ids_used sc))
                                 (Server.spawned_ids evs)).
        { eapply Forall_impl; [|exact Hrange]. cbn beta. intros x Hx. lia. }
        assert (Hann' : Forall (fun p => id0 <= fst p
                                         <= id0 + (1 + Server.ids_used sc))
                               (Server.announced evs)).
        { eapply Forall_impl; [|exact Hann]. cbn beta. intros x Hx. lia. }
        destruct create_ok;
          cbn [fst snd Server.spawned_ids Server.announced].
        -- split; [lia|]. split; [constructor; [lia | exact Hrange']|].
           split; [|constructor; [cbn [fst]; lia | exact Hann']].
           constructor; [exact Hsorted|].
           eapply Forall_impl; [|exact Hrange]. cbn beta. intros x Hx. lia.
        -- split; [lia|]. split; [exact Hrange'|].
           split; [exact Hsorted|].
           constructor; [cbn [fst]; lia | exact Hann'].
      * destruct (IH id0 Hid Hmax) as (Hsnd & Hrange & Hsorted & Hann).
        cbv zeta in Hsnd, Hrange, Hsorted, Hann.
        destruct (Server.accept_loop sc id0) as [evs id'].
        cbn [fst snd Server.spawned_ids Server.announced] in *.
        split; [exact Hsnd|]. split; [exact Hrange|]. split; [exact Hsorted|].
        constructor; [cbn [fst]; lia | exact Hann].
Qed.

(** X15.  Handler thread ids.  Counting from 0, the accept loop uses up one
    id for every accepted connection whose argument block could be
    allocated, whether or not the thread is then created.  So, short of
    overflowing the [int], the ids of the handlers started are strictly
    increasing (no two handlers share an id) and below the number of ids
    used, which is where [thread_id] stands when the loop ends. *)
Theorem X15_handler_ids_are_distinct (sc : list Server.accept_step) :
  Server.ids_used sc <= INT_MAX ->
  let r := Server.accept_loop sc 0 in
  snd r = Server.ids_used sc
  /\ StronglySorted Z.lt (Server.spawned_ids (fst r))
  /\ NoDup (Server.spawned_ids (fst r))
  /\ Forall (fun id => 0 <= id < Server.ids_used sc)
            (Server.spawned_ids (fst r)).
Proof.
  intros Hmax r.
  destruct (accept_loop_ids sc 0 ltac:(lia) ltac:(lia))
    as (Hsnd & Hrange & Hsorted & _).
  fold r in Hsnd, Hrange, Hsorted. rewrite Z.add_0_l in Hsnd.
  split; [exact Hsnd|]. split; [exact Hsorted|]. split.
  - clear -Hsorted. induction Hsorted as [|x l _ IH Hx]; constructor;
      [|exact IH].
    intros Hin. rewrite Forall_forall in Hx. specialize (Hx x Hin). lia.
  - eapply Forall_impl; [|exact Hrange]. cbn beta. intros x Hx. lia.
Qed.

(** X15 on the same run: ids 0 and 2 are started, id 1 went to the
    connection whose thread could not be created. *)
Lemma X15_witness :
  let sc := [Server.AcceptFails EINTR; Server.Accepted 4 true true;
             Server.Accepted 5 true false; Server.AcceptFails EOTHER;
             Server.Accepted 6 false true; Server.Accepted 7 true true] in
  Server.spawned_ids (fst (Server.accept_loop sc 0)) = [0; 2]
  /\ snd (Server.accept_loop sc 0) = 3
  /\ NoDup (Server.spawned_ids (fst (Server.accept_loop sc 0))).
Proof.
  cbv zeta. split; [reflexivity|]. split; [reflexivity|].
  exact (proj1 (proj2 (proj2
           (X15_handler_ids_are_distinct
              [Server.AcceptFails EINTR; Server.Accepted 4 true true;
               Server.Accepted 5 true false; Server.AcceptFails EOTHER;
               Server.Accepted 6 false true; Server.Accepted 7 true true]
              ltac:(vm_compute; discriminate))))).
Defined.

(** ** connect_to_server and the socket of a worker *)

(** X16.  connect_to_server leaks no descriptor.  It returns the socket
    it created exactly when [socket], [inet_pton] and [connect] all
    succeeded, and then it has closed nothing; in every other case it
    returns -1, and it has closed the socket once if one was created and
    nothing if [socket] itself failed. *)
Theorem X16_connect_to_server_leaks_no_descriptor (n : net_env) :
  let r := connect_to_server n in
  (0 <= socket_ret n /\ 0 < inet_pton_ret n /\ 0 <= connect_ret n ->
     fst r = socket_ret n /\ net_closed (snd r) = [])
  /\ (~ (0 <= socket_ret n /\ 0 < inet_pton_ret n /\ 0 <= connect_ret n) ->
     fst r = -1
     /\ net_closed (snd r) = if socket_ret n <? 0 then [] else [socket_ret n])
  /\ (0 <= fst r <->
      0 <= socket_ret n /\ 0 < inet_pton_ret n /\ 0 <= connect_ret n).
Proof.
  cbv zeta. unfold connect_to_server.
  destruct (Z.ltb_spec (socket_ret n) 0) as [Hs | Hs];
    [cbn [fst snd net_closed]; repeat split; intros; try lia; try tauto|].
  destruct (Z.leb_spec (inet_pton_ret n) 0) as [Hp | Hp];
    [cbn [fst snd net_closed]; repeat split; intros; try lia; try tauto|].
  destruct (Z.ltb_spec (connect_ret n) 0) as [Hc | Hc];
    cbn [fst snd net_closed]; repeat split; intros; try lia; try tauto.
Qed.

Lemma closes_app (evs evs' : list event) :
  closes (evs ++ evs') = closes evs + closes evs'.
Proof.
  induction evs as [|e evs IH]; [reflexivity|].
  destruct e; cbn [app closes]; rewrite IH; lia.
Qed.

Lemma a1_loop_closes (sc : list A1.iteration) (msg : message_t) (size : Z) :
  forall send_buf c evs,
    closes (A1.lr_events (A1.send_loop sc msg size send_buf c evs))
    = closes evs.
Proof.
  induction sc as [|it sc IH]; intros send_buf c evs; [reflexivity|].
  cbn [A1.send_loop].
  destruct (A1.send_all_result_of it msg size send_buf) as [sent e w | w].
  - destruct (sent <? 0).
    + destruct (is_reset e); cbn [A1.lr_events]; rewrite closes_app;
        cbn [closes]; lia.
    + rewrite IH, closes_app. cbn [closes]. lia.
  - cbn [A1.lr_events]. rewrite closes_app. cbn [closes]. lia.
Qed.

Lemma a2_loop_closes (sc : list sg_iteration) (iov : list iovec) :
  forall c evs,
    closes (A2.lr_events (A2.send_loop sc iov c evs)) = closes evs.
Proof.
  induction sc as [|it sc IH]; intros c evs; [reflexivity|].
  cbn [A2.send_loop]. cbv zeta.
  destruct (sys_ret (sendmsg (sg_reply it) iov) <? 0).
  - destruct (is_reset (sys_errno (sendmsg (sg_reply it) iov)));
      [reflexivity|].
    destruct (sys_errno (sendmsg (sg_reply it) iov)) as [[]|];
      try apply IH; cbn [A2.lr_events]; rewrite closes_app; cbn [closes]; lia.
  - rewrite IH, closes_app. cbn [closes]. lia.
Qed.

Lemma a3_drain_closes (st : A3.state) :
  closes (A3.st_events (A3.drain st)) = closes (A3.st_events st).
Proof.
  unfold A3.drain.
  destruct (A3.drain_completions (A3.errqueue st) 0 0) as [[q n] k].
  cbn [A3.st_events]. rewrite closes_app. cbn [closes]. lia.
Qed.

Lemma a3_after_send_closes (st : A3.state) (s : sys_result)
    (it : sg_iteration) :
  closes (A3.st_events (A3.after_send st s it)) = closes (A3.st_events st).
Proof.
  unfold A3.after_send. cbv zeta.
  destruct (wrap32 (A3.drain_counter st + 1) >=? A3.DRAIN_EVERY).
  - cbn [A3.st_events]. rewrite a3_drain_closes. cbn [A3.st_events].
    rewrite closes_app. cbn [closes]. lia.
  - cbn [A3.st_events]. rewrite closes_app. cbn [closes]. lia.
Qed.

Lemma a3_loop_closes (sc : list A3.iteration) (iov : list iovec) :
  forall st,
    closes (A3.st_events (fst (A3.send_loop sc iov st)))
    = closes (A3.st_events st).
Proof.
  induction sc as [|it sc IH]; intros st; [reflexivity|].
  cbn [A3.send_loop]. cbv zeta.
  destruct (sys_ret (sendmsg (sg_reply (A3.it_call it)) iov) <? 0).
  - destruct (sys_errno (sendmsg (sg_reply (A3.it_call it)) iov)) as [[]|];
      try (rewrite IH); try (rewrite a3_drain_closes);
      cbn [fst A3.log A3.enqueue A3.st_events];
      rewrite ?closes_app; cbn [closes]; lia.
  - rewrite IH, a3_after_send_closes. reflexivity.
Qed.

Lemma finish_releases (targs : thread_args_t) (c : counters)
    (elapsed : float) (evs : list event) :
  closes evs = 0 -> socket_released true (finish targs c elapsed evs).
Proof.
  intros H. unfold socket_released, finish. cbv zeta.
  cbn [run_end run_events].
  exists (evs ++ [report_event (record_metrics targs c elapsed) c]).
  split; [now rewrite <- app_assoc|].
  rewrite closes_app, H. reflexivity.
Qed.

Lemma a1_socket_released (targs : thread_args_t) (E : A1.env) :
  socket_released (A1.connect_ok E) (A1.client_thread targs E).
Proof.
  unfold A1.client_thread.
  destruct (A1.connect_ok E); [|reflexivity]. cbv zeta.
  destruct (A1.config_ret E =? sizeof_config).
  - destruct (alloc_message (A1.heap E) (msg_size targs)) as [msg | d];
      [|reflexivity].
    destruct (malloc_send_buf (A1.heap E) (msg_size targs)) as [buf|].
    + pose proof (a1_loop_closes (A1.script E) msg (msg_size targs) buf
                    counters0
                    ([EvConnect true]
                       ++ [EvConfig (msg_size targs) (duration targs)
                                    (A1.config_ret E)])) as Hc.
      cbn [app closes] in Hc.
      destruct (A1.lr_exit (A1.send_loop _ _ _ _ _ _));
        try (apply finish_releases; exact Hc).
      unfold socket_released. cbn [run_end run_events]. exact Hc.
    + unfold socket_released. cbn [run_end run_events].
      eexists. split; [rewrite <- app_assoc; cbn [app];
                       change [EvConnect true;
                               EvConfig (msg_size targs) (duration targs)
                                        (A1.config_ret E);
                               EvDiag PerrorMallocSendBuf; EvClose]
                         with ([EvConnect true;
                                EvConfig (msg_size targs) (duration targs)
                                         (A1.config_ret E);
                                EvDiag PerrorMallocSendBuf] ++ [EvClose]);
                       reflexivity|].
      reflexivity.
  - unfold socket_released. cbn [run_end run_events].
    exists [EvConnect true;
            EvConfig (msg_size targs) (duration targs) (A1.config_ret E);
            EvDiag ErrConfig].
    split; reflexivity.
Qed.

Lemma a2_socket_released (targs : thread_args_t) (E : A2.env) :
  socket_released (A2.connect_ok E) (A2.client_thread targs E).
Proof.
  unfold A2.client_thread.
  destruct (A2.connect_ok E); [|reflexivity]. cbv zeta.
  destruct (A2.config_ret E =? sizeof_config).
  - destruct (alloc_message (A2.heap E) (msg_size targs)) as [msg | d];
      [|reflexivity].
    apply finish_releases. rewrite a2_loop_closes. reflexivity.
  - unfold socket_released. cbn [run_end run_events].
    exists [EvConnect true;
            EvConfig (msg_size targs) (duration targs) (A2.config_ret E);
            EvDiag ErrConfig].
    split; reflexivity.
Qed.

Lemma a3_socket_released (targs : thread_args_t) (E : A3.env) :
  socket_released (A3.connect_ok E) (A3.client_thread targs E).
Proof.
  unfold A3.client_thread.
  destruct (A3.connect_ok E); [|reflexivity]. cbv zeta.
  set (ev1 := if A3.setsockopt_ok E then _ else _).
  assert (Hev1 : closes ev1 = 0) by (subst ev1; now destruct (A3.setsockopt_ok E)).
  destruct (A3.config_ret E =? sizeof_config).
  - destruct (alloc_message (A3.heap E) (msg_size targs)) as [msg | d].
    + apply finish_releases. unfold A3.worker_loop.
      pose proof (a3_loop_closes (A3.script E) (build_iov msg)
                    (A3.state0
                       (ev1 ++ [EvConfig (msg_size targs) (duration targs)
                                         (A3.config_ret E)]))) as Hc.
      destruct (A3.send_loop _ _ _) as [st ex]. cbn [fst] in Hc.
      rewrite a3_drain_closes. cbn [A3.enqueue A3.st_events].
      rewrite Hc. cbn [A3.state0 A3.st_events].
      rewrite closes_app, Hev1. reflexivity.
    + unfold socket_released. cbn [run_end run_events].
      rewrite !closes_app, Hev1. reflexivity.
  - unfold socket_released. cbn [run_end run_events].
    exists ((ev1 ++ [EvConfig (msg_size targs) (duration targs)
                              (A3.config_ret E)]) ++ [EvDiag ErrConfig]).
    split; [now rewrite <- !app_assoc|].
    rewrite !closes_app, Hev1. reflexivity.
Qed.

(** X17.  What becomes of a worker's socket, in each of the three clients.
    A worker that connected and returns has closed its socket exactly
    once, and that [close] is the last thing it did, whatever path it
    took: a failed handshake, a failed buffer allocation, a broken
    connection or the end of the duration.  A worker that did not connect
    closes nothing, and neither does one that ends the process with [exit]
    after a failed message allocation or one that stays inside send_all
    for ever. *)
Theorem X17_worker_closes_its_socket_once :
  (forall targs E,
     socket_released (A1.connect_ok E) (A1.client_thread targs E))
  /\ (forall targs E,
     socket_released (A2.connect_ok E) (A2.client_thread targs E))
  /\ (forall targs E,
     socket_released (A3.connect_ok E) (A3.client_thread targs E)).
Proof.
  split; [exact a1_socket_released|].
  split; [exact a2_socket_released | exact a3_socket_released].
Qed.

(** ** The server's resources *)

(** X18.  A handler gives back what it was given, on every path.  Whether
    the configuration arrived or not, whether the receive buffer could be
    allocated or not, and however the receive loop ended, handle_client
    closes the client's descriptor once and then frees its argument
    block, as its last two acts; the receive buffer is freed, before
    them, exactly when it was allocated. *)
Theorem X18_handler_releases_on_every_path
    (E : Server.handler_env) (client_fd thread_id : Z) :
  filter sv_release (Server.handle_client E client_fd thread_id)
  = (if (Server.cfg_bytes E =? sizeof_config) && Server.malloc_buf_ok E
     then [Server.SvFreeBuf] else [])
    ++ [Server.SvCloseClient client_fd; Server.SvFreeArgs]
  /\ exists before,
       Server.handle_client E client_fd thread_id
       = before ++ [Server.SvCloseClient client_fd; Server.SvFreeArgs].
Proof.
  unfold Server.handle_client.
  destruct (Server.cfg_bytes E =? sizeof_config); cbn [andb].
  - destruct (Server.malloc_buf_ok E).
    + destruct (Server.recv_loop _ _ _ _) as [[total rest] st].
      split; [reflexivity|].
      exists [Server.SvConnected thread_id (Server.cfg_msg_size E)
                                 (Server.cfg_duration E);
              Server.SvReceived thread_id total; Server.SvFreeBuf].
      reflexivity.
    + split; [reflexivity|].
      exists [Server.SvConnected thread_id (Server.cfg_msg_size E)
                                 (Server.cfg_duration E);
              Server.SvPerror Server.SvMallocRecvBuf].
      reflexivity.
  - split; [reflexivity|]. exists [Server.SvConfigFailed thread_id].
    reflexivity.
Qed.

(** X19.  The server serves only from a socket that listens.  main
    returns 0 exactly when [socket], [setsockopt], [bind] and [listen]
    all succeeded; it then announces the port it was given, or 8080
    without an argument, before anything else.  When one of them fails
    the process exits with EXIT_FAILURE after a single [perror], and no
    connection is accepted whatever the clients do. *)
Theorem X19_server_needs_its_listening_socket
    (port_arg : option Z) (S : Server.setup_env)
    (sc : list Server.accept_step) :
  let r := Server.main port_arg S sc in
  (snd r = Server.Returns 0 <-> setup_ok S)
  /\ (setup_ok S ->
      exists rest,
        fst r = Server.SvListening
                  (match port_arg with
                   | Some p => p
                   | None => 8080
                   end) :: rest)
  /\ (~ setup_ok S ->
      snd r = Server.Exits EXIT_FAILURE
      /\ (exists c, fst r = [Server.SvPerror c])
      /\ Server.announced (fst r) = []).
Proof.
  cbv zeta. unfold Server.main, Server.create_server_socket, setup_ok.
  destruct (Z.ltb_spec (Server.sv_socket_ret S) 0) as [H1 | H1].
  { cbn [fst snd]. split; [split; [discriminate | lia]|].
    split; [lia|]. intros _. split; [reflexivity|].
    split; [eexists; reflexivity | reflexivity]. }
  destruct (Z.ltb_spec (Server.sv_setsockopt_ret S) 0) as [H2 | H2].
  { cbn [fst snd]. split; [split; [discriminate | lia]|].
    split; [lia|]. intros _. split; [reflexivity|].
    split; [eexists; reflexivity | reflexivity]. }
  destruct (Z.ltb_spec (Server.sv_bind_ret S) 0) as [H3 | H3].
  { cbn [fst snd]. split; [split; [discriminate | lia]|].
    split; [lia|]. intros _. split; [reflexivity|].
    split; [eexists; reflexivity | reflexivity]. }
  destruct (Z.ltb_spec (Server.sv_listen_ret S) 0) as [H4 | H4].
  { cbn [fst snd]. split; [split; [discriminate | lia]|].
    split; [lia|]. intros _. split; [reflexivity|].
    split; [eexists; reflexivity | reflexivity]. }
  destruct (Server.accept_loop sc 0) as [loop_evs id]. cbn [fst snd].
  split; [split; [intros _; lia | reflexivity]|].
  split; [|intros Hn; exfalso; apply Hn; lia].
  intros _. destruct port_arg; eexists; reflexivity.
Qed.


(** X16 on a socket that was created but could not connect: -1 comes
    back and descriptor 5 is closed. *)
Lemma X16_witness :
  let n := mkNet 5 1 (-1) in
  fst (connect_to_server n) = -1
  /\ net_closed (snd (connect_to_server n)) = [5].
Proof.
  cbv zeta.
  apply (proj1 (proj2 (X16_connect_to_server_leaks_no_descriptor
                         (mkNet 5 1 (-1))))).
  cbn [socket_ret inet_pton_ret connect_ret]. lia.
Defined.

(** X19 on a server whose [bind] fails while two clients try to
    connect. *)
Lemma X19_witness :
  let S := Server.mkSetup 3 0 (-1) 0 in
  let sc := [Server.Accepted 4 true true; Server.Accepted 5 true true] in
  ~ setup_ok S
  /\ snd (Server.main (Some 9000) S sc) = Server.Exits EXIT_FAILURE
  /\ Server.announced (fst (Server.main (Some 9000) S sc)) = [].
Proof.
  cbv zeta.
  assert (Hn : ~ setup_ok (Server.mkSetup 3 0 (-1) 0)).
  { unfold setup_ok. cbn. lia. }
  split; [exact Hn|].
  destruct (proj2 (proj2 (X19_server_needs_its_listening_socket
                            (Some 9000) (Server.mkSetup 3 0 (-1) 0)
                            [Server.Accepted 4 true true;
                             Server.Accepted 5 true true])) Hn)
    as (Hend & _ & Hann).
  split; [exact Hend | exact Hann].
Defined.


(** ** Completion records *)

Lemma records_read_app (evs evs' : list event) :
  records_read (evs ++ evs') = (records_read evs + records_read evs')%nat.
Proof.
  induction evs as [|e evs IH]; [reflexivity|].
  destruct e; cbn [app records_read]; rewrite IH; lia.
Qed.

Lemma a3_drain_records (st : A3.state) :
  records_seen (A3.drain st) = records_seen st.
Proof.
  unfold records_seen. rewrite drain_state.
  cbn [A3.st_events A3.errqueue length]. rewrite records_read_app.
  cbn [records_read]. lia.
Qed.

Lemma a3_after_send_records (st : A3.state) (s : sys_result)
    (it : sg_iteration) :
  records_seen (A3.after_send st s it) = records_seen st.
Proof.
  unfold A3.after_send. cbv zeta.
  destruct (wrap32 (A3.drain_counter st + 1) >=? A3.DRAIN_EVERY).
  - rewrite drain_state. unfold records_seen.
    cbn [A3.st_events A3.errqueue length]. rewrite !records_read_app.
    cbn [records_read]. lia.
  - unfold records_seen. cbn [A3.st_events A3.errqueue].
    rewrite records_read_app. cbn [records_read]. lia.
Qed.

Lemma a3_enqueue_records (st : A3.state) (ms : list A3.errmsg) :
  records_seen (A3.enqueue st ms) = (records_seen st + length ms)%nat.
Proof.
  unfold records_seen. cbn [A3.enqueue A3.st_events A3.errqueue].
  rewrite length_app. lia.
Qed.

Lemma a3_loop_records (sc : list A3.iteration) (iov : list iovec) :
  forall st,
    records_seen (fst (A3.send_loop sc iov st))
    = (records_seen st + arrivals (passes sc))%nat.
Proof.
  induction sc as [|it sc IH]; intros st.
  - cbn [A3.send_loop fst passes arrivals]. lia.
  - cbn [A3.send_loop passes]. cbv zeta.
    destruct (sg_reply (A3.it_call it)) as [room | e];
      cbn [sendmsg sys_ret sys_errno sys_bytes fatal_zc].
    + set (sent := Z.max 0 (Z.min room (iov_total iov))).
      replace (sent <? 0) with false
        by (symmetry; apply Z.ltb_ge; unfold sent; lia).
      rewrite IH, a3_after_send_records, a3_enqueue_records.
      cbn [arrivals]. lia.
    + replace (-1 <? 0) with true by reflexivity.
      destruct e; cbn [fatal_zc arrivals fst];
        rewrite ?IH, ?a3_drain_records;
        try (rewrite a3_enqueue_records; lia).
      unfold records_seen.
      cbn [A3.log A3.enqueue A3.st_events A3.errqueue].
      rewrite records_read_app, length_app. cbn [records_read]. lia.
      unfold records_seen.
      cbn [A3.log A3.enqueue A3.st_events A3.errqueue].
      rewrite records_read_app, length_app. cbn [records_read]. lia.
Qed.

(** X20.  No completion record is lost or read twice.  Whatever the
    answers to its sends, a zero-copy worker that reaches its loop has,
    when it records its metrics, read exactly the records the kernel
    queued during the passes it performed and before its final drain, and
    its error queue is empty.  The records of passes after the send that
    ended the loop never come into it. *)
Theorem X20_completion_records_are_all_read
    (E : A3.env) (msg : message_t) (evs : list event) :
  let st := A3.worker_loop E msg evs in
  records_read (A3.st_events st)
  = (records_read evs + arrivals (passes (A3.script E))
     + length (A3.final_arrivals E))%nat
  /\ A3.errqueue st = [].
Proof.
  cbv zeta. unfold A3.worker_loop.
  pose proof (a3_loop_records (A3.script E) (build_iov msg) (A3.state0 evs))
    as Hloop.
  destruct (A3.send_loop _ _ _) as [st ex]. cbn [fst] in Hloop.
  rewrite drain_state. cbn [A3.st_events A3.errqueue A3.enqueue].
  split; [|reflexivity].
  rewrite records_read_app. cbn [records_read]. rewrite length_app.
  unfold records_seen in Hloop. cbn [A3.state0 A3.st_events A3.errqueue length]
    in Hloop. lia.
Qed.
